(** * Retrieval-augmented conversation pipeline of the note-taking backend

    A shallow embedding of [app/services/embedding_service.py],
    [intent_service.py], [rag_context_service.py], [note_service.py] and
    [chatbot_service.py], with the properties of the pipeline proved on it.

    Conventions.
    - A Python [str] is a list of Unicode code points ([list N]), so [len],
      slicing and [strip] count what Python counts.  Literals are written
      as UTF-8 text and decoded once by [u].
    - A Python [int] is a [Z]; list positions are [nat].
    - A Python [float] is a rational [Q] (every finite double is one; the
      rounding of float arithmetic is not modelled, nor are NaN and the
      infinities).
    - Everything outside the process (the embedding and generation
      provider, the clock, the UUID generator, database faults) is an
      oracle over an abstract state [Ext], threaded through a state and
      exception monad.

    Layout.  Part I holds the definitions: the embedding of the services,
    a small scripted outside world ([Demo]) and the vocabulary of the
    statements.  Part II proves the properties for every input and every
    behaviour of the outside.  Part III evaluates the services at concrete
    inputs. *)

From Stdlib Require Import ZArith QArith Qround Lia Lqa Ascii String.
From stdpp Require Import base list sorting.

Local Open Scope Z_scope.
Set Warnings "-register-all".

(* ===================================================================== *)
(** * Part I.  Definitions                                                *)
(* ===================================================================== *)

(** ** Python primitives *)

Module Py.

Abbreviation str := (list N).

Definition len {A} (l : list A) : Z := Z.of_nat (length l).

(** UTF-8 decoding of a literal into code points. *)
Definition cont (b : N) : N := N.land b 63.

Fixpoint utf8_decode (bs : list N) : str :=
  match bs with
  | [] => []
  | b :: rest =>
      if (b <? 128)%N then b :: utf8_decode rest
      else if (b <? 224)%N then
        match rest with
        | b1 :: r => (N.land b 31 * 64 + cont b1)%N :: utf8_decode r
        | _ => []
        end
      else if (b <? 240)%N then
        match rest with
        | b1 :: b2 :: r =>
            (N.land b 15 * 4096 + cont b1 * 64 + cont b2)%N :: utf8_decode r
        | _ => []
        end
      else
        match rest with
        | b1 :: b2 :: b3 :: r =>
            (N.land b 7 * 262144 + cont b1 * 4096 + cont b2 * 64 + cont b3)%N
              :: utf8_decode r
        | _ => []
        end
  end.

Definition u (s : string) : str :=
  utf8_decode (map N_of_ascii (list_ascii_of_string s)).
Arguments u : simpl never.

(** [str.isspace] on one code point (the characters CPython's
    [Py_UNICODE_ISSPACE] accepts). *)
Definition isspace (c : N) : bool :=
  ((9 <=? c) && (c <=? 13) || (28 <=? c) && (c <=? 32) || (c =? 133)
   || (c =? 160) || (c =? 5760) || (8192 <=? c) && (c <=? 8202)
   || (c =? 8232) || (c =? 8233) || (c =? 8239) || (c =? 8287)
   || (c =? 12288))%N.

Fixpoint lstrip (s : str) : str :=
  match s with
  | c :: r => if isspace c then lstrip r else s
  | [] => []
  end.

Definition rstrip (s : str) : str := rev (lstrip (rev s)).

Definition strip (s : str) : str := rstrip (lstrip s).

(** Truthiness of a sequence: [if xs:]. *)
Definition truthy {A} (l : list A) : bool :=
  match l with [] => false | _ => true end.

(** A slice bound, as [PySlice_AdjustIndices] clips it for step 1. *)
Definition clip (n i : Z) : Z :=
  if i <? 0 then Z.max (i + n) 0 else Z.min i n.

(** [s[i:j]] *)
Definition slice {A} (s : list A) (i j : Z) : list A :=
  let i' := clip (len s) i in
  let j' := clip (len s) j in
  take (Z.to_nat (j' - i')) (drop (Z.to_nat i') s).

(** [s[:n]] *)
Definition prefix {A} (s : list A) (n : Z) : list A := slice s 0 n.

Fixpoint str_eqb (a b : str) : bool :=
  match a, b with
  | [], [] => true
  | x :: a', y :: b' => (x =? y)%N && str_eqb a' b'
  | _, _ => false
  end.

Fixpoint startswith (s p : str) : bool :=
  match p, s with
  | [], _ => true
  | x :: p', y :: s' => (x =? y)%N && startswith s' p'
  | _ :: _, [] => false
  end.

(** [p in s] for strings. *)
Fixpoint contains (s p : str) : bool :=
  startswith s p || match s with [] => false | _ :: s' => contains s' p end.

(** [str.lower] on the ASCII letters. *)
Definition lower (s : str) : str :=
  map (fun c => if ((65 <=? c) && (c <=? 90))%N then (c + 32)%N else c) s.

(** [sep.join(parts)] *)
Fixpoint join (sep : str) (parts : list str) : str :=
  match parts with
  | [] => []
  | [p] => p
  | p :: rest => p ++ sep ++ join sep rest
  end.

(** [list(enumerate(l))] *)
Definition enumerate {A} (l : list A) : list (nat * A) :=
  zip (seq 0 (length l)) l.

(** [list(range(a, b, -1))] *)
Definition range_down (a b : Z) : list Z :=
  map (fun k => a - Z.of_nat k) (seq 0 (Z.to_nat (a - b))).

(** [str(n)] for an integer. *)
Fixpoint digits (fuel : nat) (n : N) (acc : list N) : list N :=
  match fuel with
  | O => acc
  | S fuel' =>
      let acc' := (48 + n mod 10)%N :: acc in
      if (n <? 10)%N then acc' else digits fuel' (n / 10)%N acc'
  end.

Definition str_of_nat (n : N) : list N := digits (S (N.to_nat (N.log2 n))) n [].

Definition str_of_int (z : Z) : list N :=
  if z <? 0 then 45%N :: str_of_nat (Z.to_N (- z)) else str_of_nat (Z.to_N z).

(** ['%0*d' % (width, n)] for a non-negative [n]. *)
Definition zero_padded (width : nat) (z : Z) : list N :=
  let d := str_of_int z in
  replicate (width - length d) 48%N ++ d.

(** A literal in which the section sign stands for the double quote. *)
Definition quoted (s : list N) : list N :=
  map (fun c => if (c =? 167)%N then 34%N else c) s.

(** [int(x)] for a float: truncation towards zero. *)
Definition int_of_float (x : Q) : Z := Z.quot (Qnum x) (Zpos (Qden x)).

End Py.

Import Py.

(** ** [embedding_service.py]: limits *)

Definition _MAX_CHARS_PER_EMBEDDING : Z := 20000.
Definition _MAX_TOKENS_PER_EMBEDDING : Z := 5000.
Definition _RECOMMENDED_MAX_CHUNK_SIZE : Z := 3000.
Definition _MAX_TOKENS_PER_BATCH : Z := 18000.

(** ** [embedding_service.py]: token-aware batching *)

Definition _estimate_token_count (text : str) : Z := len text / 4 + 1.

Record batch_state := BatchState {
  batches : list (list nat);
  current_batch : list nat;
  current_tokens : Z }.

(** One round of the [for i, text in enumerate(texts)] loop. *)
Definition batch_step (max_batch_size : Z) (st : batch_state)
    (it : nat * str) : batch_state :=
  let '(i, text) := it in
  let text_tokens := _estimate_token_count text in
  if text_tokens >? _MAX_TOKENS_PER_BATCH then
    let st' :=
      if truthy (current_batch st)
      then BatchState (batches st ++ [current_batch st]) [] 0
      else st in
    BatchState (batches st' ++ [[i]]) (current_batch st') (current_tokens st')
  else
    let would_exceed_tokens :=
      current_tokens st + text_tokens >? _MAX_TOKENS_PER_BATCH in
    let would_exceed_size := len (current_batch st) >=? max_batch_size in
    if would_exceed_tokens || would_exceed_size then
      BatchState
        (if truthy (current_batch st)
         then batches st ++ [current_batch st] else batches st)
        [i] text_tokens
    else
      BatchState (batches st) (current_batch st ++ [i])
        (current_tokens st + text_tokens).

Definition _create_token_aware_batches (texts : list str)
    (max_batch_size : Z) : list (list nat) :=
  let st :=
    fold_left (batch_step max_batch_size) (enumerate texts)
      (BatchState [] [] 0) in
  if truthy (current_batch st)
  then batches st ++ [current_batch st] else batches st.

(** The estimated size of a batch: the sum of the estimates of its texts. *)
Definition batch_tokens (texts : list str) (b : list nat) : Z :=
  foldr (fun i acc => _estimate_token_count (default [] (texts !! i)) + acc) 0 b.

(** ** [embedding_service.py]: [chunk_text] *)

(** The dictionaries [chunk_text] emits. *)
Module ChunkDict.
Record t := Make {
  chunk_text : str;
  chunk_index : Z;
  chunk_type : str;
  start_char : Z;
  end_char : Z;
  token_count : Z }.
End ChunkDict.

Definition sentence_endings : list str :=
  [u ". "; u "! "; u "? "; [10; 10]; [10]]%N.

(** The inner [for ending in sentence_endings] loop at position [i]: the
    break position of the first ending found there. *)
Fixpoint first_ending (text : str) (i : Z) (endings : list str) : option Z :=
  match endings with
  | [] => None
  | ending :: rest =>
      if str_eqb (slice text i (i + len ending)) ending
      then Some (i + len ending)
      else first_ending text i rest
  end.

(** The outer [for i in range(...)] loop: it stops at the first position
    whose break differs from [end]. *)
Fixpoint scan_break (text : str) (end_ : Z) (positions : list Z)
    (best_break : Z) : Z :=
  match positions with
  | [] => best_break
  | i :: rest =>
      let best_break' :=
        match first_ending text i sentence_endings with
        | Some b => b
        | None => best_break
        end in
      if best_break' =? end_ then scan_break text end_ rest best_break'
      else best_break'
  end.

Record chunk_loop_state := ChunkLoop {
  chunks : list ChunkDict.t;
  start : Z;
  next_index : Z }.

(** One round of the [while start < len(text)] loop; the boolean tells
    whether the loop goes on (no [break] was taken). *)
Definition chunk_iter (text : str) (chunk_size chunk_overlap : Z)
    (chunk_type : str) (st : chunk_loop_state) : chunk_loop_state * bool :=
  let end0 := start st + chunk_size in
  let end_ :=
    if end0 <? len text then
      scan_break text end0
        (range_down (Z.min (end0 + 50) (len text) - 1) (end0 - 50)) end0
    else len text in
  let piece := strip (slice text (start st) end_) in
  let st1 :=
    if truthy piece then
      ChunkLoop
        (chunks st ++
           [ChunkDict.Make piece (next_index st) chunk_type (start st) end_
              (len piece / 4)])
        (start st) (next_index st + 1)
    else st in
  let start' := end_ - chunk_overlap in
  (ChunkLoop (chunks st1) start' (next_index st1),
   negb ((start' >=? len text) || (end_ =? len text))).

(** The loop, run for at most [fuel] rounds; the boolean tells whether it
    has finished. *)
Fixpoint chunk_loop (fuel : nat) (text : str) (chunk_size chunk_overlap : Z)
    (chunk_type : str) (st : chunk_loop_state) : chunk_loop_state * bool :=
  if start st <? len text then
    match fuel with
    | O => (st, false)
    | S fuel' =>
        let '(st', goes_on) :=
          chunk_iter text chunk_size chunk_overlap chunk_type st in
        if goes_on
        then chunk_loop fuel' text chunk_size chunk_overlap chunk_type st'
        else (st', true)
    end
  else (st, true).

(** [chunk_text] run for at most [fuel] rounds of its loop: the chunks
    emitted so far, and whether the function has returned. *)
Definition chunk_text_run (fuel : nat) (text : str)
    (chunk_size chunk_overlap : Z) (chunk_type : str)
    : list ChunkDict.t * bool :=
  if negb (truthy text) || negb (truthy (strip text)) then ([], true)
  else
    let chunk_size :=
      if chunk_size >? _RECOMMENDED_MAX_CHUNK_SIZE
      then _RECOMMENDED_MAX_CHUNK_SIZE else chunk_size in
    let chunk_overlap :=
      if chunk_overlap >=? chunk_size then chunk_size / 5
      else chunk_overlap in
    let text := strip text in
    let '(st, finished) :=
      chunk_loop fuel text chunk_size chunk_overlap chunk_type
        (ChunkLoop [] 0 0) in
    (chunks st, finished).

(** [chunk_text]: [None] while the loop has not finished within [fuel]
    rounds. *)
Definition chunk_text (fuel : nat) (text : str)
    (chunk_size chunk_overlap : Z) (chunk_type : str)
    : option (list ChunkDict.t) :=
  let '(cs, finished) :=
    chunk_text_run fuel text chunk_size chunk_overlap chunk_type in
  if finished then Some cs else None.

(** ** Values, exceptions and the outside world *)

(** An embedding vector. *)
Definition vector := list Q.

(** What [json.loads] returns. A JSON object keeps its members in source
    order; [dict_get] below reads the last binding of a key, as a Python
    [dict] built from them does. *)
Inductive json :=
| JNull
| JBool (b : bool)
| JInt (z : Z)
| JFloat (q : Q)
| JStr (s : str)
| JArr (items : list json)
| JObj (members : list (str * json)).

Fixpoint assoc_last (k : str) (kvs : list (str * json)) : option json :=
  match kvs with
  | [] => None
  | (k', v) :: rest =>
      match assoc_last k rest with
      | Some v' => Some v'
      | None => if str_eqb k' k then Some v else None
      end
  end.

(** [bool(v)] for a decoded JSON value. *)
Definition json_truthy (v : json) : bool :=
  match v with
  | JNull => false
  | JBool b => b
  | JInt z => negb (z =? 0)
  | JFloat q => negb (Qeq_bool q 0)
  | JStr s => truthy s
  | JArr l => truthy l
  | JObj kvs => truthy kvs
  end.

(** ** A reading of [json.loads]

    A parser for the JSON grammar as Python's decoder accepts it, apart
    from the constants [NaN] and [Infinity], which have no counterpart
    here.  A number with a fraction or an exponent is read as the exact
    rational it denotes.  It serves as the [json_loads] of the examples;
    the general properties hold for every [json_loads]. *)
Module JsonParser.

Definition is_ws (c : N) : bool :=
  ((c =? 32) || (c =? 9) || (c =? 10) || (c =? 13))%N.

Fixpoint skip_ws (s : str) : str :=
  match s with
  | c :: rest => if is_ws c then skip_ws rest else s
  | [] => []
  end.

Definition is_digit (c : N) : bool := ((48 <=? c) && (c <=? 57))%N.

Definition hex_value (c : N) : option N :=
  if is_digit c then Some (c - 48)%N
  else if ((97 <=? c) && (c <=? 102))%N then Some (c - 87)%N
  else if ((65 <=? c) && (c <=? 70))%N then Some (c - 55)%N
  else None.

Definition hex4 (s : str) : option (N * str) :=
  match s with
  | a :: b :: c :: d :: rest =>
      match hex_value a, hex_value b, hex_value c, hex_value d with
      | Some a, Some b, Some c, Some d =>
          Some ((a * 4096 + b * 256 + c * 16 + d)%N, rest)
      | _, _, _, _ => None
      end
  | _ => None
  end.

(** A [\uXXXX] escape, after the [u]: a high surrogate followed by an
    escaped low surrogate makes one code point. *)
Definition unicode_escape (s : str) : option (N * str) :=
  match hex4 s with
  | Some (hi, rest) =>
      if ((55296 <=? hi) && (hi <=? 56319))%N then
        match rest with
        | 92%N :: 117%N :: rest' =>
            match hex4 rest' with
            | Some (lo, rest'') =>
                if ((56320 <=? lo) && (lo <=? 57343))%N
                then Some ((65536 + (hi - 55296) * 1024 + (lo - 56320))%N,
                           rest'')
                else Some (hi, rest)
            | None => Some (hi, rest)
            end
        | _ => Some (hi, rest)
        end
      else Some (hi, rest)
  | None => None
  end.

(** The characters of a string, after its opening quote. *)
Fixpoint parse_string (fuel : nat) (s : str) (acc : str) : option (str * str) :=
  match fuel with
  | O => None
  | S fuel' =>
      match s with
      | [] => None
      | 34%N :: rest => Some (rev acc, rest)
      | 92%N :: e :: rest =>
          let simple c := parse_string fuel' rest (c :: acc) in
          if (e =? 34)%N then simple 34%N
          else if (e =? 92)%N then simple 92%N
          else if (e =? 47)%N then simple 47%N
          else if (e =? 98)%N then simple 8%N
          else if (e =? 102)%N then simple 12%N
          else if (e =? 110)%N then simple 10%N
          else if (e =? 114)%N then simple 13%N
          else if (e =? 116)%N then simple 9%N
          else if (e =? 117)%N then
            match unicode_escape rest with
            | Some (c, rest') => parse_string fuel' rest' (c :: acc)
            | None => None
            end
          else None
      | c :: rest =>
          if (c <? 32)%N || (c =? 92)%N then None
          else parse_string fuel' rest (c :: acc)
      end
  end.

Fixpoint take_digits (s : str) (acc : list N) : list N * str :=
  match s with
  | c :: rest => if is_digit c then take_digits rest (c :: acc) else (rev acc, s)
  | [] => (rev acc, [])
  end.

Definition digits_value (ds : list N) : Z :=
  fold_left (fun v d => v * 10 + Z.of_N (d - 48)) ds 0.

(** A number, after its optional sign. *)
Definition parse_number (negative : bool) (s : str) : option (json * str) :=
  let sign := if negative then -1 else 1 in
  let int_part :=
    match s with
    | 48%N :: rest => Some ([48%N], rest)
    | c :: _ => if is_digit c then Some (take_digits s []) else None
    | [] => None
    end in
  match int_part with
  | None => None
  | Some (ds, rest) =>
      let '(frac, rest1) :=
        match rest with
        | 46%N :: c :: _ =>
            if is_digit c then
              let '(fs, r) := take_digits (drop 1 rest) [] in (Some fs, r)
            else (None, rest)
        | _ => (None, rest)
        end in
      let '(expo, rest2) :=
        match rest1 with
        | e :: r =>
            if (e =? 101)%N || (e =? 69)%N then
              let '(esign, r') :=
                match r with
                | 43%N :: r' => (1, r')
                | 45%N :: r' => (-1, r')
                | _ => (1, r)
                end in
              match r' with
              | c :: _ =>
                  if is_digit c then
                    let '(es, r'') := take_digits r' [] in
                    (Some (esign * digits_value es), r'')
                  else (None, rest1)
              | [] => (None, rest1)
              end
            else (None, rest1)
        | [] => (None, rest1)
        end in
      match frac, expo with
      | None, None => Some (JInt (sign * digits_value ds), rest2)
      | _, _ =>
          let fs := default [] frac in
          let mantissa := sign * digits_value (ds ++ fs) in
          let e := default 0 expo - len fs in
          let q :=
            if e <? 0
            then Qmake mantissa (Z.to_pos (10 ^ (- e)))
            else inject_Z (mantissa * 10 ^ e) in
          Some (JFloat (Qred q), rest2)
      end
  end.

Fixpoint parse_value (fuel : nat) (s : str) : option (json * str) :=
  match fuel with
  | O => None
  | S fuel' =>
      match skip_ws s with
      | 123%N :: rest =>
          match skip_ws rest with
          | 125%N :: rest' => Some (JObj [], rest')
          | _ => parse_members fuel' rest []
          end
      | 91%N :: rest =>
          match skip_ws rest with
          | 93%N :: rest' => Some (JArr [], rest')
          | _ => parse_elements fuel' rest []
          end
      | 34%N :: rest =>
          match parse_string (S (length rest)) rest [] with
          | Some (str, rest') => Some (JStr str, rest')
          | None => None
          end
      | 45%N :: rest => parse_number true rest
      | c :: rest =>
          if is_digit c then parse_number false (c :: rest)
          else if startswith (c :: rest) (u "true")
          then Some (JBool true, drop 3 rest)
          else if startswith (c :: rest) (u "false")
          then Some (JBool false, drop 4 rest)
          else if startswith (c :: rest) (u "null")
          then Some (JNull, drop 3 rest)
          else None
      | [] => None
      end
  end
with parse_elements (fuel : nat) (s : str) (acc : list json)
    : option (json * str) :=
  match fuel with
  | O => None
  | S fuel' =>
      match parse_value fuel' s with
      | Some (v, rest) =>
          match skip_ws rest with
          | 44%N :: rest' => parse_elements fuel' rest' (v :: acc)
          | 93%N :: rest' => Some (JArr (rev (v :: acc)), rest')
          | _ => None
          end
      | None => None
      end
  end
with parse_members (fuel : nat) (s : str) (acc : list (str * json))
    : option (json * str) :=
  match fuel with
  | O => None
  | S fuel' =>
      match skip_ws s with
      | 34%N :: rest =>
          match parse_string (S (length rest)) rest [] with
          | Some (key, rest1) =>
              match skip_ws rest1 with
              | 58%N :: rest2 =>
                  match parse_value fuel' rest2 with
                  | Some (v, rest3) =>
                      match skip_ws rest3 with
                      | 44%N :: rest4 =>
                          parse_members fuel' rest4 ((key, v) :: acc)
                      | 125%N :: rest4 =>
                          Some (JObj (rev ((key, v) :: acc)), rest4)
                      | _ => None
                      end
                  | None => None
                  end
              | _ => None
              end
          | None => None
          end
      | _ => None
      end
  end.

Definition loads (s : str) : option json :=
  match parse_value (2 * length s + 2) s with
  | Some (v, rest) =>
      match skip_ws rest with
      | [] => Some v
      | _ => None
      end
  | None => None
  end.

End JsonParser.

Inductive exn_class :=
| ClientError
| ValueError
| TypeError
| AttributeError
| OverflowError
| IndexError
| IntegrityError
| OtherError.

(** A raised exception: its class, its [status_code] attribute when it has
    one, and [str(exc)]. *)
Record exn := Exn {
  exn_class_of : exn_class;
  status_code : option Z;
  exn_str : str }.

Inductive result (A : Type) :=
| Ok (a : A)
| Raise (e : exn).
Arguments Ok {A} a.
Arguments Raise {A} e.

(** The [contents] argument of [embed_content]: one text, or a list. *)
Inductive contents :=
| Single (text : str)
| Batch (texts : list str).

(** The response of [embed_content], as [_extract_embeddings] reads it:
    [None] stands for a response that is falsy or has no [embeddings];
    each entry is the [values] attribute of one embedding. *)
Definition embed_response := option (list (option vector)).

(** A naive [datetime]. *)
Record datetime := DateTime {
  year : Z; month : Z; day : Z;
  hour : Z; minute : Z; second : Z; microsecond : Z }.

(** Calls that leave the process, and transaction boundaries, in the order
    they happen. *)
Inductive event :=
| EvEmbed (c : contents) (task_type : str)
| EvClassify (model : str) (parts : list str)
| EvGenerate (model : str) (parts : list str)
| EvSummarize (model : str) (parts : list str)
| EvCommit
| EvRollback.

(** The world outside the process. Every operation may depend on, and
    change, the state [Ext]. *)
Class External (Ext : Type) := {
  (** [client.models.embed_content(...)] of the embedding client *)
  embed_content : contents -> str -> Ext -> result embed_response * Ext;
  (** [client.models.generate_content(...).text], for a model name and the
      texts of the content parts; the text may be [None] *)
  generate_content : str -> list str -> Ext -> result (option str) * Ext;
  (** [time.time()] *)
  time_time : Ext -> Q * Ext;
  (** [datetime.now(timezone.utc)] *)
  datetime_now : Ext -> datetime * Ext;
  (** [str(uuid.uuid4())] *)
  uuid4 : Ext -> str * Ext;
  (** whether the next database round trip fails, and with what *)
  db_fault : Ext -> option exn * Ext;
  (** [time.sleep(sleep_time)] of the back-off: whether it raises (it does
      for a duration the clock cannot take), and with what *)
  time_sleep : Ext -> option exn * Ext }.

(** Library functions the services call, left uninterpreted. *)
Class Library := {
  (** [json.loads] on a string: [None] when it raises *)
  json_loads : str -> option json;
  (** [float(s)] on a string: [None] when it raises [ValueError] *)
  float_of_str : str -> option Q;
  (** [datetime.fromisoformat] on a string: [None] on [ValueError] *)
  fromisoformat : str -> option datetime;
  (** PostgreSQL's [text ILIKE pattern] *)
  ilike : str -> str -> bool;
  (** pgvector's [cosine_distance] *)
  cosine_distance : vector -> vector -> Q;
  (** [json.dumps(v, ensure_ascii=False)] *)
  json_dumps : json -> str }.

(** The environment, as the modules read it at import time. *)
Class Settings := {
  env_EMBEDDING_BATCH_SIZE : Z;
  env_EMBEDDING_MAX_RETRIES : Z;
  CHATBOT_INTENT_MODEL : str;
  CHATBOT_RESPONSE_MODEL : str }.

(** ** The tables ([app/models]) *)

(** Only the columns the modelled services read or write are kept. *)

Module AudioFile.
Record t := Make {
  id : Z;
  user_id : Z;
  original_filename : str;
  duration : option Q;
  transcription : option str;
  created_at : option datetime }.
End AudioFile.

Module Note.
Record t := Make {
  id : Z;
  user_id : Z;
  audio_file_id : option Z;
  title : str;
  content : option str;
  summary : option str;
  category : option str;
  tags : option str;
  is_archived : bool;
  created_at : option datetime }.
End Note.

Module NoteChunk.
Record t := Make {
  id : Z;
  note_id : Z;
  chunk_text : str;
  chunk_index : Z;
  chunk_type : str;
  embedding : option vector;
  start_char : option Z;
  end_char : option Z;
  token_count : option Z }.
End NoteChunk.

Module ChatbotSession.
Record t := Make {
  session_id : str;
  user_id : Z;
  title : option str;
  total_messages : option Z;
  is_active : bool }.
End ChatbotSession.

Module ChatbotMessage.
Record t := Make {
  message_id : str;
  session_id : str;
  role : str;
  content : option str;
  intent : option str;
  entities : option json;
  retrieved_chunks : option (list Z);
  retrieved_audio_ids : option (list Z);
  retrieved_note_ids : option (list Z);
  response_time_ms : option Z;
  confidence_score : option Q;
  created_at : datetime }.
End ChatbotMessage.

Record Store := MkStore {
  audio_files : list AudioFile.t;
  notes : list Note.t;
  note_chunks : list NoteChunk.t;
  chatbot_sessions : list ChatbotSession.t;
  chatbot_messages : list ChatbotMessage.t }.

(** A SQLAlchemy [Session] on its database: the committed rows, the rows as
    the open transaction sees them, and the primary-key sequences. *)
Record Db := MkDb {
  committed : Store;
  pending : Store;
  note_seq : Z;
  chunk_seq : Z }.

Record World (Ext : Type) := MkWorld {
  ext : Ext;
  db : Db;
  log : list event }.
Arguments MkWorld {Ext} ext db log.
Arguments ext {Ext} w.
Arguments db {Ext} w.
Arguments log {Ext} w.

(** ** The state and exception monad *)

Definition M (Ext A : Type) : Type := World Ext -> result A * World Ext.

Definition ret {Ext A} (a : A) : M Ext A := fun w => (Ok a, w).

Definition raise {Ext A} (e : exn) : M Ext A := fun w => (Raise e, w).

Definition bind {Ext A B} (m : M Ext A) (k : A -> M Ext B) : M Ext B :=
  fun w =>
    match m w with
    | (Ok a, w') => k a w'
    | (Raise e, w') => (Raise e, w')
    end.

(** [try: body  except Exception as e: handler(e)] *)
Definition try_except {Ext A} (body : M Ext A) (handler : exn -> M Ext A)
    : M Ext A :=
  fun w =>
    match body w with
    | (Ok a, w') => (Ok a, w')
    | (Raise e, w') => handler e w'
    end.

#[global] Instance M_ret {Ext} : MRet (M Ext) := @ret Ext.
#[global] Instance M_bind {Ext} : MBind (M Ext) :=
  fun A B k m => bind m k.

(** Pure code that may raise runs in [result]. *)
Definition result_bind {A B} (r : result A) (k : A -> result B) : result B :=
  match r with
  | Ok a => k a
  | Raise e => Raise e
  end.

#[global] Instance result_mbind : MBind result :=
  fun A B k r => result_bind r k.

(** A value that may be an exception, lifted into the monad. *)
Definition lift {Ext A} (r : result A) : M Ext A :=
  match r with
  | Ok a => ret a
  | Raise e => raise e
  end.

(** A [for] loop with an accumulator. *)
Fixpoint for_each {Ext A S} (body : S -> A -> M Ext S) (items : list A)
    (s : S) : M Ext S :=
  match items with
  | [] => ret s
  | x :: rest => bind (body s x) (for_each body rest)
  end.

(** A computation that never raises. *)
Definition total {Ext A} (m : M Ext A) : Prop :=
  forall w, exists a w', m w = (Ok a, w').

Definition mk_exn (c : exn_class) (msg : string) : exn := Exn c None (u msg).

(** ** String constants of [intent_service.py] *)

Definition INTENT_SYSTEM_PROMPT : str :=
  Eval vm_compute in quoted (u "Bạn là hệ thống phân loại ý định cho ứng dụng ghi âm và ghi chú.

Các ý định hợp lệ:
- search: tìm kiếm bản ghi âm, transcript, ghi chú
- summarize: yêu cầu tóm tắt nội dung
- question: hỏi chi tiết về nội dung đã ghi âm
- manage: thao tác quản lý (xóa, lưu trữ, phân loại)
- analytics: thống kê/insight
- chat: trò chuyện chung hoặc không rõ ý định

Trích xuất thực thể khi phù hợp:
- date_range: khoảng thời gian
- keywords: từ khóa quan trọng
- categories: meeting, lecture, personal, ...
- audio_ids: ID file cụ thể
- actions: delete, archive, categorize, ...
- person_names: tên người

CHỈ trả về JSON hợp lệ theo đúng định dạng sau:
{
  §intent§: §search|summarize|question|manage|analytics|chat§,
  §confidence§: 0.0-1.0,
  §entities§: {
    §date_range§: {§start§: §YYYY-MM-DD§, §end§: §YYYY-MM-DD§},
    §keywords§: [§keyword1§, §keyword2§],
    §categories§: [§meeting§],
    §audio_ids§: [123],
    §actions§: [§delete§, §archive§],
    §person_names§: [§John§]
  }
}
").

Definition intent_prompt_message : str :=
  Eval vm_compute in u "Tin nhắn: ".

Definition intent_prompt_context : str :=
  Eval vm_compute in u "

Ngữ cảnh gần đây:
".

Definition intent_prompt_ask : str :=
  Eval vm_compute in u "

Hãy phân loại ý định và trích xuất thực thể theo JSON.".

Definition intent_no_context : str :=
  Eval vm_compute in u "Không có".

(** ** String constants of [chatbot_service.py] *)

Definition search_none_text : str :=
  Eval vm_compute in u "Mình chưa tìm thấy bản ghi âm phù hợp với yêu cầu của bạn.".

Definition search_one_prefix : str :=
  Eval vm_compute in u "Mình tìm thấy 1 bản ghi âm: ".

Definition search_many_prefix : str :=
  Eval vm_compute in u "Mình tìm thấy ".

Definition search_many_suffix : str :=
  Eval vm_compute in u " bản ghi âm phù hợp.".

Definition search_suggestions : list str :=
  Eval vm_compute in [u "Bạn có muốn tóm tắt các bản ghi này không?";
    u "Cho mình xem bản gần nhất."].

Definition summarize_no_context_text : str :=
  Eval vm_compute in u "Mình chưa tìm thấy dữ liệu liên quan để tóm tắt. Bạn có thể nói rõ hơn không?".

Definition summarize_no_context_suggestions : list str :=
  Eval vm_compute in [u "Tóm tắt cuộc họp hôm qua";
    u "Tóm tắt bản ghi âm gần nhất"].

Definition summarize_system_prompt : str :=
  Eval vm_compute in u "Bạn là trợ lý cho ứng dụng ghi âm. Hãy tóm tắt ngắn gọn, rõ ràng bằng tiếng Việt dựa trên ngữ cảnh được cung cấp. Nêu ý chính, quyết định và action items nếu có.".

Definition summarize_prompt_context : str :=
  Eval vm_compute in u "Ngữ cảnh từ bản ghi:
".

Definition summarize_prompt_request : str :=
  Eval vm_compute in u "

Yêu cầu của người dùng: ".

Definition summarize_prompt_ask : str :=
  Eval vm_compute in u "

Hãy tóm tắt đầy đủ.".

Definition summarize_fallback : str :=
  Eval vm_compute in u "Mình gặp lỗi khi tạo tóm tắt. Bạn vui lòng thử lại nhé.".

Definition summarize_suggestions : list str :=
  Eval vm_compute in [u "Bạn có thể liệt kê action items không?";
    u "Những quyết định quan trọng là gì?"].

Definition question_no_context_text : str :=
  Eval vm_compute in u "Mình không tìm thấy thông tin trong dữ liệu của bạn. Bạn có thể nói rõ hơn không?".

Definition question_no_context_suggestions : list str :=
  Eval vm_compute in [u "Tìm bản ghi âm về ngân sách";
    u "Bạn có bản ghi nào về cuộc họp gần đây không?"].

Definition question_system_prompt : str :=
  Eval vm_compute in u "Bạn là trợ lý cho ứng dụng ghi âm. Chỉ trả lời dựa trên ngữ cảnh được cung cấp. Nếu không có thông tin, hãy nói rõ. Trả lời bằng tiếng Việt.".

Definition question_prompt_context : str :=
  Eval vm_compute in u "Ngữ cảnh từ bản ghi:
".

Definition question_prompt_request : str :=
  Eval vm_compute in u "

Câu hỏi: ".

Definition question_prompt_ask : str :=
  Eval vm_compute in u "

Trả lời ngắn gọn và chính xác.".

Definition question_fallback : str :=
  Eval vm_compute in u "Mình gặp lỗi khi trả lời. Bạn thử hỏi lại theo cách khác nhé.".

Definition question_suggestions : list str :=
  Eval vm_compute in [u "Có bản ghi nào liên quan khác không?";
    u "Bạn có thể trích dẫn thêm chi tiết không?"].

Definition manage_delete_text : str :=
  Eval vm_compute in u "Mình có thể hỗ trợ xóa bản ghi âm. Bạn xác nhận muốn xóa bản nào?".

Definition manage_archive_text : str :=
  Eval vm_compute in u "Mình có thể lưu trữ bản ghi âm. Bạn muốn lưu trữ bản nào?".

Definition manage_other_text : str :=
  Eval vm_compute in u "Bạn muốn mình giúp quản lý bản ghi âm như thế nào?".

Definition manage_suggestions : list str :=
  Eval vm_compute in [u "Xóa các bản ghi âm cũ hơn 30 ngày";
    u "Lưu trữ các bản ghi cuộc họp tháng trước"].

Definition analytics_no_context_text : str :=
  Eval vm_compute in u "Mình cần thêm dữ liệu để tạo thống kê. Bạn có thể chỉ rõ phạm vi thời gian không?".

Definition analytics_no_context_suggestions : list str :=
  Eval vm_compute in [u "Thống kê số cuộc họp trong tháng này";
    u "Chủ đề phổ biến trong tuần này"].

Definition analytics_system_prompt : str :=
  Eval vm_compute in u "Bạn là trợ lý phân tích cho ứng dụng ghi âm. Từ ngữ cảnh, hãy đưa ra thống kê hoặc insight bằng tiếng Việt.".

Definition analytics_prompt_context : str :=
  Eval vm_compute in u "Ngữ cảnh:
".

Definition analytics_prompt_request : str :=
  Eval vm_compute in u "

Yêu cầu: ".

Definition analytics_prompt_ask : str :=
  Eval vm_compute in u "

Hãy trả lời ngắn gọn, dễ hiểu.".

Definition analytics_fallback : str :=
  Eval vm_compute in u "Mình chưa thể tạo thống kê lúc này. Bạn thử lại sau nhé.".

Definition analytics_suggestions : list str :=
  Eval vm_compute in [u "Có xu hướng nào nổi bật không?";
    u "So sánh với tháng trước giúp mình"].

Definition chat_system_prompt : str :=
  Eval vm_compute in u "Bạn là trợ lý thân thiện cho ứng dụng ghi âm và ghi chú. Trả lời bằng tiếng Việt và hướng người dùng tới các tính năng hữu ích.".

Definition chat_fallback : str :=
  Eval vm_compute in u "Mình ở đây để giúp bạn tìm và tóm tắt các bản ghi âm. Bạn muốn bắt đầu với yêu cầu nào?".

Definition chat_suggestions : list str :=
  Eval vm_compute in [u "Tìm các cuộc họp gần đây";
    u "Tóm tắt bản ghi hôm nay";
    u "Tôi đã nói về những chủ đề gì tuần này?"].

(** ** String constants of [rag_context_service.py] *)

Definition block_source : str :=
  Eval vm_compute in u "---
Nguồn: ".

Definition block_audio : str :=
  Eval vm_compute in u "
Audio: ".

Definition block_date : str :=
  Eval vm_compute in u "
Ngày: ".

Definition block_content : str :=
  Eval vm_compute in u "
Nội dung: ".

Definition block_end : str :=
  Eval vm_compute in u "
---
".

(** ** String constants of [common/constants.py] *)

Definition SUMMARY_SYSTEM_PROMPT : str :=
  Eval vm_compute in quoted (u "Bạn là Trợ lý Tóm tắt Chuyên nghiệp. Nhiệm vụ của bạn là tạo bản tóm tắt dưới dạng JSON (Quill Delta format) để hiển thị trực tiếp trên trình soạn thảo Rich Text.

    ## NGUYÊN TẮC CỐT LÕI

    1. **Hiểu sâu nội dung**: Xác định mục đích chính, thông điệp và cấu trúc lập luận.
    2. **Lọc thông tin**: Phân biệt ý chính/phụ. Chỉ giữ số liệu thiết yếu. Loại bỏ tin lặp.
    3. **Viết súc tích**: Mỗi câu phải mang thông tin giá trị.
    4. **Giữ khách quan**: Trung lập, không thêm ý kiến cá nhân.
    5. **Đảm bảo chính xác**: Không xuyên tạc hoặc thêm thông tin ngoài văn bản gốc.
    6. **Tạo tính mạch lạc**: Sắp xếp logic, dễ hiểu.

    ## QUY TRÌNH

    A. Đọc khảo sát & Nắm ý.
    B. Đánh dấu ý chính & Lọc bỏ chi tiết thừa.
    C. Sắp xếp & Gom nhóm ý.
    D. Viết nháp theo định dạng JSON Delta.
    E. Kiểm tra lại tính hợp lệ của JSON và nội dung.

    ## ĐỊNH DẠNG ĐẦU RA: JSON (QUILL DELTA)

    Bạn **BẮT BUỘC** phải trả về một mảng JSON (JSON Array) hợp lệ, tuân thủ cấu trúc Delta của Quill. Không bao bọc bởi markdown block (```json). Chỉ trả về raw string.

    **Cấu trúc một Operation:**
    `{ §insert§: §Nội dung văn bản\n§, §attributes§: { §key§: value } }`

    **Quy tắc Attributes (Định dạng):**
    - **Tiêu đề lớn (Section):** `{§header§: 2}` (Tương đương h2)
    - **Tiêu đề nhỏ:** `{§header§: 3}` (Tương đương h3)
    - **In đậm (Ý quan trọng):** `{§bold§: true}`
    - **In nghiêng (Thuật ngữ):** `{§italic§: true}`
    - **Danh sách (Bullet points):** Áp dụng `{§list§: §bullet§}` cho ký tự xuống dòng `\n` ngay sau nội dung.
    - **Trích dẫn:** Áp dụng `{§blockquote§: true}` cho ký tự xuống dòng `\n`.

    **Lưu ý quan trọng về cú pháp JSON Delta:**
    1. Mỗi đoạn văn hoặc tiêu đề phải kết thúc bằng `\n`.
    2. Thuộc tính Block (header, list, blockquote) phải được gắn vào ký tự `\n` (một object riêng chứa `insert: §\n§`).
    3. Thuộc tính Inline (bold, italic) gắn trực tiếp vào text.

    **Ví dụ mẫu cấu trúc mong muốn:**
    [
    {§insert§: §Tiêu đề Tóm tắt\n§, §attributes§: {§header§: 2}},
    {§insert§: §Đây là câu giới thiệu tổng quan.\n§},
    {§insert§: §Luận điểm chính 1§},
    {§insert§: §\n§, §attributes§: {§list§: §bullet§}},
    {§insert§: §Luận điểm chính 2§},
    {§insert§: §\n§, §attributes§: {§list§: §bullet§}}
    ]

    ## RÀNG BUỘC TUYỆT ĐỐI

    ✗ KHÔNG trả về định dạng Markdown (**, ##) hay HTML (<b>, <p>).
    ✗ KHÔNG giải thích, chỉ trả về JSON thuần.
    ✗ Đảm bảo JSON valid tuyệt đối (escape kỹ các ký tự đặc biệt như ngoặc kép).
    ✗ Văn bản trong `insert` phải là tiếng Việt (trừ thuật ngữ chuyên ngành).
    ").

Definition summary_user_prompt_before : str :=
  Eval vm_compute in u "Tóm tắt văn bản sau thành cấu trúc JSON (Quill Delta) theo hướng dẫn trong System Prompt.

    ## CẤU HÌNH MONG MUỐN

    **Độc giả mục tiêu**: [mặc định: đại chúng có hiểu biết cơ bản]
    **Phong cách trình bày**: [paragraph (đoạn văn) / bullet (gạch đầu dòng)]
    **Độ dài mục tiêu**: [~50{%} bản gốc]
    **Ngôn ngữ**: [vi / en / ...]
    **Số ý chính tối đa**: [mặc định: 5] _(chỉ áp dụng nếu chọn bullet)_
    **Giữ số liệu cụ thể**: [có / không - mặc định: có]
    **Thêm từ khóa**: [có / không - mặc định: không] _(Nếu có, tạo section riêng ở cuối)_
    **Thêm trích dẫn nổi bật**: [có / không - mặc định: không] _(Nếu có, dùng attribute blockquote)_

    ---

    ## VĂN BẢN GỐC

    ".

Definition summary_user_prompt_after : str :=
  Eval vm_compute in quoted (u "

    ---

    ## YÊU CẦU ĐẦU RA (NGHIÊM NGẶT)

    1. Trả về **duy nhất** một JSON Array hợp lệ (bắt đầu bằng `[` và kết thúc bằng `]`).
    2. **KHÔNG** sử dụng Markdown code block (như ```json ... ```). Chỉ trả về Raw String.
    3. **KHÔNG** thêm bất kỳ lời dẫn hay giải thích nào bên ngoài mảng JSON.
    4. Đảm bảo mọi chuỗi ký tự trong JSON được escape đúng quy chuẩn (đặc biệt là dấu ngoặc kép `§` và ký tự xuống dòng `\n`).
").

(** [l[i]] and [l[i] = v] on a list, with their [IndexError]. *)
Definition getitem {A} (l : list A) (i : nat) : result A :=
  match l !! i with
  | Some x => Ok x
  | None => Raise (mk_exn IndexError "list index out of range")
  end.

Definition setitem {A} (l : list A) (i : nat) (v : A) : result (list A) :=
  if (i <? length l)%nat then Ok (<[i := v]> l)
  else Raise (mk_exn IndexError "list assignment index out of range").

(** [[l[i] for i in indices]] *)
Fixpoint getitems {A} (l : list A) (indices : list nat) : result (list A) :=
  match indices with
  | [] => Ok []
  | i :: rest =>
      match getitem l i with
      | Raise e => Raise e
      | Ok x =>
          match getitems l rest with
          | Raise e => Raise e
          | Ok xs => Ok (x :: xs)
          end
      end
  end.

(** ** Arguments of [note_service.py] *)

(** The [note_data] dictionary of [create_note]. *)
Module NoteData.
Record t := Make {
  audio_file_id : option Z;
  title : str;
  content : option str;
  summary : option str;
  category : option str;
  tags : option str;
  is_archived : bool }.
End NoteData.

(** The [update_data] dictionary of [update_note]; an absent key and a
    [None] value are both [None]. *)
Module NoteUpdate.
Record t := Make {
  title : option str;
  content : option str;
  summary : option str;
  category : option str;
  tags : option str;
  is_archived : option bool }.
End NoteUpdate.

Section Services.
Context {Ext : Type} `{External Ext} `{Library} `{Settings}.

(** ** Access to the outside world, logged *)

Definition call_embed (c : contents) (task_type : str)
    : M Ext embed_response :=
  fun w =>
    let '(r, e) := embed_content c task_type (ext w) in
    (r, MkWorld e (db w) (log w ++ [EvEmbed c task_type])).

Definition call_generate (ev : str -> list str -> event) (model : str)
    (parts : list str) : M Ext (option str) :=
  fun w =>
    let '(r, e) := generate_content model parts (ext w) in
    (r, MkWorld e (db w) (log w ++ [ev model parts])).

(** The outcome of a computation as a value: the body of a [try]. *)
Definition attempt {A} (m : M Ext A) : M Ext (result A) :=
  fun w => let '(r, w') := m w in (Ok r, w').

(** ** [embedding_service.py]: the gateway *)

Definition _EMBEDDING_BATCH_SIZE : Z := Z.max 1 env_EMBEDDING_BATCH_SIZE.
Definition _EMBEDDING_MAX_RETRIES : Z := Z.max 0 env_EMBEDDING_MAX_RETRIES.

Definition _is_retryable_error (exc : exn) : bool :=
  match exn_class_of exc, status_code exc with
  | ClientError, Some 429 => true
  | _, _ =>
      let text := lower (exn_str exc) in
      contains text (u "429") || contains text (u "resource_exhausted")
      || contains text (u "quota")
  end.

(** [_get_backoff_seconds(attempt)]. The duration is a float that only
    the sleep and the log read, and it is not computed here; but
    [_EMBEDDING_BACKOFF_BASE_SECONDS * (2 ** attempt)] converts the power
    to a float, which raises [OverflowError] from attempt 1024 on. *)
Definition _get_backoff_seconds (attempt : nat) : result unit :=
  if (1024 <=? attempt)%nat
  then Raise (mk_exn OverflowError "int too large to convert to float")
  else Ok tt.

(** [time.sleep(sleep_time)] *)
Definition backoff_sleep : M Ext unit :=
  fun w =>
    let '(fault, e) := time_sleep (ext w) in
    (match fault with
     | Some exc => Raise exc
     | None => Ok tt
     end,
     MkWorld e (db w) (log w)).

(** The [for attempt in range(_EMBEDDING_MAX_RETRIES + 1)] loop. The rate
    limiter only delays a call and is left out. The back-off runs in the
    [except] block, so what it raises leaves the loop. A loop that runs
    out returns [None]. *)
Fixpoint retry_loop (c : contents) (task_type : str) (attempts : list nat)
    : M Ext embed_response :=
  match attempts with
  | [] => mret None
  | attempt :: rest =>
      try_except (call_embed c task_type)
        (fun exc =>
           if negb (_is_retryable_error exc)
              || (Z.of_nat attempt >=? _EMBEDDING_MAX_RETRIES)
           then raise exc
           else
             lift (_get_backoff_seconds attempt);;
             backoff_sleep;;
             retry_loop c task_type rest)
  end.

Definition _embed_content_with_retry (c : contents) (task_type : str)
    : M Ext embed_response :=
  retry_loop c task_type (seq 0 (Z.to_nat (_EMBEDDING_MAX_RETRIES + 1))).

Definition _extract_embeddings (response : embed_response)
    : list (option vector) :=
  match response with
  | Some embeddings => embeddings
  | None => []
  end.

Definition generate_embedding (text : str) (task_type : str)
    : M Ext (option vector) :=
  if negb (truthy text) || negb (truthy (strip text)) then mret None
  else
    let text :=
      if len text >? _MAX_CHARS_PER_EMBEDDING
      then prefix text _MAX_CHARS_PER_EMBEDDING else text in
    try_except
      (response ← _embed_content_with_retry (Single text) task_type;
       match _extract_embeddings response with
       | Some embedding :: _ => mret (Some embedding)
       | _ => mret None
       end)
      (fun _ => mret None).

(** The response of a batch, padded with [None] or cut to [n] entries. *)
Definition fit_response (batch_embeddings : list (option vector)) (n : nat)
    : list (option vector) :=
  if (length batch_embeddings =? n)%nat then batch_embeddings
  else if (length batch_embeddings <? n)%nat
  then batch_embeddings ++ replicate (n - length batch_embeddings) None
  else take n batch_embeddings.

(** [for i, embedding in enumerate(batch_embeddings):
       embeddings[batch_indices[i]] = embedding]
    on the mutable list [embeddings]: the list as the loop leaves it, and
    the exception that stopped it, if any. *)
Fixpoint store_all (batch_indices : list nat)
    (items : list (nat * option vector)) (embeddings : list (option vector))
    : list (option vector) * option exn :=
  match items with
  | [] => (embeddings, None)
  | (i, embedding) :: rest =>
      match getitem batch_indices i with
      | Raise e => (embeddings, Some e)
      | Ok idx =>
          match setitem embeddings idx embedding with
          | Raise e => (embeddings, Some e)
          | Ok embeddings' => store_all batch_indices rest embeddings'
          end
      end
  end.

(** The [except] branch of a batch: one [generate_embedding] per text. *)
Definition embed_fallback (batch_indices : list nat) (batch_texts : list str)
    (task_type : str) (embeddings : list (option vector))
    : M Ext (list (option vector)) :=
  for_each
    (fun embeddings '(idx, text) =>
       v ← generate_embedding text task_type;
       lift (setitem embeddings idx v))
    (zip batch_indices batch_texts) embeddings.

(** One round of the [for batch_idx, batch_indices in enumerate(batches)]
    loop. *)
Definition embed_batch (texts : list str) (task_type : str)
    (embeddings : list (option vector)) (batch_indices : list nat)
    : M Ext (list (option vector)) :=
  batch_texts ← lift (getitems texts batch_indices);
  if (length batch_texts =? 1)%nat then
    text ← lift (getitem batch_texts 0);
    v ← generate_embedding text task_type;
    idx ← lift (getitem batch_indices 0);
    lift (setitem embeddings idx v)
  else
    r ← attempt (_embed_content_with_retry (Batch batch_texts) task_type);
    match r with
    | Ok response =>
        let batch_embeddings :=
          fit_response (_extract_embeddings response) (length batch_texts) in
        match store_all batch_indices (enumerate batch_embeddings) embeddings
        with
        | (embeddings', None) => mret embeddings'
        | (embeddings', Some _) =>
            embed_fallback batch_indices batch_texts task_type embeddings'
        end
    | Raise _ =>
        embed_fallback batch_indices batch_texts task_type embeddings
    end.

Definition generate_embeddings_batch (texts : list str) (task_type : str)
    : M Ext (list (option vector)) :=
  if negb (truthy texts) then mret []
  else
    let embeddings := replicate (length texts) None in
    let batches := _create_token_aware_batches texts _EMBEDDING_BATCH_SIZE in
    for_each (embed_batch texts task_type) batches embeddings.

Definition generate_query_embedding (query : str) : M Ext (option vector) :=
  generate_embedding query (u "RETRIEVAL_QUERY").

(** A chunk dictionary with its ["embedding"] key. *)
Record embedded_chunk := Embedded {
  draft : ChunkDict.t;
  embedding : option vector }.

Definition generate_chunk_embeddings (chunks : list ChunkDict.t)
    : M Ext (list embedded_chunk) :=
  if negb (truthy chunks) then mret []
  else
    let texts := map ChunkDict.chunk_text chunks in
    embeddings ← generate_embeddings_batch texts (u "RETRIEVAL_DOCUMENT");
    mret (map (fun '(i, chunk) => Embedded chunk (mjoin (embeddings !! i)))
            (enumerate chunks)).

(** ** The database session *)

Definition get_db : M Ext Db := fun w => (Ok (db w), w).

Definition put_db (d : Db) : M Ext unit :=
  fun w => (Ok tt, MkWorld (ext w) d (log w)).

Definition emit (e : event) : M Ext unit :=
  fun w => (Ok tt, MkWorld (ext w) (db w) (log w ++ [e])).

Definition ask {A} (f : Ext -> A * Ext) : M Ext A :=
  fun w => let '(a, e) := f (ext w) in (Ok a, MkWorld e (db w) (log w)).

(** One round trip to the database, which may fail. *)
Definition db_roundtrip : M Ext unit :=
  fault ← ask db_fault;
  match fault with
  | Some e => raise e
  | None => mret tt
  end.

(** The rows a query sees: those of the open transaction. *)
Definition query : M Ext Store :=
  db_roundtrip;; d ← get_db; mret (pending d).

Definition update_pending (f : Store -> Store) : M Ext unit :=
  d ← get_db;
  put_db (MkDb (committed d) (f (pending d)) (note_seq d) (chunk_seq d)).

(** The [NOT NULL] columns a flush checks. *)
Definition constraints_ok (s : Store) : bool :=
  forallb (fun c => bool_decide (is_Some (NoteChunk.embedding c)))
    (note_chunks s)
  && forallb (fun m => bool_decide (is_Some (ChatbotMessage.content m)))
       (chatbot_messages s).

(** [db.commit()]: all pending changes become durable, or none. *)
Definition db_commit : M Ext unit :=
  db_roundtrip;;
  d ← get_db;
  if constraints_ok (pending d) then
    put_db (MkDb (pending d) (pending d) (note_seq d) (chunk_seq d));;
    emit EvCommit
  else raise (mk_exn IntegrityError "null value violates not-null constraint").

(** [db.rollback()] *)
Definition db_rollback : M Ext unit :=
  d ← get_db;
  put_db (MkDb (committed d) (committed d) (note_seq d) (chunk_seq d));;
  emit EvRollback.

(** [db.add(NoteChunk(...))]; the primary key comes from its sequence. *)
Definition add_note_chunk (mk : Z -> NoteChunk.t) : M Ext unit :=
  d ← get_db;
  let s := pending d in
  put_db
    (MkDb (committed d)
       (MkStore (audio_files s) (notes s)
          (note_chunks s ++ [mk (chunk_seq d)])
          (chatbot_sessions s) (chatbot_messages s))
       (note_seq d) (chunk_seq d + 1)).

(** [db.add(note); db.flush()] *)
Definition add_note (mk : Z -> Note.t) : M Ext Note.t :=
  db_roundtrip;;
  d ← get_db;
  let s := pending d in
  let note := mk (note_seq d) in
  put_db
    (MkDb (committed d)
       (MkStore (audio_files s) (notes s ++ [note]) (note_chunks s)
          (chatbot_sessions s) (chatbot_messages s))
       (note_seq d + 1) (chunk_seq d));;
  mret note.

(** [db.add(ChatbotMessage(...))]; [created_at] takes its default. *)
Definition add_message (mk : datetime -> ChatbotMessage.t) : M Ext ChatbotMessage.t :=
  now ← ask datetime_now;
  let msg := mk now in
  update_pending
    (fun s =>
       MkStore (audio_files s) (notes s) (note_chunks s)
         (chatbot_sessions s) (chatbot_messages s ++ [msg]));;
  mret msg.

(** An attribute assignment on the session object of id [session_id]. *)
Definition update_session (session_id : str)
    (f : ChatbotSession.t -> ChatbotSession.t) : M Ext unit :=
  update_pending
    (fun s =>
       MkStore (audio_files s) (notes s) (note_chunks s)
         (map (fun row =>
                 if str_eqb (ChatbotSession.session_id row) session_id
                 then f row else row)
            (chatbot_sessions s))
         (chatbot_messages s)).

(** The relationships [chunk.note] and [note.audio_file]. *)
Definition note_of (s : Store) (chunk : NoteChunk.t) : option Note.t :=
  find (fun n => Note.id n =? NoteChunk.note_id chunk) (notes s).

Definition audio_file_of (s : Store) (note : Note.t) : option AudioFile.t :=
  match Note.audio_file_id note with
  | Some a => find (fun f => AudioFile.id f =? a) (audio_files s)
  | None => None
  end.

(** ** [intent_service.py] *)

(** [re.search(r"\{.*\}", text, re.DOTALL)]: from the first opening brace
    to the last closing brace after it. *)
Fixpoint from_first_open (s : str) : option str :=
  match s with
  | [] => None
  | c :: rest => if (c =? 123)%N then Some rest else from_first_open rest
  end.

Fixpoint upto_last_close (s : str) : option str :=
  match s with
  | [] => None
  | c :: rest =>
      match upto_last_close rest with
      | Some p => Some (c :: p)
      | None => if (c =? 125)%N then Some [c] else None
      end
  end.

Definition search_braces (text : str) : option str :=
  match from_first_open text with
  | Some rest =>
      match upto_last_close rest with
      | Some p => Some (123%N :: p)
      | None => None
      end
  | None => None
  end.

(** [_extract_json]; Python's [None] is [JNull]. On a [text] that is
    [None], [json.loads] raises inside the [try] and [re.search] raises
    outside of it. *)
Definition none_text_error : exn :=
  mk_exn TypeError "expected string or bytes-like object, got 'NoneType'".

Definition _extract_json (text : option str) : result json :=
  match text with
  | None => Raise none_text_error
  | Some text =>
      match json_loads text with
      | Some v => Ok v
      | None =>
          match search_braces text with
          | None => Ok JNull
          | Some group =>
              match json_loads group with
              | Some v => Ok v
              | None => Ok JNull
              end
          end
      end
  end.

Definition default_intent : list (str * json) :=
  [(u "intent", JStr (u "chat"));
   (u "confidence", JFloat (2 # 5));
   (u "entities", JObj [])].

(** [f"{x}"] for a nullable text column. *)
Definition format_opt (x : option str) : str := default (u "None") x.

(** The user prompt of the classifier, with the last three turns of the
    history as its context. *)
Definition intent_user_prompt (message : str)
    (conversation_history : list (str * option str)) : str :=
  let context :=
    if truthy conversation_history then
      join [10%N]
        (map (fun '(role, content) => role ++ u ": " ++ format_opt content)
           (slice conversation_history (-3) (len conversation_history)))
    else [] in
  intent_prompt_message ++ message ++ intent_prompt_context
  ++ (if truthy context then context else intent_no_context)
  ++ intent_prompt_ask.

Definition classify_intent (message : str)
    (conversation_history : list (str * option str)) : M Ext json :=
  try_except
    (text ← call_generate EvClassify CHATBOT_INTENT_MODEL
               [INTENT_SYSTEM_PROMPT;
                intent_user_prompt message conversation_history];
     parsed ← lift (_extract_json text);
     if json_truthy parsed then mret parsed
     else mret (JObj default_intent))
    (fun exc =>
       mret (JObj (default_intent ++ [(u "error", JStr (exn_str exc))]))).

(** ** [rag_context_service.py] *)

(** [d.get(key)] on a value that has to be a [dict]. *)
Definition dict_get (d : json) (key : string) : result (option json) :=
  match d with
  | JObj members => Ok (assoc_last (u key) members)
  | _ => Raise (mk_exn AttributeError "object has no attribute 'get'")
  end.

(** [x or fallback] *)
Definition or_else (x : option json) (fallback : json) : json :=
  match x with
  | Some v => if json_truthy v then v else fallback
  | None => fallback
  end.

Definition _parse_date (value : option json) : result (option datetime) :=
  match value with
  | None => Ok None
  | Some v =>
      if negb (json_truthy v) then Ok None
      else
        match v with
        | JStr s => Ok (fromisoformat s)
        | _ => Raise (mk_exn TypeError "fromisoformat: argument must be str")
        end
  end.

(** The order of [datetime] values. *)
Definition datetime_key (d : datetime) : list Z :=
  [year d; month d; day d; hour d; minute d; second d; microsecond d].

Fixpoint lex_leb (a b : list Z) : bool :=
  match a, b with
  | [], _ => true
  | _ :: _, [] => false
  | x :: a', y :: b' => (x <? y) || ((x =? y) && lex_leb a' b')
  end.

Definition datetime_leb (a b : datetime) : bool :=
  lex_leb (datetime_key a) (datetime_key b).

(** The keys of a [dict] in insertion order. *)
Fixpoint dict_keys (members : list (str * json)) (seen : list str) : list str :=
  match members with
  | [] => []
  | (k, _) :: rest =>
      if existsb (str_eqb k) seen then dict_keys rest seen
      else k :: dict_keys rest (k :: seen)
  end.

(** [' '.join(keywords)] for a truthy [keywords]. *)
Definition join_keywords (keywords : json) : result str :=
  let not_iterable := Raise (mk_exn TypeError "can only join an iterable") in
  match keywords with
  | JStr s => Ok (join [32%N] (map (fun c => [c]) s))
  | JArr items =>
      match
        foldr (fun item acc =>
                 match item, acc with
                 | JStr s, Some l => Some (s :: l)
                 | _, _ => None
                 end) (Some []) items
      with
      | Some l => Ok (join [32%N] l)
      | None => Raise (mk_exn TypeError "sequence item: expected str instance")
      end
  | JObj members => Ok (join [32%N] (dict_keys members []))
  | _ => not_iterable
  end.

(** The argument of [Column.in_], which has to be a list. *)
Definition in_list (v : json) : result (list json) :=
  match v with
  | JArr items => Ok items
  | _ => Raise (mk_exn OtherError "IN expression list expected")
  end.

Definition json_eqb_scalar (a b : json) : bool :=
  match a, b with
  | JStr x, JStr y => str_eqb x y
  | JInt x, JInt y => x =? y
  | _, _ => false
  end.

(** The filters of one search, as the query carries them. *)
Record search_filters := Filters {
  f_user_id : Z;
  f_start_date : option datetime;
  f_end_date : option datetime;
  f_categories : option (list json);
  f_audio_ids : option (list json);
  f_pattern : option str }.

Definition opt_test {A} (o : option A) (p : A -> bool) : bool :=
  match o with
  | Some x => p x
  | None => true
  end.

(** The [WHERE] clause on a chunk joined to its note. A comparison with a
    [NULL] column is not true. Values of another type than the column
    match no row. *)
Definition row_matches (f : search_filters) (chunk : NoteChunk.t)
    (note : Note.t) : bool :=
  (Note.user_id note =? f_user_id f)
  && negb (Note.is_archived note)
  && opt_test (f_start_date f)
       (fun d => match Note.created_at note with
                 | Some c => datetime_leb d c
                 | None => false
                 end)
  && opt_test (f_end_date f)
       (fun d => match Note.created_at note with
                 | Some c => datetime_leb c d
                 | None => false
                 end)
  && opt_test (f_categories f)
       (fun l => match Note.category note with
                 | Some c => existsb (json_eqb_scalar (JStr c)) l
                 | None => false
                 end)
  && opt_test (f_audio_ids f)
       (fun l => match Note.audio_file_id note with
                 | Some a => existsb (json_eqb_scalar (JInt a)) l
                 | None => false
                 end)
  && opt_test (f_pattern f) (ilike (NoteChunk.chunk_text chunk)).

(** The rows of [NoteChunk JOIN Note] that pass the filters, in table
    order. *)
Definition matching_chunks (s : Store) (f : search_filters)
    : list NoteChunk.t :=
  List.filter
    (fun chunk =>
       match note_of s chunk with
       | Some note => row_matches f chunk note
       | None => false
       end)
    (note_chunks s).

(** [ORDER BY key]: a stable insertion sort. *)
Fixpoint insert_by {A} (leb : A -> A -> bool) (x : A) (l : list A) : list A :=
  match l with
  | [] => [x]
  | y :: rest => if leb x y then x :: l else y :: insert_by leb x rest
  end.

Definition sort_by {A} (leb : A -> A -> bool) (l : list A) : list A :=
  foldr (insert_by leb) [] l.

(** The sort key [cosine_distance(NoteChunk.embedding, query)]; a [NULL]
    sorts last. *)
Definition distance_of (query_embedding : vector) (chunk : NoteChunk.t)
    : option Q :=
  match NoteChunk.embedding chunk with
  | Some e => Some (cosine_distance e query_embedding)
  | None => None
  end.

Definition distance_leb (a b : option Q) : bool :=
  match a, b with
  | Some x, Some y => Qle_bool x y
  | _, None => true
  | None, Some _ => false
  end.

(** The filters [semantic_search_with_filters] reads off the entities of
    the intent: the dates of [date_range], the categories, the audio ids
    and the pattern of the keywords. Each is left out when its entry is
    missing or falsy. *)
Definition entity_filters (user_id : Z) (entities : json)
    : result search_filters :=
  date_range0 ← dict_get entities "date_range";
  let date_range := or_else date_range0 (JObj []) in
  start0 ← dict_get date_range "start";
  start_date ← _parse_date start0;
  end0 ← dict_get date_range "end";
  end_date ← _parse_date end0;
  categories0 ← dict_get entities "categories";
  let categories := or_else categories0 (JArr []) in
  categories_filter ←
    (if json_truthy categories
     then l ← in_list categories; Ok (Some l)
     else Ok None);
  audio_ids0 ← dict_get entities "audio_ids";
  let audio_ids := or_else audio_ids0 (JArr []) in
  audio_ids_filter ←
    (if json_truthy audio_ids
     then l ← in_list audio_ids; Ok (Some l)
     else Ok None);
  keywords0 ← dict_get entities "keywords";
  let keywords := or_else keywords0 (JArr []) in
  pattern ←
    (if json_truthy keywords
     then joined ← join_keywords keywords;
          Ok (Some ([37%N] ++ joined ++ [37%N]))
     else Ok None);
  Ok (Filters user_id start_date end_date categories_filter
        audio_ids_filter pattern).

Definition semantic_search_with_filters (user_id : Z) (query_text : str)
    (entities : json) (limit : nat) : M Ext (list NoteChunk.t) :=
  query_embedding ← generate_query_embedding query_text;
  match query_embedding with
  | None | Some [] => mret []
  | Some query_embedding =>
      filters ← lift (entity_filters user_id entities);
      s ← query;
      let rows := matching_chunks s filters in
      mret (take limit
              (sort_by
                 (fun a b =>
                    distance_leb (distance_of query_embedding a)
                      (distance_of query_embedding b))
                 rows))
  end.

(** [note.created_at.strftime('%Y-%m-%d')] *)
Definition strftime_ymd (d : datetime) : str :=
  zero_padded 4 (year d) ++ [45%N] ++ zero_padded 2 (month d) ++ [45%N]
  ++ zero_padded 2 (day d).

Definition no_attribute : exn :=
  mk_exn AttributeError "'NoneType' object has no attribute".

(** The text block of one chunk. *)
Definition context_block (s : Store) (chunk : NoteChunk.t) : result str :=
  match note_of s chunk with
  | None => Raise no_attribute
  | Some note =>
      let audio_name :=
        match audio_file_of s note with
        | Some audio_file => AudioFile.original_filename audio_file
        | None => u "N/A"
        end in
      match Note.created_at note with
      | None => Raise no_attribute
      | Some created_at =>
          Ok (block_source ++ Note.title note ++ block_audio ++ audio_name
              ++ block_date ++ strftime_ymd created_at ++ block_content
              ++ NoteChunk.chunk_text chunk ++ block_end)
      end
  end.

(** The [for chunk in chunks] loop of [build_context]. *)
Fixpoint context_loop (s : Store) (chunks : list NoteChunk.t) (max_chars : Z)
    (context_parts : list str) (total_chars : Z) : result (list str) :=
  match chunks with
  | [] => Ok context_parts
  | chunk :: rest =>
      match context_block s chunk with
      | Raise e => Raise e
      | Ok chunk_text =>
          if total_chars + len chunk_text >? max_chars then Ok context_parts
          else
            context_loop s rest max_chars (context_parts ++ [chunk_text])
              (total_chars + len chunk_text)
      end
  end.

Definition build_context (s : Store) (chunks : list NoteChunk.t)
    (max_tokens : Z) : result str :=
  let max_chars := max_tokens * 4 in
  match context_loop s chunks max_chars [] 0 with
  | Raise e => Raise e
  | Ok context_parts => Ok (join [10%N] context_parts)
  end.

(** The [for chunk in chunks] loops of [get_related_audio_files] and
    [get_related_notes]. *)
Fixpoint related_audio_loop (s : Store) (chunks : list NoteChunk.t)
    (audio_files : list AudioFile.t) (seen_ids : list Z)
    : result (list AudioFile.t) :=
  match chunks with
  | [] => Ok audio_files
  | chunk :: rest =>
      match note_of s chunk with
      | None => Raise no_attribute
      | Some note =>
          match audio_file_of s note with
          | Some audio_file =>
              if existsb (Z.eqb (AudioFile.id audio_file)) seen_ids
              then related_audio_loop s rest audio_files seen_ids
              else
                related_audio_loop s rest (audio_files ++ [audio_file])
                  (AudioFile.id audio_file :: seen_ids)
          | None => related_audio_loop s rest audio_files seen_ids
          end
      end
  end.

Definition get_related_audio_files (s : Store) (chunks : list NoteChunk.t)
    : result (list AudioFile.t) :=
  related_audio_loop s chunks [] [].

Fixpoint related_notes_loop (s : Store) (chunks : list NoteChunk.t)
    (found : list Note.t) (seen_ids : list Z) : result (list Note.t) :=
  match chunks with
  | [] => Ok found
  | chunk :: rest =>
      match note_of s chunk with
      | None => Raise no_attribute
      | Some note =>
          if existsb (Z.eqb (Note.id note)) seen_ids
          then related_notes_loop s rest found seen_ids
          else
            related_notes_loop s rest (found ++ [note])
              (Note.id note :: seen_ids)
      end
  end.

Definition get_related_notes (s : Store) (chunks : list NoteChunk.t)
    : result (list Note.t) :=
  related_notes_loop s chunks [] [].

(** ** [chatbot_service.py] *)

Record audio_reference := AudioRef {
  ref_audio_id : Z;
  ref_audio_title : str;
  ref_duration : option Q;
  ref_created_at : option datetime }.

Record note_reference := NoteRef {
  ref_note_id : Z;
  ref_note_title : str }.

(** The dictionary a handler returns; the reference keys may be absent. *)
Record handler_result := HandlerResult {
  text : option str;
  audio_references : option (list audio_reference);
  note_references : option (list note_reference);
  suggested_questions : list str }.

(** The dictionary [process_message] returns. *)
Record turn_response := TurnResponse {
  r_message_id : str;
  r_response : option str;
  r_intent : str;
  r_audio_references : list audio_reference;
  r_note_references : list note_reference;
  r_suggested_questions : list str }.

Definition audio_ref_of (audio : AudioFile.t) : audio_reference :=
  AudioRef (AudioFile.id audio) (AudioFile.original_filename audio)
    (AudioFile.duration audio) (AudioFile.created_at audio).

Definition note_ref_of (note : Note.t) : note_reference :=
  NoteRef (Note.id note) (Note.title note).

Definition _get_session (user_id : Z) (session_id : str)
    : M Ext ChatbotSession.t :=
  s ← query;
  match
    find (fun row =>
            str_eqb (ChatbotSession.session_id row) session_id
            && (ChatbotSession.user_id row =? user_id)
            && ChatbotSession.is_active row)
      (chatbot_sessions s)
  with
  | Some session => mret session
  | None => raise (mk_exn ValueError "Session not found")
  end.

Definition _get_conversation_history (session_id : str) (limit : nat)
    : M Ext (list (str * option str)) :=
  s ← query;
  let messages :=
    take limit
      (sort_by
         (fun a b =>
            datetime_leb (ChatbotMessage.created_at b)
              (ChatbotMessage.created_at a))
         (List.filter
            (fun m => str_eqb (ChatbotMessage.session_id m) session_id)
            (chatbot_messages s))) in
  mret (map (fun m => (ChatbotMessage.role m, ChatbotMessage.content m))
          (rev messages)).

(** [self.client.models.generate_content(...)] of the response generator,
    with its fallback. *)
Definition _generate_response (system_prompt user_prompt fallback : str)
    : M Ext (option str) :=
  try_except
    (call_generate EvGenerate CHATBOT_RESPONSE_MODEL
       [system_prompt; user_prompt])
    (fun _ => mret (Some fallback)).

Definition _handle_search (audio_files : list AudioFile.t)
    (notes : list Note.t) : handler_result :=
  let audio_refs := map audio_ref_of audio_files in
  let note_refs := map note_ref_of notes in
  let text :=
    match audio_files with
    | [] => search_none_text
    | [audio] => search_one_prefix ++ AudioFile.original_filename audio
    | _ => search_many_prefix ++ str_of_int (len audio_files)
           ++ search_many_suffix
    end in
  HandlerResult (Some text) (Some audio_refs) (Some note_refs)
    search_suggestions.

Definition _handle_summarization (context question : str)
    : M Ext handler_result :=
  if negb (truthy context) then
    mret (HandlerResult (Some summarize_no_context_text) None None
            summarize_no_context_suggestions)
  else
    summary_text ←
      _generate_response summarize_system_prompt
        (summarize_prompt_context ++ context ++ summarize_prompt_request
         ++ question ++ summarize_prompt_ask)
        summarize_fallback;
    mret (HandlerResult summary_text None None summarize_suggestions).

Definition _handle_question (context question : str)
    : M Ext handler_result :=
  if negb (truthy context) then
    mret (HandlerResult (Some question_no_context_text) None None
            question_no_context_suggestions)
  else
    answer_text ←
      _generate_response question_system_prompt
        (question_prompt_context ++ context ++ question_prompt_request
         ++ question ++ question_prompt_ask)
        question_fallback;
    mret (HandlerResult answer_text None None question_suggestions).

(** ["delete" in actions], for the value under the key ["actions"]. *)
Definition action_in (needle : string) (actions : json) : result bool :=
  match actions with
  | JArr items => Ok (existsb (json_eqb_scalar (JStr (u needle))) items)
  | JStr s => Ok (contains s (u needle))
  | JObj members => Ok (existsb (str_eqb (u needle)) (map fst members))
  | _ => Raise (mk_exn TypeError "argument is not iterable")
  end.

Definition _handle_management (entities : json) : result handler_result :=
  match dict_get entities "actions" with
  | Raise e => Raise e
  | Ok found =>
      let actions := default (JArr []) found in
      match action_in "delete" actions with
      | Raise e => Raise e
      | Ok true =>
          Ok (HandlerResult (Some manage_delete_text) None None
                manage_suggestions)
      | Ok false =>
          match action_in "archive" actions with
          | Raise e => Raise e
          | Ok true =>
              Ok (HandlerResult (Some manage_archive_text) None None
                    manage_suggestions)
          | Ok false =>
              Ok (HandlerResult (Some manage_other_text) None None
                    manage_suggestions)
          end
      end
  end.

Definition _handle_analytics (context question : str)
    : M Ext handler_result :=
  if negb (truthy context) then
    mret (HandlerResult (Some analytics_no_context_text) None None
            analytics_no_context_suggestions)
  else
    analytics_text ←
      _generate_response analytics_system_prompt
        (analytics_prompt_context ++ context ++ analytics_prompt_request
         ++ question ++ analytics_prompt_ask)
        analytics_fallback;
    mret (HandlerResult analytics_text None None analytics_suggestions).

Definition _handle_chat (message : str) : M Ext handler_result :=
  chat_text ← _generate_response chat_system_prompt message chat_fallback;
  mret (HandlerResult chat_text None None chat_suggestions).

Definition known_intents : list str :=
  [u "search"; u "summarize"; u "question"; u "manage"; u "analytics";
   u "chat"].

Definition retrieval_intents : list str :=
  [u "search"; u "summarize"; u "question"; u "analytics"].

Definition str_in (x : str) (l : list str) : bool := existsb (str_eqb x) l.

(** [intent = intent_result.get("intent", "chat")] followed by the
    membership test in the set of known intents, which hashes [intent]. *)
Definition normalize_intent (intent_result : json) : result str :=
  match dict_get intent_result "intent" with
  | Raise e => Raise e
  | Ok found =>
      match default (JStr (u "chat")) found with
      | JStr s => if str_in s known_intents then Ok s else Ok (u "chat")
      | JArr _ | JObj _ => Raise (mk_exn TypeError "unhashable type")
      | _ => Ok (u "chat")
      end
  end.

(** [entities = intent_result.get("entities", {}) or {}], replaced by an
    empty dictionary when it is not one. *)
Definition normalize_entities (intent_result : json) : result json :=
  match dict_get intent_result "entities" with
  | Raise e => Raise e
  | Ok found =>
      match or_else found (JObj []) with
      | JObj members => Ok (JObj members)
      | _ => Ok (JObj [])
      end
  end.

(** The largest integer [float] converts without [OverflowError]. *)
Definition float_max_int : Z := 2 ^ 1024 - 2 ^ 970 - 1.

(** [float(confidence)] *)
Definition py_float (v : json) : result Q :=
  match v with
  | JInt z =>
      if Z.abs z >? float_max_int
      then Raise (mk_exn OverflowError "int too large to convert to float")
      else Ok (inject_Z z)
  | JFloat q => Ok q
  | JBool b => Ok (if b then 1 else 0)%Q
  | JStr s =>
      match float_of_str s with
      | Some q => Ok q
      | None => Raise (mk_exn ValueError "could not convert string to float")
      end
  | _ => Raise (mk_exn TypeError "float() argument must be a string or a real number")
  end.

Definition normalize_confidence (intent_result : json) : result Q :=
  match dict_get intent_result "confidence" with
  | Raise e => Raise e
  | Ok found =>
      match py_float (default (JFloat 0) found) with
      | Ok q => Ok q
      | Raise e =>
          match exn_class_of e with
          | TypeError | ValueError => Ok 0%Q
          | _ => Raise e
          end
      end
  end.

Definition ids_or_none {A} (id_of : A -> Z) (l : list A) : option (list Z) :=
  if truthy l then Some (map id_of l) else None.

(** What the retrieval step of a turn leaves in the local variables
    [chunks], [audio_files], [notes] and [context]. *)
Record retrieved := Retrieved {
  chunks_of : list NoteChunk.t;
  audio_files_of : list AudioFile.t;
  notes_of : list Note.t;
  context_of : str }.

(** The block under [if intent in ["search", "summarize", "question",
    "analytics"]]. *)
Definition retrieve (user_id : Z) (message intent : str) (entities : json)
    : M Ext retrieved :=
  if str_in intent retrieval_intents then
    chunks ← semantic_search_with_filters user_id message entities 5;
    d ← get_db;
    audio_files ← lift (get_related_audio_files (pending d) chunks);
    notes ← lift (get_related_notes (pending d) chunks);
    context ← lift (build_context (pending d) chunks 3000);
    mret (Retrieved chunks audio_files notes context)
  else mret (Retrieved [] [] [] []).

(** The [if intent == ... elif ...] dispatch. *)
Definition handle (intent message : str) (entities : json) (r : retrieved)
    : M Ext handler_result :=
  if str_eqb intent (u "search")
  then mret (_handle_search (audio_files_of r) (notes_of r))
  else if str_eqb intent (u "summarize")
  then _handle_summarization (context_of r) message
  else if str_eqb intent (u "question")
  then _handle_question (context_of r) message
  else if str_eqb intent (u "manage")
  then lift (_handle_management entities)
  else if str_eqb intent (u "analytics")
  then _handle_analytics (context_of r) message
  else _handle_chat message.

(** The values a turn has computed when it starts to persist. *)
Record turn := Turn {
  t_intent : str;
  t_entities : json;
  t_confidence : Q;
  t_retrieved : retrieved;
  t_result : handler_result;
  t_response_time : Z }.

(** The first half of the [try] block: classification, retrieval and the
    handler. *)
Definition compute_turn (user_id : Z) (session_id message : str)
    (start_time : Q) : M Ext (ChatbotSession.t * turn) :=
  session ← _get_session user_id session_id;
  history ← _get_conversation_history session_id 10;
  intent_result ← classify_intent message history;
  intent ← lift (normalize_intent intent_result);
  entities ← lift (normalize_entities intent_result);
  confidence ← lift (normalize_confidence intent_result);
  r ← retrieve user_id message intent entities;
  result ← handle intent message entities r;
  end_time ← ask time_time;
  let response_time := int_of_float ((end_time - start_time) * 1000) in
  let result :=
    HandlerResult (text result)
      (Some (default (map audio_ref_of (audio_files_of r))
               (audio_references result)))
      (Some (default (map note_ref_of (notes_of r))
               (note_references result)))
      (suggested_questions result) in
  mret (session, Turn intent entities confidence r result response_time).

Definition user_message (message_id session_id message : str) (t : turn)
    (created_at : datetime) : ChatbotMessage.t :=
  ChatbotMessage.Make message_id session_id (u "user") (Some message)
    (Some (t_intent t)) (Some (t_entities t)) None None None None None
    created_at.

Definition assistant_message (message_id session_id : str) (t : turn)
    (created_at : datetime) : ChatbotMessage.t :=
  ChatbotMessage.Make message_id session_id (u "assistant")
    (text (t_result t)) (Some (t_intent t)) None
    (ids_or_none NoteChunk.id (chunks_of (t_retrieved t)))
    (ids_or_none AudioFile.id (audio_files_of (t_retrieved t)))
    (ids_or_none Note.id (notes_of (t_retrieved t)))
    (Some (t_response_time t)) (Some (t_confidence t)) created_at.

(** [session.title] and [session.total_messages] after a turn. *)
Definition session_after_turn (message : str) (row : ChatbotSession.t)
    : ChatbotSession.t :=
  ChatbotSession.Make (ChatbotSession.session_id row)
    (ChatbotSession.user_id row)
    (if truthy (default [] (ChatbotSession.title row))
     then ChatbotSession.title row
     else Some (prefix (strip message) 200))
    (Some (default 0 (ChatbotSession.total_messages row) + 2))
    (ChatbotSession.is_active row).

(** The second half of the [try] block: the two messages, the session and
    the commit. *)
Definition persist_turn (session_id message : str) (t : turn)
    : M Ext ChatbotMessage.t :=
  user_id ← ask uuid4;
  _ ← add_message (user_message user_id session_id message t);
  assistant_id ← ask uuid4;
  assistant_msg ← add_message (assistant_message assistant_id session_id t);
  update_session session_id (session_after_turn message);;
  db_commit;;
  mret assistant_msg.

(** The [return] comes after the [try] block and reads
    [assistant_msg.message_id]. The commit has expired the object (the
    session factory keeps the default [expire_on_commit]), so the read
    reloads the row: one more round trip, with no handler around it. *)
Definition process_message (user_id : Z) (session_id message : str)
    : M Ext turn_response :=
  start_time ← ask time_time;
  '(t, assistant_msg) ←
    try_except
      ('(session, t) ← compute_turn user_id session_id message start_time;
       assistant_msg ← persist_turn session_id message t;
       mret (t, assistant_msg))
      (fun exc => db_rollback;; raise exc);
  db_roundtrip;;
  mret (TurnResponse (ChatbotMessage.message_id assistant_msg)
          (text (t_result t)) (t_intent t)
          (default [] (audio_references (t_result t)))
          (default [] (note_references (t_result t)))
          (suggested_questions (t_result t))).

(** ** [note_service.py]: the write paths *)

(** [if chunk_data["embedding"]:] *)
Definition embedding_truthy (e : option vector) : bool :=
  match e with
  | Some v => truthy v
  | None => false
  end.

(** The loop every write path runs over the embedded chunks:
    [for chunk_data in chunks_with_embeddings:
       if chunk_data["embedding"]: db.add(NoteChunk(...))]. *)
Definition save_chunks (note_id : Z)
    (chunks_with_embeddings : list embedded_chunk) : M Ext unit :=
  for_each
    (fun _ chunk_data =>
       if embedding_truthy (embedding chunk_data) then
         let c := draft chunk_data in
         add_note_chunk
           (fun id =>
              NoteChunk.Make id note_id (ChunkDict.chunk_text c)
                (ChunkDict.chunk_index c) (ChunkDict.chunk_type c)
                (embedding chunk_data) (Some (ChunkDict.start_char c))
                (Some (ChunkDict.end_char c))
                (Some (ChunkDict.token_count c)))
       else mret tt)
    chunks_with_embeddings tt.

(** [chunk_text(text, chunk_size=1500, chunk_overlap=200, ...)], which
    returns within [len(text) + 1] rounds of its loop. *)
Definition chunk_text_1500_200 (text chunk_type : str) : list ChunkDict.t :=
  fst (chunk_text_run (S (length text)) text 1500 200 chunk_type).

(** Chunk one text of a note, embed the chunks and save them. *)
Definition index_text (note_id : Z) (text chunk_type : str) : M Ext unit :=
  let chunks := chunk_text_1500_200 text chunk_type in
  if truthy chunks then
    chunks_with_embeddings ← generate_chunk_embeddings chunks;
    save_chunks note_id chunks_with_embeddings
  else mret tt.

(** [if text: index it], for a nullable text. *)
Definition index_opt (note_id : Z) (text : option str) (chunk_type : str)
    : M Ext unit :=
  match text with
  | Some t => if truthy t then index_text note_id t chunk_type else mret tt
  | None => mret tt
  end.

(** The [ResponseCommon] of a note operation: its status code, and the
    note on success. *)
Inductive note_response :=
| NoteSuccess (code : Z) (note : Note.t)
| NoteFailure (code : Z).

Definition find_audio_file (audio_file_id user_id : Z)
    : M Ext (option AudioFile.t) :=
  s ← query;
  mret (find (fun f => (AudioFile.id f =? audio_file_id)
                       && (AudioFile.user_id f =? user_id))
          (audio_files s)).

Definition find_note (note_id user_id : Z) : M Ext (option Note.t) :=
  s ← query;
  mret (find (fun n => (Note.id n =? note_id) && (Note.user_id n =? user_id))
          (notes s)).

Definition create_note (user_id : Z) (note_data : NoteData.t)
    : M Ext note_response :=
  try_except
    (missing ←
       match NoteData.audio_file_id note_data with
       | Some a =>
           if a =? 0 then mret false
           else found ← find_audio_file a user_id;
                mret (bool_decide (found = None :> option AudioFile.t))
       | None => mret false
       end;
     if (missing : bool) then mret (NoteFailure 404)
     else
       now ← ask datetime_now;
       note ← add_note
         (fun id =>
            Note.Make id user_id (NoteData.audio_file_id note_data)
              (NoteData.title note_data) (NoteData.content note_data)
              (NoteData.summary note_data) (NoteData.category note_data)
              (NoteData.tags note_data) (NoteData.is_archived note_data)
              (Some now));
       index_opt (Note.id note) (NoteData.content note_data) (u "content");;
       index_opt (Note.id note) (NoteData.summary note_data) (u "summary");;
       db_commit;;
       db_roundtrip;;
       mret (NoteSuccess 201 note))
    (fun _ => db_rollback;; mret (NoteFailure 500)).

(** [db.query(NoteChunk).filter(note_id, chunk_type).delete()] *)
Definition delete_chunks (note_id : Z) (chunk_type : str) : M Ext unit :=
  db_roundtrip;;
  update_pending
    (fun s =>
       MkStore (audio_files s) (notes s)
         (List.filter
            (fun c =>
               negb ((NoteChunk.note_id c =? note_id)
                     && str_eqb (NoteChunk.chunk_type c) chunk_type))
            (note_chunks s))
         (chatbot_sessions s) (chatbot_messages s)).

Definition reindex_opt (note_id : Z) (text : option str) (chunk_type : str)
    : M Ext unit :=
  match text with
  | Some t =>
      if truthy t
      then delete_chunks note_id chunk_type;;
           index_text note_id t chunk_type
      else mret tt
  | None => mret tt
  end.

(** The [setattr] loop over the values that are not [None]. *)
Definition apply_update (upd : NoteUpdate.t) (n : Note.t) : Note.t :=
  Note.Make (Note.id n) (Note.user_id n) (Note.audio_file_id n)
    (default (Note.title n) (NoteUpdate.title upd))
    (match NoteUpdate.content upd with Some x => Some x | None => Note.content n end)
    (match NoteUpdate.summary upd with Some x => Some x | None => Note.summary n end)
    (match NoteUpdate.category upd with Some x => Some x | None => Note.category n end)
    (match NoteUpdate.tags upd with Some x => Some x | None => Note.tags n end)
    (default (Note.is_archived n) (NoteUpdate.is_archived upd))
    (Note.created_at n).

Definition update_note (note_id user_id : Z) (update_data : NoteUpdate.t)
    : M Ext note_response :=
  found ← find_note note_id user_id;
  match found with
  | None => mret (NoteFailure 404)
  | Some note =>
      try_except
        (reindex_opt note_id (NoteUpdate.content update_data) (u "content");;
         reindex_opt note_id (NoteUpdate.summary update_data) (u "summary");;
         update_pending
           (fun s =>
              MkStore (audio_files s)
                (map (fun n => if Note.id n =? note_id
                               then apply_update update_data n else n)
                   (notes s))
                (note_chunks s) (chatbot_sessions s) (chatbot_messages s));;
         db_commit;;
         db_roundtrip;;
         mret (NoteSuccess 200 (apply_update update_data note)))
        (fun _ => db_rollback;; mret (NoteFailure 500))
  end.

(** [s.rsplit('.', 1)[0]]: the text before the last dot, or all of it. *)
Fixpoint before_last_dot (s : str) : option str :=
  match s with
  | [] => None
  | c :: rest =>
      match before_last_dot rest with
      | Some p => Some (c :: p)
      | None => if (c =? 46)%N then Some [] else None
      end
  end.

Definition strftime_ymd_hm (d : datetime) : str :=
  strftime_ymd d ++ [32%N] ++ zero_padded 2 (hour d) ++ [58%N]
  ++ zero_padded 2 (minute d).

(** The summary request, sent again without [request_options] when the
    client rejects that argument with a [TypeError]. *)
Definition request_summary (user_prompt : str) : M Ext (option str) :=
  let model := u "gemini-2.5-flash" in
  try_except
    (call_generate EvSummarize model [SUMMARY_SYSTEM_PROMPT; user_prompt])
    (fun exc =>
       match exn_class_of exc with
       | TypeError =>
           call_generate EvSummarize model
             [SUMMARY_SYSTEM_PROMPT; user_prompt]
       | _ => raise exc
       end).

(** The first [try] block of [summarize_audio_transcript]: the summary as
    a JSON string, or [None] when an error response is returned. *)
Definition generate_summary (transcription : str) : M Ext (option str) :=
  try_except
    (response_text ←
       request_summary
         (summary_user_prompt_before ++ transcription
          ++ summary_user_prompt_after);
     match response_text with
     | None => raise no_attribute
     | Some t =>
         match json_loads (strip t) with
         | Some (JArr ops) => mret (Some (json_dumps (JArr ops)))
         | _ => mret None
         end
     end)
    (fun _ => mret None).

Definition summarize_audio_transcript (audio_file_id user_id : Z)
    : M Ext note_response :=
  found ← find_audio_file audio_file_id user_id;
  match found with
  | None => mret (NoteFailure 404)
  | Some audio_file =>
      match AudioFile.transcription audio_file with
      | None | Some [] => mret (NoteFailure 400)
      | Some transcription =>
          summary ← generate_summary transcription;
          match summary with
          | None => mret (NoteFailure 500)
          | Some summary_json =>
              try_except
                (let stem :=
                   default (AudioFile.original_filename audio_file)
                     (before_last_dot (AudioFile.original_filename audio_file))
                 in
                 title ←
                   (if truthy (prefix stem 100) then mret (prefix stem 100)
                    else
                      match AudioFile.created_at audio_file with
                      | Some c => mret (u "Note from " ++ strftime_ymd_hm c)
                      | None => raise no_attribute
                      end);
                 now ← ask datetime_now;
                 note ← add_note
                   (fun id =>
                      Note.Make id user_id (Some audio_file_id) title
                        (Some transcription) (Some summary_json)
                        (Some (u "transcription"))
                        (Some (u "audio,transcription")) false (Some now));
                 index_opt (Note.id note) (Some transcription) (u "content");;
                 index_opt (Note.id note) (Some summary_json) (u "summary");;
                 db_commit;;
                 db_roundtrip;;
                 mret (NoteSuccess 201 note))
                (fun _ => db_rollback;; mret (NoteFailure 500))
          end
      end
  end.

(** *** The batch gateway, read in input order

    What [generate_embeddings_batch] computes, written without the
    index bookkeeping: the texts are taken in order, in groups of the
    sizes of the batches, and each group yields one entry per text. *)

(** [[f(x) for x in l]] *)
Fixpoint map_m {A B} (f : A -> M Ext B) (l : list A) : M Ext (list B) :=
  match l with
  | [] => mret []
  | x :: rest => y ← f x; ys ← map_m f rest; mret (y :: ys)
  end.

Definition embed_texts (batch_texts : list str) (task_type : str)
    : M Ext (list (option vector)) :=
  if (length batch_texts =? 1)%nat then
    map_m (fun text => generate_embedding text task_type) batch_texts
  else
    r ← attempt (_embed_content_with_retry (Batch batch_texts) task_type);
    match r with
    | Ok response =>
        mret (fit_response (_extract_embeddings response)
                (length batch_texts))
    | Raise _ =>
        map_m (fun text => generate_embedding text task_type) batch_texts
    end.

Fixpoint embed_in_order (texts : list str) (task_type : str)
    (sizes : list nat) : M Ext (list (option vector)) :=
  match sizes with
  | [] => mret []
  | n :: rest =>
      vs ← embed_texts (take n texts) task_type;
      ws ← embed_in_order (drop n texts) task_type rest;
      mret (vs ++ ws)
  end.

End Services.

(** ** Schemas ([app/schemas/note.py]) *)

(** The [Note] response schema and its validation of a row, which raises
    on a row that does not fit the schema. *)
Class Schemas := {
  NoteSchema : Type;
  model_validate : Note.t -> result NoteSchema }.

(** [[f(x) for x in l]] where [f] may raise. *)
Fixpoint traverse {A B} (f : A -> result B) (l : list A) : result (list B) :=
  match l with
  | [] => Ok []
  | x :: rest =>
      match f x with
      | Raise e => Raise e
      | Ok y =>
          match traverse f rest with
          | Raise e => Raise e
          | Ok ys => Ok (y :: ys)
          end
      end
  end.

(** The values of a column under [DISTINCT], in the order of their first
    occurrence. *)
Fixpoint distinct_by {A} (eqb : A -> A -> bool) (l : list A) (seen : list A)
    : list A :=
  match l with
  | [] => []
  | x :: rest =>
      if existsb (eqb x) seen then distinct_by eqb rest seen
      else x :: distinct_by eqb rest (x :: seen)
  end.

Section Queries.
Context {Ext : Type} `{External Ext} `{Library} `{Settings} `{Schemas}.

(** ** [note_service.py]: reading and deleting notes *)

(** The [ResponseCommon] of [get_note_by_id]. *)
Inductive note_view_response :=
| NoteView (code : Z) (note : NoteSchema)
| NoteViewFailure (code : Z).

Definition get_note_by_id (note_id user_id : Z) : M Ext note_view_response :=
  found ← find_note note_id user_id;
  match found with
  | None => mret (NoteViewFailure 404)
  | Some note =>
      note_schema ← lift (model_validate note);
      mret (NoteView 200 note_schema)
  end.

(** [db.delete(note)]: the note goes, and with it its chunks (the
    relationship [Note.chunks] cascades). *)
Definition delete_note_row (note : Note.t) : M Ext unit :=
  update_pending
    (fun s =>
       MkStore (audio_files s)
         (List.filter (fun n => negb (Note.id n =? Note.id note)) (notes s))
         (List.filter
            (fun c => negb (NoteChunk.note_id c =? Note.id note))
            (note_chunks s))
         (chatbot_sessions s) (chatbot_messages s)).

(** [delete_note] returns the status code of its [ResponseCommon]. *)
Definition delete_note (note_id user_id : Z) : M Ext Z :=
  found ← find_note note_id user_id;
  match found with
  | None => mret 404
  | Some note =>
      try_except
        (delete_note_row note;;
         db_commit;;
         mret 200)
        (fun _ => db_rollback;; mret 500)
  end.

(** [get_note_categories] returns the [data] of its response. *)
Definition get_note_categories (user_id : Z) : M Ext (list str) :=
  s ← query;
  let categories :=
    distinct_by str_eqb
      (omap (fun n => if Note.user_id n =? user_id then Note.category n
                      else None)
         (notes s)) [] in
  mret (List.filter truthy categories).

(** ** [note_service.py]: [semantic_search_notes] *)

(** [1 - cosine_distance(NoteChunk.embedding, query)], [NULL] for a chunk
    without embedding. *)
Definition chunk_similarity (query_embedding : vector) (chunk : NoteChunk.t)
    : option Q :=
  match distance_of query_embedding chunk with
  | Some d => Some (1 - d)%Q
  | None => None
  end.

(** [func.max] over a group: the largest value that is not [NULL]. *)
Definition max_of (values : list (option Q)) : option Q :=
  foldr
    (fun v acc =>
       match v, acc with
       | Some x, Some y => Some (if Qle_bool x y then y else x)
       | Some x, None => Some x
       | None, _ => acc
       end)
    None values.

(** The rows of [NoteChunk JOIN Note] of the user's notes that are not
    archived, of the chunk type [search_in] asks for. *)
Definition search_rows (s : Store) (user_id : Z) (search_in : str)
    : list NoteChunk.t :=
  List.filter
    (fun chunk =>
       match note_of s chunk with
       | Some note =>
           (Note.user_id note =? user_id)
           && negb (Note.is_archived note)
           && (if str_eqb search_in (u "content")
               then str_eqb (NoteChunk.chunk_type chunk) (u "content")
               else if str_eqb search_in (u "summary")
               then str_eqb (NoteChunk.chunk_type chunk) (u "summary")
               else true)
       | None => false
       end)
    (note_chunks s).

Definition group_max (query_embedding : vector) (rows : list NoteChunk.t)
    (note_id : Z) : option Q :=
  max_of
    (map (chunk_similarity query_embedding)
       (List.filter (fun c => NoteChunk.note_id c =? note_id) rows)).

(** [GROUP BY note_id HAVING max_similarity >= threshold
    ORDER BY max_similarity DESC LIMIT limit]: the rows
    [(note_id, max_similarity)]. A negative [LIMIT] is an error of the
    database. *)
Definition chunk_query (query_embedding : vector) (rows : list NoteChunk.t)
    (similarity_threshold : Q) (limit : Z) : result (list (Z * Q)) :=
  let groups :=
    omap
      (fun note_id =>
         match group_max query_embedding rows note_id with
         | Some m =>
             if Qle_bool similarity_threshold m then Some (note_id, m)
             else None
         | None => None
         end)
      (distinct_by Z.eqb (map NoteChunk.note_id rows) []) in
  let ordered := sort_by (fun a b => Qle_bool (snd b) (snd a)) groups in
  if limit <? 0 then Raise (mk_exn OtherError "LIMIT must not be negative")
  else Ok (take (Z.to_nat limit) ordered).

(** [similarity_map[note.id]] *)
Definition similarity_lookup (similarity_map : list (Z * Q)) (note : Note.t)
    : result (Note.t * Q) :=
  match find (fun kv => fst kv =? Note.id note) similarity_map with
  | Some kv => Ok (note, snd kv)
  | None => Raise (mk_exn OtherError "KeyError")
  end.

(** The [ResponseCommon] of [semantic_search_notes]: the results with
    their count, or the status code of an error. *)
Inductive search_response :=
| SearchResults (results : list (NoteSchema * Q)) (total_count : Z)
| SearchError (code : Z).

Definition semantic_search_notes (user_id : Z) (query_text : str)
    (limit : Z) (search_in : str) (similarity_threshold : Q)
    : M Ext search_response :=
  query_embedding ← generate_query_embedding query_text;
  match query_embedding with
  | None | Some [] => mret (SearchError 500)
  | Some query_embedding =>
      try_except
        (s ← query;
         chunk_results ←
           lift (chunk_query query_embedding
                   (search_rows s user_id search_in) similarity_threshold
                   limit);
         if negb (truthy chunk_results) then mret (SearchResults [] 0)
         else
           let note_ids := map fst chunk_results in
           s' ← query;
           let found :=
             List.filter
               (fun n => existsb (Z.eqb (Note.id n)) note_ids) (notes s') in
           keyed ← lift (traverse (similarity_lookup chunk_results) found);
           let ordered :=
             sort_by (fun a b => Qle_bool (snd b) (snd a)) keyed in
           notes_with_scores ←
             lift (traverse
                     (fun '(note, score) =>
                        match model_validate note with
                        | Ok v => Ok (v, score)
                        | Raise e => Raise e
                        end)
                     ordered);
           mret (SearchResults notes_with_scores (len notes_with_scores)))
        (fun _ => mret (SearchError 500))
  end.

(** ** [chatbot_service.py]: creating and deleting sessions *)

(** [db.add(session); db.commit(); db.refresh(session)]. The column
    [session_id] is unique: a second row with the same id is refused at
    the flush. *)
Definition create_session (user_id : Z) (title : option str)
    : M Ext ChatbotSession.t :=
  session_id ← ask uuid4;
  let session := ChatbotSession.Make session_id user_id title (Some 0) true in
  d ← get_db;
  update_pending
    (fun s =>
       MkStore (audio_files s) (notes s) (note_chunks s)
         (chatbot_sessions s ++ [session]) (chatbot_messages s));;
  (if existsb (fun row => str_eqb (ChatbotSession.session_id row) session_id)
        (chatbot_sessions (pending d))
   then db_roundtrip;;
        raise (mk_exn IntegrityError "duplicate key value violates unique constraint")
   else db_commit);;
  db_roundtrip;;
  mret session.

Definition get_session (user_id : Z) (session_id : str)
    : M Ext ChatbotSession.t :=
  _get_session user_id session_id.

(** [db.delete(session); db.commit()]: the session goes, and with it its
    messages (the relationship [ChatbotSession.messages] cascades). *)
Definition delete_session (user_id : Z) (session_id : str) : M Ext unit :=
  session ← _get_session user_id session_id;
  update_pending
    (fun s =>
       MkStore (audio_files s) (notes s) (note_chunks s)
         (List.filter
            (fun row =>
               negb (str_eqb (ChatbotSession.session_id row)
                       (ChatbotSession.session_id session)))
            (chatbot_sessions s))
         (List.filter
            (fun m =>
               negb (str_eqb (ChatbotMessage.session_id m)
                       (ChatbotSession.session_id session)))
            (chatbot_messages s)));;
  db_commit.

End Queries.

(** ** [common/pagination_utils.py] *)

Module PageMeta.
Record t := Make {
  page : Z;
  page_size : Z;
  item_count : Z;
  page_count : Z;
  has_previous_page : bool;
  has_next_page : bool }.
End PageMeta.

(** [PaginationHelper.create_meta]. [ceil(total_items / page_size)] takes
    the ceiling of a float quotient. For a count and a page size below
    [2 ^ 53] in absolute value, the range of what a table holds and of
    what [PageOptionsDto] lets through, this is the ceiling of the exact
    quotient, which is what is written here: both numbers are floats as
    they are, the quotient is rounded with a relative error of at most
    [2 ^ -53], too little to reach the integer below, and rounding is
    monotone, so it does not pass the integer above. Outside this range
    the two differ (a huge [page_size] makes the float quotient 0). *)
Definition create_meta (page page_size total_items : Z) : PageMeta.t :=
  let page_count :=
    if page_size >? 0
    then Qceiling (inject_Z total_items / inject_Z page_size)
    else 0 in
  PageMeta.Make page page_size total_items page_count (page >? 1)
    (page <? page_count).

(** The fields of [PageOptionsDto] that [paginate_query] reads. *)
Record PageOptions := MkPageOptions {
  opt_page : Z;
  opt_page_size : Z;
  opt_is_dropdown : bool }.

(** The validation of [PageOptionsDto]: [page >= 1] and
    [1 <= page_size <= 100]. *)
Definition page_options_dto (page page_size : Z) (is_dropdown : bool)
    : result PageOptions :=
  if (1 <=? page) && (1 <=? page_size) && (page_size <=? 100)
  then Ok (MkPageOptions page page_size is_dropdown)
  else Raise (mk_exn ValueError "validation error for PageOptionsDto").

Record PageDto (B : Type) := MkPageDto {
  data : list B;
  meta : PageMeta.t }.
Arguments MkPageDto {B} data meta.
Arguments data {B} p.
Arguments meta {B} p.

(** [PaginationHelper.paginate_query] on a query that yields the rows
    [items]; [convert_to_model] is the conversion of a row to the response
    model, which may raise. A negative [OFFSET] or [LIMIT] is an error of
    the database. *)
Definition paginate_query {A B} (items : list A) (page_options : PageOptions)
    (convert_to_model : A -> result B) : result (PageDto B) :=
  if opt_is_dropdown page_options then
    match traverse convert_to_model items with
    | Raise e => Raise e
    | Ok data =>
        Ok (MkPageDto data
              (PageMeta.Make 1 (len items) (len items) 1 false false))
    end
  else
    let total_items := len items in
    let offset := (opt_page page_options - 1) * opt_page_size page_options in
    if (offset <? 0) || (opt_page_size page_options <? 0)
    then Raise (mk_exn OtherError "OFFSET and LIMIT must not be negative")
    else
      let page_items :=
        take (Z.to_nat (opt_page_size page_options))
          (drop (Z.to_nat offset) items) in
      let meta :=
        create_meta (opt_page page_options) (opt_page_size page_options)
          total_items in
      match traverse convert_to_model page_items with
      | Raise e => Raise e
      | Ok data => Ok (MkPageDto data meta)
      end.

(** ** A scripted outside world, for the examples

    The provider answers by two given functions, the clock and the UUID
    generator count the calls made so far, and the database never
    fails. *)
Module Demo.

Definition settings : Settings := {|
  env_EMBEDDING_BATCH_SIZE := 5;
  env_EMBEDDING_MAX_RETRIES := 5;
  CHATBOT_INTENT_MODEL := u "gemini-2.5-flash";
  CHATBOT_RESPONSE_MODEL := u "gemini-2.5-flash" |}.

(** The same with 2000 retries of an embedding request. *)
Definition many_retries : Settings := {|
  env_EMBEDDING_BATCH_SIZE := 5;
  env_EMBEDDING_MAX_RETRIES := 2000;
  CHATBOT_INTENT_MODEL := u "gemini-2.5-flash";
  CHATBOT_RESPONSE_MODEL := u "gemini-2.5-flash" |}.

Definition dot (a b : vector) : Q :=
  foldr Qplus 0%Q (zip_with Qmult a b).

(** [%x%] matches the texts that contain [x], letter case apart; the
    examples use no other wildcard. *)
Definition ilike_contains (text pattern : str) : bool :=
  contains (lower text)
    (lower (slice pattern 1 (len pattern - 1))).

(** [float(s)] for the decimal notations of JSON, with blanks around. *)
Definition float_of_decimal (s : str) : option Q :=
  let parsed :=
    match strip s with
    | 45%N :: rest => JsonParser.parse_number true rest
    | 43%N :: rest => JsonParser.parse_number false rest
    | rest => JsonParser.parse_number false rest
    end in
  match parsed with
  | Some (JInt z, []) => Some (inject_Z z)
  | Some (JFloat q, []) => Some q
  | _ => None
  end.

Definition number_of (ds : str) : option Z :=
  if forallb JsonParser.is_digit ds && truthy ds
  then Some (JsonParser.digits_value ds) else None.

(** [datetime.fromisoformat] for [YYYY-MM-DD] and
    [YYYY-MM-DDTHH:MM:SS]. *)
Definition fromisoformat_basic (s : str) : option datetime :=
  let field i j := number_of (slice s i j) in
  let sep i c := str_eqb (slice s i (i + 1)) [c] in
  match field 0 4, field 5 7, field 8 10 with
  | Some y, Some m, Some d =>
      if sep 4 45%N && sep 7 45%N then
        if len s =? 10 then Some (DateTime y m d 0 0 0 0)
        else
          match field 11 13, field 14 16, field 17 19 with
          | Some hh, Some mm, Some ss =>
              if (len s =? 19) && sep 13 58%N && sep 16 58%N
              then Some (DateTime y m d hh mm ss 0) else None
          | _, _, _ => None
          end
      else None
  | _, _, _ => None
  end.

(** A JSON string literal, as [json.dumps(..., ensure_ascii=False)]
    writes it. *)
Definition dump_char (c : N) : str :=
  if (c =? 34)%N then [92; 34]%N
  else if (c =? 92)%N then [92; 92]%N
  else if (c =? 10)%N then [92; 110]%N
  else if (c =? 13)%N then [92; 114]%N
  else if (c =? 9)%N then [92; 116]%N
  else if (c =? 8)%N then [92; 98]%N
  else if (c =? 12)%N then [92; 102]%N
  else if (c <? 32)%N then
    u "\u00" ++ [(if (c <? 16)%N then 48 else 49)%N]
    ++ [(let h := (c mod 16)%N in if (h <? 10)%N then 48 + h else 87 + h)%N]
  else [c].

Definition dump_str (s : str) : str :=
  [34%N] ++ concat (map dump_char s) ++ [34%N].

(** A rational with a finite decimal expansion, in positional notation
    with a fractional part. *)
Definition dump_float (q : Q) : str :=
  let q := Qred q in
  let n := Qnum q in
  let d := Zpos (Qden q) in
  let whole := Z.abs n / d in
  let fix frac (fuel : nat) (r : Z) : str :=
    match fuel with
    | O => []
    | S fuel' =>
        if r =? 0 then []
        else (48 + Z.to_N (r * 10 / d))%N :: frac fuel' (r * 10 mod d)
    end in
  let digits := frac 17%nat (Z.abs n mod d) in
  (if n <? 0 then [45%N] else []) ++ str_of_int whole ++ [46%N]
  ++ (if truthy digits then digits else [48%N]).

Fixpoint dumps (v : json) : str :=
  match v with
  | JNull => u "null"
  | JBool true => u "true"
  | JBool false => u "false"
  | JInt z => str_of_int z
  | JFloat q => dump_float q
  | JStr s => dump_str s
  | JArr items => [91%N] ++ join (u ", ") (map dumps items) ++ [93%N]
  | JObj members =>
      [123%N]
      ++ join (u ", ")
           (map (fun kv => dump_str (fst kv) ++ u ": " ++ dumps (snd kv))
              members)
      ++ [125%N]
  end.

(** The library of the examples. Cosine distance is one minus the dot
    product, as it is on vectors of norm one. *)
Definition library : Library := {|
  json_loads := JsonParser.loads;
  float_of_str := float_of_decimal;
  fromisoformat := fromisoformat_basic;
  ilike := ilike_contains;
  cosine_distance := fun a b => Qred (1 - dot a b);
  json_dumps := dumps |}.

(** An outside world whose database round trips fail from the [k]-th
    consultation of the outside on. *)
Definition external_failing_from (k : nat)
    (embed : contents -> result embed_response)
    (generate : list str -> result (option str)) : External nat := {|
  embed_content := fun c _ n => (embed c, S n);
  generate_content := fun _ parts n => (generate parts, S n);
  time_time := fun n => (inject_Z (Z.of_nat n), S n);
  datetime_now := fun n => (DateTime 2024 1 1 0 0 (Z.of_nat n) 0, S n);
  uuid4 := fun n => (u "uuid-" ++ str_of_int (Z.of_nat n), S n);
  db_fault := fun n =>
    (if (k <=? n)%nat
     then Some (Exn OtherError None (u "connection lost")) else None,
     S n);
  time_sleep := fun n => (None, S n) |}.

Definition external
    (embed : contents -> result embed_response)
    (generate : list str -> result (option str)) : External nat := {|
  embed_content := fun c _ n => (embed c, S n);
  generate_content := fun _ parts n => (generate parts, S n);
  time_time := fun n => (inject_Z (Z.of_nat n), S n);
  datetime_now := fun n => (DateTime 2024 1 1 0 0 (Z.of_nat n) 0, S n);
  uuid4 := fun n => (u "uuid-" ++ str_of_int (Z.of_nat n), S n);
  db_fault := fun n => (None, S n);
  time_sleep := fun n => (None, S n) |}.

(** A schema that accepts the notes that have a creation date, as they
    are. *)
Definition schemas : Schemas := {|
  NoteSchema := Note.t;
  model_validate := fun n =>
    match Note.created_at n with
    | Some _ => Ok n
    | None => Raise (mk_exn ValueError "validation error for Note")
    end |}.

Definition empty_store : Store := MkStore [] [] [] [] [].

Definition world (s : Store) : World nat := MkWorld 0%nat (MkDb s s 1 1) [].

(** A provider of embeddings that answers every text with the same
    vector, and one that always fails. *)
Definition embed_constant (v : vector) (c : contents)
    : result embed_response :=
  match c with
  | Single _ => Ok (Some [Some v])
  | Batch texts => Ok (Some (map (fun _ => Some v) texts))
  end.

Definition embed_down (c : contents) : result embed_response :=
  Raise (Exn OtherError None (u "provider unavailable")).

(** A provider of embeddings that answers every request with a
    rate-limit error. *)
Definition embed_quota (c : contents) : result embed_response :=
  Raise (Exn ClientError (Some 429) (u "RESOURCE_EXHAUSTED")).

Definition generate_text (answer : str) (parts : list str)
    : result (option str) :=
  Ok (Some answer).

(** One note of user 7 with two chunks, whose embeddings are the two unit
    vectors of the plane, and one open session of that user. *)
Definition note1 : Note.t :=
  Note.Make 1 7 None (u "T") None None None None false
    (Some (DateTime 2024 1 1 0 0 0 0)).

Definition chunk_ab : NoteChunk.t :=
  NoteChunk.Make 1 1 (u "ab") 0 (u "content") (Some [1; 0]%Q) None None None.

Definition chunk_cd : NoteChunk.t :=
  NoteChunk.Make 2 1 (u "cd") 1 (u "content") (Some [0; 1]%Q) None None None.

Definition session1 : ChatbotSession.t :=
  ChatbotSession.Make (u "s1") 7 None None true.

Definition store1 : Store :=
  MkStore [] [note1] [chunk_ab; chunk_cd] [session1] [].

(** A second user's data beside the first's: an audio file of user 7 with
    a note on it, a note of user 8, an open session of each, and the three
    messages exchanged so far. *)
Definition audio1 : AudioFile.t :=
  AudioFile.Make 1 7 (u "standup.mp3") (Some 60%Q)
    (Some (u "We agreed on the budget.")) (Some (DateTime 2024 1 2 9 0 0 0)).

Definition note2 : Note.t :=
  Note.Make 2 7 (Some 1) (u "Standup") (Some (u "We agreed on the budget."))
    None (Some (u "meeting")) None false (Some (DateTime 2024 1 2 9 30 0 0)).

Definition note3 : Note.t :=
  Note.Make 3 8 None (u "Private") (Some (u "Not yours.")) None
    (Some (u "personal")) None false (Some (DateTime 2024 1 3 0 0 0 0)).

Definition chunk_ef : NoteChunk.t :=
  NoteChunk.Make 3 2 (u "ef") 0 (u "content") (Some [1; 1]%Q) None None None.

Definition chunk_gh : NoteChunk.t :=
  NoteChunk.Make 4 2 (u "gh") 0 (u "summary") (Some [1; 0]%Q) None None None.

Definition chunk_private : NoteChunk.t :=
  NoteChunk.Make 5 3 (u "ij") 0 (u "content") (Some [1; 0]%Q) None None None.

Definition session2 : ChatbotSession.t :=
  ChatbotSession.Make (u "s2") 8 (Some (u "Other")) (Some 1) true.

Definition message1 : ChatbotMessage.t :=
  ChatbotMessage.Make (u "m1") (u "s1") (u "user") (Some (u "hello"))
    (Some (u "chat")) (Some (JObj [])) None None None None None
    (DateTime 2024 1 4 10 0 0 0).

Definition message2 : ChatbotMessage.t :=
  ChatbotMessage.Make (u "m2") (u "s1") (u "assistant") (Some (u "hi"))
    (Some (u "chat")) None None (Some [1]) (Some [2; 1]) (Some 12)
    (Some 1%Q) (DateTime 2024 1 4 10 0 1 0).

Definition message3 : ChatbotMessage.t :=
  ChatbotMessage.Make (u "m3") (u "s2") (u "user") (Some (u "secret"))
    (Some (u "chat")) (Some (JObj [])) None None None None None
    (DateTime 2024 1 4 10 0 0 500).

Definition store2 : Store :=
  MkStore [audio1] [note1; note2; note3]
    [chunk_ab; chunk_cd; chunk_ef; chunk_gh; chunk_private]
    [session1; session2] [message1; message3; message2].

(** The providers of the examples. *)
Definition constant_provider : External nat :=
  external (embed_constant [1; 0]%Q) (generate_text (u "ok")).

Definition down_provider : External nat :=
  external embed_down (generate_text (u "ok")).

Definition quota_provider : External nat :=
  external embed_quota (generate_text (u "ok")).

(** A provider whose model answers the classifier with [answer]. *)
Definition answering (answer : str) : External nat :=
  external (embed_constant [1; 0]%Q) (generate_text answer).

(** An answer of the classifier with two JSON objects in it, and one
    that is a JSON array. *)
Definition two_objects : str :=
  quoted (u "{§intent§:§search§} and {§x§:1}").

Definition an_array : str := u "[1]".

(** A text of 113 characters between its blanks, with four sentences. *)
Definition minutes : str :=
  Eval vm_compute in
  u "  The meeting opened at nine. Budget figures were reviewed by the whole team! Who will send the minutes? Anna will.  ".

End Demo.

(* ===================================================================== *)
(** * Specification vocabulary                                            *)
(* ===================================================================== *)

(** A batch the batcher may close: non-empty, and either within both
    ceilings or the single index of a text over the token ceiling. *)
Definition batch_ok (texts : list str) (max_batch_size : Z) (b : list nat)
    : Prop :=
  b <> [] /\
  ((len b <= max_batch_size /\ batch_tokens texts b <= _MAX_TOKENS_PER_BATCH)
   \/ exists i text, b = [i] /\ texts !! i = Some text
        /\ _estimate_token_count text > _MAX_TOKENS_PER_BATCH).

(** The loop invariant after the texts [texts] have been walked. *)
Record batch_inv (texts : list str) (max_batch_size : Z) (st : batch_state)
    : Prop := {
  inv_concat :
    concat (batches st) ++ current_batch st = seq 0 (length texts);
  inv_closed : Forall (batch_ok texts max_batch_size) (batches st);
  inv_size : len (current_batch st) <= max_batch_size;
  inv_tokens : current_tokens st = batch_tokens texts (current_batch st);
  inv_ceiling : current_tokens st <= _MAX_TOKENS_PER_BATCH }.

(** What holds of every emitted chunk dictionary: the token estimate is
    the floor of a quarter of the length of the emitted text, which is
    not empty. *)
Definition chunk_estimate_ok (c : ChunkDict.t) : Prop :=
  ChunkDict.token_count c = len (ChunkDict.chunk_text c) / 4
  /\ 0 <= ChunkDict.token_count c
  /\ ChunkDict.chunk_text c <> [].

(** The estimate as the specification words it: the ceiling. *)
Definition chunk_estimate_ceiling (c : ChunkDict.t) : Prop :=
  ChunkDict.token_count c = (len (ChunkDict.chunk_text c) + 3) / 4.

(** A computation whose every run relates the world before to the world
    after by [R]. *)
Definition respects {Ext A} (R : World Ext -> World Ext -> Prop)
    (m : M Ext A) : Prop :=
  forall w, R w (snd (m w)).

(** The database is as before, and the events added to the log all
    satisfy [p]. *)
Definition reads_only {Ext} (p : event -> bool) (w w' : World Ext) : Prop :=
  db w' = db w
  /\ exists evs, log w' = log w ++ evs /\ forallb p evs = true.

Definition is_tx (e : event) : bool :=
  match e with
  | EvCommit | EvRollback => true
  | _ => false
  end.

Definition not_tx (e : event) : bool := negb (is_tx e).

Definition is_embed (e : event) : bool :=
  match e with
  | EvEmbed _ _ => true
  | _ => false
  end.

Section Vocabulary.
Context `{Library}.

(** The similarity of a chunk to the query: one minus the cosine
    distance. *)
Definition similarity_of (query_embedding : vector) (chunk : NoteChunk.t)
    : option Q :=
  match distance_of query_embedding chunk with
  | Some d => Some (1 - d)%Q
  | None => None
  end.

(** [a] ranks at least as high as [b]: its similarity is at least that of
    [b]; a chunk without embedding ranks last. *)
Definition ranks_before (query_embedding : vector) (a b : NoteChunk.t)
    : Prop :=
  match similarity_of query_embedding a, similarity_of query_embedding b with
  | Some x, Some y => (y <= x)%Q
  | _, None => True
  | None, Some _ => False
  end.

(** The value [classify_intent] returns for each outcome of the call to
    the model. *)
Definition parse_chain (text : str) : json :=
  match json_loads text with
  | Some p => p
  | None =>
      match search_braces text with
      | Some g =>
          match json_loads g with
          | Some p => p
          | None => JNull
          end
      | None => JNull
      end
  end.

Definition classified (r : result (option str)) : json :=
  match r with
  | Ok (Some text) =>
      if json_truthy (parse_chain text) then parse_chain text
      else JObj default_intent
  | Ok None =>
      JObj (default_intent ++ [(u "error", JStr (exn_str none_text_error))])
  | Raise e => JObj (default_intent ++ [(u "error", JStr (exn_str e))])
  end.

End Vocabulary.

(** Modelled from the specification's words, for comparison with
    [search_braces]: the first balanced [{...}] substring of a text, that
    is, from the first opening brace that has a matching closing brace
    to that closing brace. *)
Fixpoint balanced_rest (s : str) (depth : nat) : option str :=
  match s with
  | [] => None
  | c :: rest =>
      if (c =? 123)%N then
        match balanced_rest rest (S depth) with
        | Some p => Some (c :: p)
        | None => None
        end
      else if (c =? 125)%N then
        match depth with
        | O => Some [c]
        | S depth' =>
            match balanced_rest rest depth' with
            | Some p => Some (c :: p)
            | None => None
            end
        end
      else
        match balanced_rest rest depth with
        | Some p => Some (c :: p)
        | None => None
        end
  end.

Fixpoint first_balanced (s : str) : option str :=
  match s with
  | [] => None
  | c :: rest =>
      if (c =? 123)%N then
        match balanced_rest rest 0 with
        | Some p => Some (c :: p)
        | None => first_balanced rest
        end
      else first_balanced rest
  end.

(** A stored chunk whose embedding is there: not [None], and not empty. *)
Definition chunk_embedded (c : NoteChunk.t) : Prop :=
  exists v, NoteChunk.embedding c = Some v /\ v <> [].

(** Every chunk row of the world after, pending or committed, was a row
    of the world before or has its embedding. *)
Definition chunks_grow_embedded {Ext} (w w' : World Ext) : Prop :=
  forall c,
    c ∈ note_chunks (pending (db w')) \/ c ∈ note_chunks (committed (db w')) ->
    c ∈ note_chunks (pending (db w)) \/ c ∈ note_chunks (committed (db w))
    \/ chunk_embedded c.

(** The rows after a turn on the session [session_id]: the two messages
    are appended and the session row is updated; nothing else changes. *)
Definition store_after_turn (session_id message : str)
    (user_msg assistant_msg : ChatbotMessage.t) (s : Store) : Store :=
  MkStore (audio_files s) (notes s) (note_chunks s)
    (map (fun row =>
            if str_eqb (ChatbotSession.session_id row) session_id
            then session_after_turn message row else row)
       (chatbot_sessions s))
    (chatbot_messages s ++ [user_msg; assistant_msg]).

(** The world [w'] holds the turn [t] of [w] committed in full: the rows
    pending in [w], with a user message and the assistant message of the
    turn appended and the session updated, are committed, nothing else is
    pending, and the one transaction event since [w] is the commit, which
    comes last. *)
Definition turn_committed {Ext} (session_id message : str) (t : turn)
    (assistant_msg : ChatbotMessage.t) (w w' : World Ext) : Prop :=
  exists user_msg evs,
    (ChatbotMessage.role user_msg = u "user"
     /\ ChatbotMessage.session_id user_msg = session_id
     /\ ChatbotMessage.content user_msg = Some message)
    /\ (ChatbotMessage.role assistant_msg = u "assistant"
        /\ ChatbotMessage.session_id assistant_msg = session_id
        /\ ChatbotMessage.content assistant_msg = text (t_result t)
        /\ ChatbotMessage.retrieved_chunks assistant_msg
           = ids_or_none NoteChunk.id (chunks_of (t_retrieved t))
        /\ ChatbotMessage.retrieved_audio_ids assistant_msg
           = ids_or_none AudioFile.id (audio_files_of (t_retrieved t))
        /\ ChatbotMessage.retrieved_note_ids assistant_msg
           = ids_or_none Note.id (notes_of (t_retrieved t))
        /\ ChatbotMessage.response_time_ms assistant_msg
           = Some (t_response_time t)
        /\ ChatbotMessage.confidence_score assistant_msg
           = Some (t_confidence t))
    /\ committed (db w')
       = store_after_turn session_id message user_msg assistant_msg
           (pending (db w))
    /\ pending (db w') = committed (db w')
    /\ log w' = log w ++ evs ++ [EvCommit]
    /\ forallb not_tx evs = true.

(** The sum of the lengths of the blocks of a context. *)
Definition total_len (parts : list str) : Z :=
  foldr (fun p acc => len p + acc) 0 parts.

(* ===================================================================== *)
(** * Part II.  Properties                                                *)
(* ===================================================================== *)

(** ** Token-aware batching *)

Lemma enumerate_snoc {A} (l : list A) (x : A) :
  enumerate (l ++ [x]) = enumerate l ++ [(length l, x)].
Proof.
  unfold enumerate. rewrite length_app. simpl.
  rewrite Nat.add_1_r, seq_S. simpl.
  rewrite zip_with_app by (now rewrite length_seq). reflexivity.
Qed.

Lemma batch_tokens_app (texts : list str) (a b : list nat) :
  batch_tokens texts (a ++ b) = batch_tokens texts a + batch_tokens texts b.
Proof.
  unfold batch_tokens. induction a as [|i a IH]; simpl; [lia|].
  rewrite IH. lia.
Qed.

Lemma batch_tokens_mono (texts : list str) (x : str) (b : list nat) :
  Forall (fun i => (i < length texts)%nat) b ->
  batch_tokens (texts ++ [x]) b = batch_tokens texts b.
Proof.
  unfold batch_tokens. induction 1 as [|i b Hi Hb IH]; simpl; [reflexivity|].
  rewrite IH, lookup_app_l by exact Hi. reflexivity.
Qed.

Lemma in_seq_concat (bs : list (list nat)) (cur : list nat) (n : nat) :
  concat bs ++ cur = seq 0 n ->
  Forall (Forall (fun i => (i < n)%nat)) bs /\ Forall (fun i => (i < n)%nat) cur.
Proof.
  intros E.
  assert (Hall : Forall (fun i => (i < n)%nat) (concat bs ++ cur)).
  { rewrite E. apply Forall_forall. intros i Hi.
    apply elem_of_seq in Hi. lia. }
  apply Forall_app in Hall as [Hbs Hcur]. split; [|exact Hcur].
  clear E Hcur. induction bs as [|b bs IH]; simpl in *; constructor.
  - now apply Forall_app in Hbs as [? _].
  - apply IH. now apply Forall_app in Hbs as [_ ?].
Qed.

Lemma batch_ok_mono (texts : list str) (x : str) (m : Z) (b : list nat) :
  Forall (fun i => (i < length texts)%nat) b ->
  batch_ok texts m b -> batch_ok (texts ++ [x]) m b.
Proof.
  intros Hb [Hne Hok]. split; [exact Hne|].
  destruct Hok as [[Hs Ht]|(i & t & -> & Hi & Ht)].
  - left. split; [exact Hs|]. now rewrite batch_tokens_mono.
  - right. exists i, t. repeat split; [|exact Ht].
    rewrite lookup_app_l; [exact Hi|]. now apply lookup_lt_Some in Hi.
Qed.

Lemma batch_tokens_last (texts : list str) (x : str) :
  batch_tokens (texts ++ [x]) [length texts] = _estimate_token_count x.
Proof.
  unfold batch_tokens. simpl.
  rewrite lookup_app_r, Nat.sub_diag by lia. simpl. lia.
Qed.

Lemma truthy_nil {A} (l : list A) : truthy l = false -> l = [].
Proof. now destruct l. Qed.

Lemma truthy_cons {A} (l : list A) : truthy l = true -> l <> [].
Proof. now destruct l. Qed.

Ltac list_norm :=
  repeat (simpl; rewrite ?concat_app, ?app_nil_r, <- ?app_assoc);
  try reflexivity.

Lemma batch_inv_init (m : Z) : 0 < m -> batch_inv [] m (BatchState [] [] 0).
Proof.
  intros Hm. constructor; simpl.
  - reflexivity.
  - constructor.
  - unfold len. simpl. lia.
  - reflexivity.
  - unfold _MAX_TOKENS_PER_BATCH. lia.
Qed.

Lemma batch_inv_step (texts : list str) (x : str) (m : Z) (st : batch_state) :
  0 < m ->
  batch_inv texts m st ->
  batch_inv (texts ++ [x]) m (batch_step m st (length texts, x)).
Proof.
  intros Hm [Hcat Hclosed Hsize Htok Hceil].
  destruct (in_seq_concat _ _ _ Hcat) as [Hbs Hcur].
  assert (Hclosed' : Forall (batch_ok (texts ++ [x]) m) (batches st)).
  { clear - Hclosed Hbs. induction Hclosed as [|b bs Hb _ IH]; constructor.
    - apply batch_ok_mono; [now inversion Hbs|exact Hb].
    - apply IH. now inversion Hbs. }
  assert (Hcur_ok : current_batch st <> [] ->
            batch_ok (texts ++ [x]) m (current_batch st)).
  { intros Hne. split; [exact Hne|]. left. split; [exact Hsize|].
    rewrite batch_tokens_mono by exact Hcur. lia. }
  assert (Hseq : seq 0 (length (texts ++ [x])) = seq 0 (length texts) ++ [length texts]).
  { rewrite length_app. simpl. now rewrite Nat.add_1_r, seq_S. }
  unfold batch_step.
  destruct (_estimate_token_count x >? _MAX_TOKENS_PER_BATCH) eqn:Hbig.
  - (* an oversized text: its own batch *)
    assert (Hx : batch_ok (texts ++ [x]) m [length texts]).
    { split; [discriminate|]. right. exists (length texts), x.
      repeat split; [|lia].
      rewrite lookup_app_r, Nat.sub_diag by lia. reflexivity. }
    destruct (truthy (current_batch st)) eqn:Hcb.
    + constructor; cbn [batches current_batch current_tokens].
      * rewrite Hseq, <- Hcat. list_norm.
      * apply Forall_app. split; [apply Forall_app; split|]; auto.
        constructor; [|constructor]. apply Hcur_ok. now apply truthy_cons.
      * unfold len. simpl. lia.
      * reflexivity.
      * unfold _MAX_TOKENS_PER_BATCH. lia.
    + apply truthy_nil in Hcb. constructor; cbn [batches current_batch current_tokens].
      * rewrite Hseq, <- Hcat, Hcb. list_norm.
      * apply Forall_app; split; auto.
      * exact Hsize.
      * rewrite Htok, Hcb. reflexivity.
      * exact Hceil.
  - destruct ((current_tokens st + _estimate_token_count x >? _MAX_TOKENS_PER_BATCH)
              || (len (current_batch st) >=? m)) eqn:Hfull.
    + (* a new batch is started *)
      constructor; cbn [batches current_batch current_tokens].
      * rewrite Hseq, <- Hcat.
        destruct (truthy (current_batch st)) eqn:Hcb.
        -- list_norm.
        -- apply truthy_nil in Hcb. rewrite Hcb. list_norm.
      * destruct (truthy (current_batch st)) eqn:Hcb; [|exact Hclosed'].
        apply Forall_app; split; [exact Hclosed'|].
        constructor; [|constructor]. apply Hcur_ok. now apply truthy_cons.
      * unfold len. simpl. lia.
      * now rewrite batch_tokens_last.
      * lia.
    + (* the text joins the current batch *)
      apply orb_false_iff in Hfull as [Ht Hs].
      constructor; cbn [batches current_batch current_tokens].
      * rewrite Hseq, <- Hcat. list_norm.
      * exact Hclosed'.
      * unfold len in *. rewrite length_app. simpl. lia.
      * rewrite batch_tokens_app, batch_tokens_last.
        rewrite batch_tokens_mono by exact Hcur. lia.
      * lia.
Qed.

Lemma batch_inv_fold (m : Z) (texts : list str) :
  0 < m ->
  batch_inv texts m
    (fold_left (batch_step m) (enumerate texts) (BatchState [] [] 0)).
Proof.
  intros Hm. induction texts as [|x texts IH] using rev_ind.
  - now apply batch_inv_init.
  - rewrite enumerate_snoc, fold_left_app. simpl.
    now apply batch_inv_step.
Qed.

Lemma batches_partition (texts : list str) (max_batch_size : Z) :
  0 < max_batch_size ->
  concat (_create_token_aware_batches texts max_batch_size)
    = seq 0 (length texts)
  /\ Forall (batch_ok texts max_batch_size)
       (_create_token_aware_batches texts max_batch_size).
Proof.
  intros Hm. unfold _create_token_aware_batches.
  destruct (batch_inv_fold max_batch_size texts Hm)
    as [Hcat Hclosed Hsize Htok Hceil].
  destruct (truthy (current_batch _)) eqn:Hcb.
  - split.
    + rewrite <- Hcat. list_norm.
    + apply Forall_app; split; [exact Hclosed|].
      constructor; [|constructor]. split; [now apply truthy_cons|].
      left. split; [exact Hsize|]. lia.
  - split; [|exact Hclosed].
    apply truthy_nil in Hcb. now rewrite Hcb, app_nil_r in Hcat.
Qed.

(** C7. For a positive batch-size ceiling, the batches concatenate to the
    index sequence [0 .. len(texts) - 1], and each batch is non-empty and
    either stays within both the batch-size ceiling and the token ceiling
    on its estimated size, or is the singleton of one text whose own
    estimate exceeds the token ceiling. *)
Theorem token_aware_batches_partition (texts : list str)
    (max_batch_size : Z) :
  0 < max_batch_size ->
  concat (_create_token_aware_batches texts max_batch_size)
    = seq 0 (length texts)
  /\ Forall (batch_ok texts max_batch_size)
       (_create_token_aware_batches texts max_batch_size).
Proof. apply batches_partition. Qed.

Lemma token_aware_batches_partition_witness :
  0 < 2
  /\ concat (_create_token_aware_batches [u "a"; u "bb"; u "ccc"] 2)
       = seq 0 3
  /\ Forall (batch_ok [u "a"; u "bb"; u "ccc"] 2)
       (_create_token_aware_batches [u "a"; u "bb"; u "ccc"] 2).
Proof.
  split; [lia|].
  apply (token_aware_batches_partition [u "a"; u "bb"; u "ccc"] 2). lia.
Defined.

(** ** The text chunker *)

Lemma len_nonneg {A} (l : list A) : 0 <= len l.
Proof. unfold len. lia. Qed.

Lemma chunk_iter_estimate (text : str) (size overlap : Z) (ty : str)
    (st : chunk_loop_state) :
  Forall chunk_estimate_ok (chunks st) ->
  Forall chunk_estimate_ok (chunks (fst (chunk_iter text size overlap ty st))).
Proof.
  intros Hst. unfold chunk_iter. cbn [fst chunks].
  destruct (truthy (strip _)) eqn:Hp; cbn [chunks]; [|exact Hst].
  apply Forall_app. split; [exact Hst|].
  constructor; [|constructor].
  unfold chunk_estimate_ok. cbn [ChunkDict.token_count ChunkDict.chunk_text].
  split; [reflexivity|]. split.
  - apply Z.div_pos; [apply len_nonneg|lia].
  - now apply truthy_cons.
Qed.

Lemma chunk_loop_estimate (fuel : nat) (text : str) (size overlap : Z)
    (ty : str) (st : chunk_loop_state) :
  Forall chunk_estimate_ok (chunks st) ->
  Forall chunk_estimate_ok
    (chunks (fst (chunk_loop fuel text size overlap ty st))).
Proof.
  revert st. induction fuel as [|fuel IH]; intros st Hst; cbn [chunk_loop].
  - destruct (start st <? len text); exact Hst.
  - destruct (start st <? len text); [|exact Hst].
    pose proof (chunk_iter_estimate text size overlap ty st Hst) as Hit.
    destruct (chunk_iter text size overlap ty st) as [st' goes_on].
    destruct goes_on; [now apply IH|exact Hit].
Qed.

(** C9, as the code has it. Every chunk [chunk_text] emits, at any point
    of its loop, has [token_count] equal to the floor of
    [len(chunk_text) / 4] for the emitted (stripped, non-empty) text; the
    count is never negative. *)
Theorem chunk_token_count_floor (fuel : nat) (text : str)
    (chunk_size chunk_overlap : Z) (chunk_type : str) :
  Forall chunk_estimate_ok
    (fst (chunk_text_run fuel text chunk_size chunk_overlap chunk_type)).
Proof.
  unfold chunk_text_run.
  destruct (negb (truthy text) || negb (truthy (strip text)));
    [constructor|].
  match goal with
  | |- context [chunk_loop ?f ?t ?s ?o ?ty ?st] =>
      pose proof (chunk_loop_estimate f t s o ty st) as Hl;
      destruct (chunk_loop f t s o ty st) as [st' fin]
  end.
  apply Hl. constructor.
Qed.

(** C9, as stated: the count is not the ceiling. [chunk_text("abc")]
    returns one chunk whose text has three characters and whose
    [token_count] is 0, while the ceiling of 3/4 is 1. *)
Lemma chunk_token_count_not_ceiling :
  exists c,
    chunk_text 1 (u "abc") 1500 200 (u "content") = Some [c]
    /\ ChunkDict.chunk_text c = u "abc"
    /\ ChunkDict.token_count c = 0
    /\ ~ chunk_estimate_ceiling c.
Proof.
  eexists. split; [reflexivity|]. split; [reflexivity|].
  split; [reflexivity|]. intros Hc. vm_compute in Hc. discriminate.
Qed.

(** *** Termination for the sizes the write paths use *)

Lemma first_ending_lower (text : str) (i : Z) (endings : list str) (b : Z) :
  Forall (fun e => 1 <= len e) endings ->
  first_ending text i endings = Some b -> i + 1 <= b.
Proof.
  induction 1 as [|e es He _ IH]; simpl; [discriminate|].
  destruct (str_eqb _ e); [|exact IH].
  intros [= <-]. lia.
Qed.

Lemma sentence_endings_len : Forall (fun e => 1 <= len e) sentence_endings.
Proof. repeat constructor; vm_compute; discriminate. Qed.

Lemma scan_break_lower (text : str) (end_ lo : Z) (positions : list Z)
    (best : Z) :
  Forall (fun i => lo <= i) positions ->
  lo + 1 <= best ->
  lo + 1 <= scan_break text end_ positions best.
Proof.
  intros Hpos. revert best.
  induction Hpos as [|i ps Hi _ IH]; intros best Hb; cbn [scan_break];
    [exact Hb|].
  destruct (first_ending text i sentence_endings) as [b|] eqn:Hf.
  - apply first_ending_lower in Hf; [|exact sentence_endings_len].
    destruct (b =? end_); [apply IH|]; lia.
  - destruct (best =? end_); [apply IH|]; lia.
Qed.

Lemma range_down_lower (a b : Z) : Forall (fun i => b + 1 <= i) (range_down a b).
Proof.
  unfold range_down. apply Forall_forall. intros i Hi.
  apply list_elem_of_fmap in Hi as (k & -> & Hk).
  apply elem_of_seq in Hk. lia.
Qed.

(** A round that does not leave the loop moves [start] forward by at
    least [chunk_size - 48 - chunk_overlap]. *)
Lemma chunk_iter_progress (text : str) (size overlap : Z) (ty : str)
    (st st' : chunk_loop_state) :
  chunk_iter text size overlap ty st = (st', true) ->
  start st + (size - 48 - overlap) <= start st'.
Proof.
  unfold chunk_iter. intros [= <- Hgo]. cbn [start].
  apply negb_true_iff, orb_false_iff in Hgo as [_ Hend].
  destruct (start st + size <? len text) eqn:Hlt.
  - assert (Hs : start st + size - 49 + 1
                   <= scan_break text (start st + size)
                        (range_down
                           (Z.min (start st + size + 50) (len text) - 1)
                           (start st + size - 50)) (start st + size)).
    { apply scan_break_lower; [|lia].
      eapply Forall_impl; [apply range_down_lower|]. intros; cbn in *; lia. }
    lia.
  - rewrite Z.eqb_refl in Hend. discriminate.
Qed.

Lemma chunk_loop_finishes (fuel : nat) (text : str) (size overlap : Z)
    (ty : str) (st : chunk_loop_state) :
  49 <= size - overlap ->
  len text - start st <= Z.of_nat fuel ->
  snd (chunk_loop fuel text size overlap ty st) = true.
Proof.
  intros Hstep. revert st.
  induction fuel as [|fuel IH]; intros st Hfuel; cbn [chunk_loop].
  - destruct (start st <? len text) eqn:Hlt; [lia|reflexivity].
  - destruct (start st <? len text) eqn:Hlt; [|reflexivity].
    destruct (chunk_iter text size overlap ty st) as [st' goes_on] eqn:Hit.
    destruct goes_on; [|reflexivity].
    apply chunk_iter_progress in Hit. apply IH. lia.
Qed.

Lemma length_lstrip_le (s : str) : (length (lstrip s) <= length s)%nat.
Proof.
  induction s as [|c s IH]; simpl; [lia|].
  destruct (isspace c); simpl; lia.
Qed.

Lemma length_strip_le (s : str) : (length (strip s) <= length s)%nat.
Proof.
  unfold strip, rstrip. rewrite length_rev.
  etransitivity; [apply length_lstrip_le|].
  rewrite length_rev. apply length_lstrip_le.
Qed.

(** With the chunk size and overlap every caller passes, [chunk_text]
    returns within [len(text) + 1] rounds of its loop. *)
Lemma chunk_text_returns (text ty : str) :
  chunk_text (S (length text)) text 1500 200 ty
  = Some (chunk_text_1500_200 text ty).
Proof.
  unfold chunk_text_1500_200, chunk_text, chunk_text_run.
  destruct (negb (truthy text) || negb (truthy (strip text)));
    [reflexivity|].
  replace (1500 >? _RECOMMENDED_MAX_CHUNK_SIZE) with false by reflexivity.
  replace (200 >=? 1500) with false by reflexivity. cbv iota.
  match goal with
  | |- context [chunk_loop ?f ?t ?s ?o ?y ?st0] =>
      pose proof (chunk_loop_finishes f t s o y st0 ltac:(lia)) as Hfin;
      destruct (chunk_loop f t s o y st0) as [st fin]
  end.
  cbn [snd fst start] in *. rewrite Hfin; [reflexivity|].
  pose proof (length_strip_le text). unfold len. lia.
Qed.

(** ** Strings *)

Lemma str_eqb_eq (a b : str) : str_eqb a b = true <-> a = b.
Proof.
  revert b. induction a as [|x a IH]; intros [|y b]; simpl;
    try (split; [discriminate|easy]); [easy|].
  rewrite andb_true_iff, N.eqb_eq, IH. split.
  - now intros [-> ->].
  - now intros [= -> ->].
Qed.

Lemma str_eqb_refl (a : str) : str_eqb a a = true.
Proof. now apply str_eqb_eq. Qed.

(** ** The context builder *)

Lemma len_app {A} (a b : list A) : len (a ++ b) = len a + len b.
Proof. unfold len. rewrite length_app. lia. Qed.

Lemma total_len_snoc (parts : list str) (p : str) :
  total_len (parts ++ [p]) = total_len parts + len p.
Proof.
  unfold total_len. induction parts as [|q parts IH]; simpl; [lia|].
  rewrite IH. lia.
Qed.

Lemma len_join_newline (parts : list str) :
  parts <> [] ->
  len (join [10%N] parts) = total_len parts + (len parts - 1).
Proof.
  induction parts as [|p parts IH]; [easy|]. intros _.
  destruct parts as [|q parts].
  - unfold total_len, len. simpl. lia.
  - change (join [10%N] (p :: q :: parts))
      with (p ++ [10%N] ++ join [10%N] (q :: parts)).
    rewrite !len_app, IH by easy.
    change (total_len (p :: q :: parts))
      with (len p + total_len (q :: parts)).
    unfold len. simpl. lia.
Qed.

Lemma context_loop_budget (s : Store) (chunks : list NoteChunk.t)
    (max_chars : Z) :
  forall (parts : list str) (total : Z) (out : list str),
    total = total_len parts ->
    (parts = [] \/ total <= max_chars) ->
    context_loop s chunks max_chars parts total = Ok out ->
    out = [] \/ total_len out <= max_chars.
Proof.
  induction chunks as [|c chunks IH]; intros parts total out Ht Hb;
    cbn [context_loop].
  - intros [= <-]. subst. exact Hb.
  - destruct (context_block s c) as [block|e]; [|discriminate].
    destruct (total + len block >? max_chars) eqn:Hover.
    + intros [= <-]. subst. exact Hb.
    + apply IH.
      * rewrite total_len_snoc. lia.
      * right. lia.
Qed.

(** What the loop of [build_context] does keep within the budget: the sum
    of the lengths of the blocks it joins. The separators of the join
    come on top. *)
Lemma build_context_blocks_within_budget (s : Store)
    (chunks : list NoteChunk.t) (max_tokens : Z) (context : str) :
  build_context s chunks max_tokens = Ok context ->
  exists parts,
    context = join [10%N] parts
    /\ (parts = []
        \/ (total_len parts <= max_tokens * 4
            /\ len context = total_len parts + (len parts - 1))).
Proof.
  unfold build_context.
  destruct (context_loop s chunks (max_tokens * 4) [] 0) as [parts|e] eqn:E;
    [|discriminate].
  intros [= <-]. exists parts. split; [reflexivity|].
  destruct parts as [|p parts]; [now left|right].
  apply context_loop_budget in E as [E|E]; [discriminate| |reflexivity|now left].
  split; [exact E|]. now apply len_join_newline.
Qed.

(** C3 at a failing input. With a budget of 29 tokens, that is 116
    characters, and two chunks whose blocks have 58 characters each, both
    blocks pass the test of the loop, and the string returned has 117
    characters: the newline that joins the blocks is not counted. *)
Theorem build_context_over_budget :
  exists context,
    build_context Demo.store1 [Demo.chunk_ab; Demo.chunk_cd] 29 = Ok context
    /\ len context = 117
    /\ 29 * 4 = 116.
Proof. eexists. repeat split. Qed.

(** ** The monad *)

Section Properties.
Context {Ext : Type} `{External Ext} `{Library} `{Settings}.

(** Proofs read the monad through [bind] and [ret]. *)
Ltac mnorm := unfold mbind, M_bind, mret, M_ret in *.

Lemma bind_run {A B} (m : M Ext A) (k : A -> M Ext B) (w : World Ext) :
  bind m k w
  = match m w with
    | (Ok a, w') => k a w'
    | (Raise e, w') => (Raise e, w')
    end.
Proof. reflexivity. Qed.

Lemma bind_ok {A B} (m : M Ext A) (k : A -> M Ext B) (w w' : World Ext) a :
  m w = (Ok a, w') -> bind m k w = k a w'.
Proof. intros E. now rewrite bind_run, E. Qed.

Lemma bind_raise {A B} (m : M Ext A) (k : A -> M Ext B) (w w' : World Ext) e :
  m w = (Raise e, w') -> bind m k w = (Raise e, w').
Proof. intros E. now rewrite bind_run, E. Qed.

Lemma ret_bind {A B} (a : A) (k : A -> M Ext B) (w : World Ext) :
  bind (ret a) k w = k a w.
Proof. reflexivity. Qed.

Lemma ret_run {A} (a : A) (w : World Ext) : ret a w = (Ok a, w).
Proof. reflexivity. Qed.

(** Two continuations that agree on every outcome of [m] give the same
    computation. *)
Lemma bind_cong {A B} (m : M Ext A) (k1 k2 : A -> M Ext B) (w : World Ext) :
  (forall a w', m w = (Ok a, w') -> k1 a w' = k2 a w') ->
  bind m k1 w = bind m k2 w.
Proof.
  intros Hk. rewrite !bind_run.
  destruct (m w) as [[a|e] w'] eqn:E; [now apply Hk|reflexivity].
Qed.

Lemma bind_cong_l {A B} (m1 m2 : M Ext A) (k : A -> M Ext B)
    (w : World Ext) :
  m1 w = m2 w -> bind m1 k w = bind m2 k w.
Proof. intros E. now rewrite !bind_run, E. Qed.

Lemma bind_assoc {A B C} (m : M Ext A) (k : A -> M Ext B)
    (g : B -> M Ext C) (w : World Ext) :
  bind (bind m k) g w = bind m (fun a => bind (k a) g) w.
Proof. rewrite !bind_run. destruct (m w) as [[a|e] w']; reflexivity. Qed.

Lemma bind_inv_ok {A B} (m : M Ext A) (k : A -> M Ext B)
    (w w' : World Ext) (b : B) :
  bind m k w = (Ok b, w') ->
  exists a w1, m w = (Ok a, w1) /\ k a w1 = (Ok b, w').
Proof.
  rewrite bind_run. destruct (m w) as [[a|e] w1]; [|discriminate].
  intros E. now exists a, w1.
Qed.

Lemma lift_inv_ok {A} (r : result A) (w w' : World Ext) (a : A) :
  lift r w = (Ok a, w') -> r = Ok a /\ w' = w.
Proof. destruct r; cbn; intros [= <- <-]; auto. Qed.

Lemma ret_inv_ok {A} (a b : A) (w w' : World Ext) :
  ret a w = (Ok b, w') -> b = a /\ w' = w.
Proof. intros [= <- <-]. auto. Qed.

(** Inversion of a successful run, one step at a time. *)
Ltac binv H :=
  let a := fresh "a" in
  let w := fresh "w" in
  let E := fresh "E" in
  apply bind_inv_ok in H as (a & w & E & H).

Ltac linv H :=
  let E := fresh "E" in
  apply lift_inv_ok in H as [E ->].

Lemma get_db_inv (w w' : World Ext) (d : Db) :
  get_db w = (Ok d, w') -> d = db w /\ w' = w.
Proof. intros [= <- <-]. auto. Qed.

(** Inversion of a successful run of a chain of binds. *)
Ltac minv :=
  repeat match goal with
    | H : bind _ _ _ = (Ok _, _) |- _ => binv H
    | H : lift _ _ = (Ok _, _) |- _ => linv H
    | H : ret _ _ = (Ok _, _) |- _ => apply ret_inv_ok in H as [-> ->]
    | H : get_db _ = (Ok _, _) |- _ => apply get_db_inv in H as [-> ->]
    end.

(** ** Frame rules

    [respects R m] for a reflexive and transitive [R] follows the
    structure of [m]. *)
Section Frame.
Variable R : World Ext -> World Ext -> Prop.
Hypothesis R_refl : forall w, R w w.
Hypothesis R_trans : forall a b c, R a b -> R b c -> R a c.

Lemma respects_ret {A} (a : A) : respects R (ret a : M Ext A).
Proof. intros w. apply R_refl. Qed.

Lemma respects_raise {A} (e : exn) : respects R (raise e : M Ext A).
Proof. intros w. apply R_refl. Qed.

Lemma respects_lift {A} (r : result A) : respects R (lift r : M Ext A).
Proof. destruct r; [apply respects_ret|apply respects_raise]. Qed.

Lemma respects_bind {A B} (m : M Ext A) (k : A -> M Ext B) :
  respects R m -> (forall a, respects R (k a)) -> respects R (bind m k).
Proof.
  intros Hm Hk w. rewrite bind_run. specialize (Hm w).
  destruct (m w) as [[a|e] w1]; cbn [snd] in *; [|exact Hm].
  eapply R_trans; [exact Hm|apply Hk].
Qed.

Lemma respects_try_except {A} (m : M Ext A) (h : exn -> M Ext A) :
  respects R m -> (forall e, respects R (h e)) ->
  respects R (try_except m h).
Proof.
  intros Hm Hh w. unfold try_except. specialize (Hm w).
  destruct (m w) as [[a|e] w1]; cbn [snd] in *; [exact Hm|].
  eapply R_trans; [exact Hm|apply Hh].
Qed.

Lemma respects_attempt {A} (m : M Ext A) :
  respects R m -> respects R (attempt m).
Proof.
  intros Hm w. unfold attempt. specialize (Hm w).
  now destruct (m w) as [r w1].
Qed.

Lemma respects_for_each {A S} (body : S -> A -> M Ext S) (items : list A) :
  (forall s x, respects R (body s x)) ->
  forall s, respects R (for_each body items s).
Proof.
  intros Hb. induction items as [|x items IH]; intros s; cbn [for_each].
  - apply respects_ret.
  - apply respects_bind; [apply Hb|exact IH].
Qed.

End Frame.

(** The structural steps of a frame proof. *)
Ltac frame_step R_refl R_trans :=
  first
    [ apply (respects_ret _ R_refl)
    | apply (respects_raise _ R_refl)
    | apply (respects_lift _ R_refl)
    | apply (respects_bind _ R_trans); [|intros]
    | apply (respects_try_except _ R_trans); [|intros]
    | apply (respects_attempt _)
    | apply (respects_for_each _ R_refl R_trans); intros
    | match goal with
      | |- respects _ (if ?b then _ else _) => destruct b
      | |- respects _ (match ?x with _ => _ end) => destruct x
      | |- respects _ (let '(_, _) := ?x in _) => destruct x
      end ].

(** *** Computations that only read the database *)

Lemma reads_only_refl (p : event -> bool) (w : World Ext) : reads_only p w w.
Proof. split; [reflexivity|]. exists []. now rewrite app_nil_r. Qed.

Lemma reads_only_trans (p : event -> bool) (a b c : World Ext) :
  reads_only p a b -> reads_only p b c -> reads_only p a c.
Proof.
  intros [D1 (e1 & L1 & P1)] [D2 (e2 & L2 & P2)]. split; [congruence|].
  exists (e1 ++ e2). split.
  - now rewrite L2, L1, app_assoc.
  - now rewrite forallb_app, P1, P2.
Qed.

Lemma reads_only_weaken (p q : event -> bool) (w w' : World Ext) :
  (forall e, p e = true -> q e = true) ->
  reads_only p w w' -> reads_only q w w'.
Proof.
  intros Hpq [D (evs & L & P)]. split; [exact D|]. exists evs.
  split; [exact L|]. apply forallb_forall. intros e He. apply Hpq.
  now apply (proj1 (forallb_forall _ _) P).
Qed.

Lemma respects_weaken {A} (p q : event -> bool) (m : M Ext A) :
  (forall e, p e = true -> q e = true) ->
  respects (reads_only p) m -> respects (reads_only q) m.
Proof. intros Hpq Hm w. eapply reads_only_weaken; [exact Hpq|apply Hm]. Qed.

Lemma reads_only_one (p : event -> bool) (e : event) (x : Ext) (w : World Ext) :
  p e = true -> reads_only p w (MkWorld x (db w) (log w ++ [e])).
Proof.
  intros He. split; [reflexivity|]. exists [e]. split; [reflexivity|].
  simpl. now rewrite He.
Qed.

Lemma reads_only_ext (p : event -> bool) (x : Ext) (w : World Ext) :
  reads_only p w (MkWorld x (db w) (log w)).
Proof. split; [reflexivity|]. exists []. now rewrite app_nil_r. Qed.

Lemma call_embed_reads (p : event -> bool) (c : contents) (t : str) :
  p (EvEmbed c t) = true -> respects (reads_only p) (call_embed c t).
Proof.
  intros Hp w. unfold call_embed.
  destruct (embed_content c t (ext w)) as [r x]. now apply reads_only_one.
Qed.

Lemma call_generate_reads (p : event -> bool)
    (ev : str -> list str -> event) (model : str) (parts : list str) :
  p (ev model parts) = true ->
  respects (reads_only p) (call_generate ev model parts).
Proof.
  intros Hp w. unfold call_generate.
  destruct (generate_content model parts (ext w)) as [r x].
  now apply reads_only_one.
Qed.

Lemma ask_reads {A} (p : event -> bool) (f : Ext -> A * Ext) :
  respects (reads_only p) (ask f).
Proof.
  intros w. unfold ask. destruct (f (ext w)) as [a x]. apply reads_only_ext.
Qed.

Lemma backoff_sleep_reads (p : event -> bool) :
  respects (reads_only p) backoff_sleep.
Proof.
  intros w. unfold backoff_sleep.
  destruct (time_sleep (ext w)) as [fault x]. apply reads_only_ext.
Qed.

Lemma get_db_reads (p : event -> bool) : respects (reads_only p) (get_db : M Ext Db).
Proof. intros w. apply reads_only_refl. Qed.

(** A frame proof for [reads_only p]: the lemmas of the hint database
    [reads] first, then the structure of the computation. *)
Create HintDb reads.

Ltac reads :=
  mnorm;
  repeat
    first
      [ assumption
      | solve [auto 2 with reads nocore]
      | apply call_embed_reads; reflexivity
      | apply call_generate_reads; reflexivity
      | match goal with
        | |- respects (reads_only ?p) _ =>
            frame_step (reads_only_refl p) (reads_only_trans p)
        end ].

#[local] Hint Resolve ask_reads get_db_reads backoff_sleep_reads : reads.

Lemma db_roundtrip_reads (p : event -> bool) :
  respects (reads_only p) (db_roundtrip : M Ext unit).
Proof. unfold db_roundtrip. reads. Qed.
#[local] Hint Resolve db_roundtrip_reads : reads.

Lemma query_reads (p : event -> bool) :
  respects (reads_only p) (query : M Ext Store).
Proof. unfold query. reads. Qed.
#[local] Hint Resolve query_reads : reads.

Lemma retry_loop_reads (c : contents) (t : str) (attempts : list nat) :
  respects (reads_only is_embed) (retry_loop c t attempts).
Proof.
  induction attempts as [|a attempts IH]; cbn [retry_loop]; reads.
Qed.
#[local] Hint Resolve retry_loop_reads : reads.

Lemma generate_embedding_reads (text task_type : str) :
  respects (reads_only is_embed) (generate_embedding text task_type).
Proof. unfold generate_embedding, _embed_content_with_retry. reads. Qed.
#[local] Hint Resolve generate_embedding_reads : reads.

(** ** The embedding gateway *)

Lemma generate_embedding_total (text task_type : str) :
  total (generate_embedding text task_type).
Proof.
  intros w. unfold generate_embedding.
  destruct (negb (truthy text) || negb (truthy (strip text)));
    [now eexists _, _|].
  unfold try_except.
  match goal with
  | |- context [match ?body w with _ => _ end] =>
      destruct (body w) as [[v|e] w'] eqn:E
  end; now eexists _, _.
Qed.

Lemma map_m_total {A B} (f : A -> M Ext B) (l : list A) :
  (forall x, total (f x)) ->
  forall w, exists ys w', map_m f l w = (Ok ys, w') /\ length ys = length l.
Proof.
  intros Hf. induction l as [|x l IH]; intros w; simpl; mnorm.
  - now eexists _, _.
  - destruct (Hf x w) as (y & w1 & Ey).
    destruct (IH w1) as (ys & w2 & Eys & Hlen).
    exists (y :: ys), w2. split; [|simpl; congruence].
    rewrite (bind_ok _ _ _ _ _ Ey), (bind_ok _ _ _ _ _ Eys). reflexivity.
Qed.

Lemma length_fit_response (l : list (option vector)) (n : nat) :
  length (fit_response l n) = n.
Proof.
  unfold fit_response.
  destruct (length l =? n)%nat eqn:E1; [now apply Nat.eqb_eq in E1|].
  destruct (length l <? n)%nat eqn:E2.
  - apply Nat.ltb_lt in E2. rewrite length_app, length_replicate. lia.
  - apply Nat.ltb_ge in E2. rewrite length_take. lia.
Qed.

Lemma embed_texts_total (batch_texts : list str) (task_type : str)
    (w : World Ext) :
  exists vs w',
    embed_texts batch_texts task_type w = (Ok vs, w')
    /\ length vs = length batch_texts.
Proof.
  unfold embed_texts.
  destruct (length batch_texts =? 1)%nat.
  - apply map_m_total. intros x. apply generate_embedding_total.
  - mnorm. rewrite bind_run. unfold attempt.
    destruct (_embed_content_with_retry _ _ w) as [[response|e] w1].
    + eexists _, _. split; [reflexivity|]. apply length_fit_response.
    + apply map_m_total. intros x. apply generate_embedding_total.
Qed.

(** *** Index bookkeeping *)

Lemma seq_app_inv (l1 l2 : list nat) (k n : nat) :
  l1 ++ l2 = seq k n ->
  l1 = seq k (length l1)
  /\ l2 = seq (k + length l1) (n - length l1)
  /\ (length l1 <= n)%nat.
Proof.
  intros E.
  assert (Hlen : (length l1 + length l2 = n)%nat).
  { rewrite <- length_app, E. apply length_seq. }
  replace n with (length l1 + (n - length l1))%nat in E by lia.
  rewrite seq_app in E.
  apply app_inj_1 in E as [E1 E2]; [|now rewrite length_seq].
  repeat split; [exact E1|exact E2|lia].
Qed.

Lemma getitems_seq {A} (l : list A) (k n : nat) :
  (k + n <= length l)%nat ->
  getitems l (seq k n) = Ok (take n (drop k l)).
Proof.
  revert k. induction n as [|n IH]; intros k Hk; simpl; [reflexivity|].
  unfold getitem.
  destruct (lookup_lt_is_Some_2 l k ltac:(lia)) as [x Hx].
  rewrite Hx, IH by lia.
  rewrite (drop_S _ _ _ Hx). reflexivity.
Qed.

Lemma insert_next {A} (done : list A) (v x : A) (rest : list A) :
  <[length done := v]> (done ++ x :: rest) = (done ++ [v]) ++ rest.
Proof.
  rewrite insert_app_r_alt, Nat.sub_diag by lia. simpl.
  now rewrite <- app_assoc.
Qed.

Lemma store_all_seq (k n : nat) (vs : list (option vector)) :
  forall (j m : nat) (done : list (option vector)),
    length done = (k + j)%nat ->
    (j + length vs <= n)%nat ->
    (length vs <= m)%nat ->
    store_all (seq k n) (zip (seq j (length vs)) vs)
      (done ++ replicate m None)
    = ((done ++ vs) ++ replicate (m - length vs) None, None).
Proof.
  induction vs as [|v vs IH]; intros j m done Hdone Hn Hm; simpl in *.
  - now rewrite app_nil_r, Nat.sub_0_r.
  - unfold getitem. rewrite lookup_seq_lt by lia. unfold setitem.
    rewrite length_app, length_replicate.
    destruct (k + j <? length done + m)%nat eqn:Hlt;
      [|apply Nat.ltb_ge in Hlt; lia].
    destruct m as [|m]; [lia|]. simpl.
    rewrite <- Hdone, insert_next.
    rewrite (IH (S j) m (done ++ [v])).
    + now rewrite <- !app_assoc.
    + rewrite length_app. simpl. lia.
    + lia.
    + lia.
Qed.

Lemma embed_fallback_seq (task_type : str) (k : nat) (ts : list str) :
  forall (j m : nat) (done : list (option vector)) (w : World Ext),
    length done = (k + j)%nat ->
    (length ts <= m)%nat ->
    for_each
      (fun embeddings '(idx, text) =>
         v ← generate_embedding text task_type;
         lift (setitem embeddings idx v))
      (zip (seq (k + j) (length ts)) ts) (done ++ replicate m None) w
    = (vs ← map_m (fun text => generate_embedding text task_type) ts;
       mret ((done ++ vs) ++ replicate (m - length ts) None)) w.
Proof.
  mnorm.
  induction ts as [|t ts IH]; intros j m done w Hdone Hm; simpl in *; mnorm.
  - now rewrite ret_bind, app_nil_r, Nat.sub_0_r.
  - rewrite !bind_assoc. apply bind_cong. intros v w1 _.
    unfold setitem. rewrite length_app, length_replicate.
    destruct (k + j <? length done + m)%nat eqn:Hlt;
      [|apply Nat.ltb_ge in Hlt; lia].
    destruct m as [|m]; [lia|]. simpl.
    rewrite <- Hdone, insert_next.
    rewrite ret_bind.
    replace (S (length done)) with (k + S j)%nat by lia.
    rewrite (IH (S j) m (done ++ [v])); [|rewrite length_app; simpl; lia|lia].
    rewrite bind_assoc. apply bind_cong. intros vs w2 _.
    rewrite ret_bind. now rewrite <- !app_assoc.
Qed.

Lemma embed_batch_seq (texts : list str) (task_type : str) (k n m : nat)
    (done : list (option vector)) (w : World Ext) :
  length done = k -> (1 <= n)%nat -> (n <= m)%nat ->
  (k + n <= length texts)%nat ->
  embed_batch texts task_type (done ++ replicate m None) (seq k n) w
  = bind (embed_texts (take n (drop k texts)) task_type)
      (fun vs => ret ((done ++ vs) ++ replicate (m - n) None)) w.
Proof.
  intros Hdone Hn Hm Hk. unfold embed_batch, embed_texts. mnorm.
  rewrite getitems_seq by exact Hk. cbn [lift]. rewrite ret_bind.
  assert (Hlen : length (take n (drop k texts)) = n).
  { rewrite length_take, length_drop. lia. }
  remember (take n (drop k texts)) as bt eqn:Hbt. clear Hbt. rewrite Hlen.
  destruct (n =? 1)%nat eqn:Hone.
  - apply Nat.eqb_eq in Hone. rewrite Hone in *. clear Hone n.
    destruct bt as [|text [|? ?]]; try discriminate Hlen.
    cbn [getitem lookup list_lookup lift map_m seq]. mnorm.
    rewrite ret_bind, !bind_assoc. apply bind_cong. intros v w1 _.
    rewrite !ret_bind. unfold setitem.
    rewrite length_app, length_replicate.
    destruct (k <? length done + m)%nat eqn:Hlt;
      [|apply Nat.ltb_ge in Hlt; lia].
    destruct m as [|m]; [lia|]. cbn [replicate lift].
    rewrite <- Hdone, insert_next. unfold bind, ret. simpl.
    now rewrite Nat.sub_0_r.
  - rewrite !bind_assoc. apply bind_cong. intros r w1 _.
    destruct r as [response|e].
    + set (vs := fit_response _ n).
      assert (Hvs : length vs = n) by apply length_fit_response.
      unfold enumerate.
      rewrite (store_all_seq k n vs 0 m done) by lia.
      now rewrite ret_bind, Hvs.
    + unfold embed_fallback.
      pose proof (embed_fallback_seq task_type k bt 0 m done w1) as Hf.
      rewrite Nat.add_0_r, Hlen in Hf. apply Hf; lia.
Qed.

Lemma for_each_batches (texts : list str) (task_type : str)
    (bs : list (list nat)) :
  forall (done : list (option vector)) (m : nat) (w : World Ext),
    (length done + m = length texts)%nat ->
    concat bs = seq (length done) m ->
    Forall (fun b => b <> []) bs ->
    for_each (embed_batch texts task_type) bs (done ++ replicate m None) w
    = bind (embed_in_order (drop (length done) texts) task_type
              (map length bs))
        (fun vs => ret (done ++ vs)) w.
Proof.
  induction bs as [|b bs IH]; intros done m w Hlen Hcat Hne.
  - simpl in *. destruct m; [|discriminate Hcat]. mnorm.
    now rewrite ret_bind.
  - cbn [concat] in Hcat.
    apply seq_app_inv in Hcat as (Hb & Hrest & Hle).
    inversion Hne as [|? ? Hb_ne Hne']; subst.
    assert (1 <= length b)%nat by (destruct b; [easy|simpl; lia]).
    remember (length b) as n eqn:Hn.
    cbn [for_each map embed_in_order]. rewrite <- Hn. mnorm.
    rewrite Hb.
    rewrite (bind_cong_l _ _ _ _
               (embed_batch_seq texts task_type (length done) n m done w
                  eq_refl ltac:(lia) ltac:(lia) ltac:(lia))).
    rewrite !bind_assoc. apply bind_cong. intros vs w1 Evs.
    assert (Hvs : length vs = n).
    { destruct (embed_texts_total (take n (drop (length done) texts))
                  task_type w) as (vs' & w' & E' & Hl).
      rewrite E' in Evs. injection Evs as <- <-.
      rewrite Hl, length_take, length_drop. lia. }
    rewrite ret_bind, bind_assoc.
    rewrite (IH (done ++ vs) (m - n)%nat w1).
    + rewrite length_app, Hvs, drop_drop.
      apply bind_cong. intros ws w2 _.
      now rewrite ret_bind, app_assoc.
    + rewrite length_app. lia.
    + now rewrite length_app, Hvs.
    + exact Hne'.
Qed.

Lemma sum_list_lengths {A} (bs : list (list A)) :
  sum_list (map length bs) = length (concat bs).
Proof.
  induction bs as [|b bs IHb]; simpl; [reflexivity|].
  now rewrite length_app, IHb.
Qed.

Lemma batch_size_positive : 0 < _EMBEDDING_BATCH_SIZE.
Proof. unfold _EMBEDDING_BATCH_SIZE. lia. Qed.

Lemma embed_in_order_total (task_type : str) (sizes : list nat) :
  forall (texts : list str) (w : World Ext),
    (sum_list sizes <= length texts)%nat ->
    exists vs w',
      embed_in_order texts task_type sizes w = (Ok vs, w')
      /\ length vs = sum_list sizes.
Proof.
  induction sizes as [|n sizes IH]; intros texts w Hs; simpl in *; mnorm.
  - now eexists _, _.
  - destruct (embed_texts_total (take n texts) task_type w)
      as (vs & w1 & E1 & H1').
    destruct (IH (drop n texts) w1) as (ws & w2 & E2 & H2').
    { rewrite length_drop. lia. }
    exists (vs ++ ws), w2.
    rewrite (bind_ok _ _ _ _ _ E1), (bind_ok _ _ _ _ _ E2).
    split; [reflexivity|].
    rewrite length_app, H1', H2', length_take. lia.
Qed.

(** C4. [generate_embeddings_batch] never raises and returns one entry per
    input text, in input order: its result is that of taking the texts in
    order, batch by batch, where a batch request that fails falls back to
    one [generate_embedding] per text (which yields [None] on failure) and
    a response of the wrong size is padded with [None] or cut to the size
    of the batch. *)
Theorem generate_embeddings_batch_aligned (texts : list str)
    (task_type : str) (w : World Ext) :
  generate_embeddings_batch texts task_type w
  = embed_in_order texts task_type
      (map length (_create_token_aware_batches texts _EMBEDDING_BATCH_SIZE))
      w
  /\ exists embeddings w',
       generate_embeddings_batch texts task_type w = (Ok embeddings, w')
       /\ length embeddings = length texts.
Proof.
  destruct (batches_partition texts _ batch_size_positive)
    as [Hcat Hok].
  assert (Heq : generate_embeddings_batch texts task_type w
    = embed_in_order texts task_type
        (map length (_create_token_aware_batches texts _EMBEDDING_BATCH_SIZE))
        w).
  { unfold generate_embeddings_batch.
    destruct texts as [|t texts]; [reflexivity|].
    cbn [truthy negb].
    set (ts := t :: texts) in *.
    pose proof (for_each_batches ts task_type
      (_create_token_aware_batches ts _EMBEDDING_BATCH_SIZE) []
      (length ts) w eq_refl Hcat) as Hfe.
    cbn [app length drop] in Hfe. rewrite Hfe.
    - rewrite bind_run.
      destruct (embed_in_order _ _ _ w) as [[vs|e] w']; reflexivity.
    - eapply Forall_impl; [exact Hok|]. now intros b [Hb _]. }
  split; [exact Heq|]. rewrite Heq.
  assert (Hsum : sum_list (map length
            (_create_token_aware_batches texts _EMBEDDING_BATCH_SIZE))
          = length texts).
  { rewrite sum_list_lengths, Hcat. apply length_seq. }
  destruct (embed_in_order_total task_type _ texts w ltac:(rewrite Hsum; lia))
    as (vs & w' & E & Hl).
  exists vs, w'. split; [exact E|]. now rewrite Hl.
Qed.

(** ** Vector search *)

Lemma distance_leb_total (a b : option Q) :
  distance_leb a b = true \/ distance_leb b a = true.
Proof.
  destruct a as [x|], b as [y|]; simpl; auto.
  destruct (Qlt_le_dec y x) as [Hlt|Hle].
  - right. apply Qle_bool_iff. now apply Qlt_le_weak.
  - left. now apply Qle_bool_iff.
Qed.

Lemma distance_leb_trans (a b c : option Q) :
  distance_leb a b = true -> distance_leb b c = true ->
  distance_leb a c = true.
Proof.
  destruct a as [x|], b as [y|], c as [z|]; simpl; auto; try discriminate.
  rewrite !Qle_bool_iff. apply Qle_trans.
Qed.

Section Sorting.
Context {A : Type} (leb : A -> A -> bool).
Hypothesis leb_total : forall a b, leb a b = true \/ leb b a = true.
Hypothesis leb_trans :
  forall a b c, leb a b = true -> leb b c = true -> leb a c = true.

Let le (a b : A) : Prop := leb a b = true.

Lemma insert_by_perm (x : A) (l : list A) : insert_by leb x l ≡ₚ x :: l.
Proof.
  induction l as [|y l IH]; simpl; [reflexivity|].
  destruct (leb x y); [reflexivity|].
  rewrite IH. apply Permutation_swap.
Qed.

Lemma insert_by_sorted (x : A) (l : list A) :
  StronglySorted le l -> StronglySorted le (insert_by leb x l).
Proof.
  induction 1 as [|y l Hl IH Hy]; simpl.
  - repeat constructor.
  - destruct (leb x y) eqn:Hxy.
    + constructor; [now constructor|]. constructor; [exact Hxy|].
      eapply Forall_impl; [exact Hy|]. intros z Hz.
      eapply leb_trans; [exact Hxy|exact Hz].
    + constructor; [exact IH|].
      rewrite insert_by_perm. constructor; [|exact Hy].
      destruct (leb_total x y) as [E|E]; [congruence|exact E].
Qed.

Lemma sort_by_perm (l : list A) : sort_by leb l ≡ₚ l.
Proof.
  unfold sort_by. induction l as [|x l IH]; simpl; [reflexivity|].
  now rewrite insert_by_perm, IH.
Qed.

Lemma sort_by_sorted (l : list A) : StronglySorted le (sort_by leb l).
Proof.
  unfold sort_by. induction l as [|x l IH]; simpl; [constructor|].
  now apply insert_by_sorted.
Qed.

End Sorting.

Lemma StronglySorted_mono {A} (R1 R2 : A -> A -> Prop) (l : list A) :
  (forall a b, R1 a b -> R2 a b) ->
  StronglySorted R1 l -> StronglySorted R2 l.
Proof.
  intros HR. induction 1 as [|x l Hl IH Hx]; constructor; [exact IH|].
  eapply Forall_impl; [exact Hx|]. intros y. apply HR.
Qed.

Lemma ranks_before_leb (q : vector) (a b : NoteChunk.t) :
  distance_leb (distance_of q a) (distance_of q b) = true ->
  ranks_before q a b.
Proof.
  unfold ranks_before, similarity_of.
  destruct (distance_of q a) as [x|], (distance_of q b) as [y|]; simpl;
    auto; try discriminate.
  rewrite Qle_bool_iff. intros Hxy. lra.
Qed.

Lemma generate_query_embedding_reads (query_text : str) :
  respects (reads_only is_embed) (generate_query_embedding query_text).
Proof. unfold generate_query_embedding. reads. Qed.
#[local] Hint Resolve generate_query_embedding_reads : reads.

Lemma semantic_search_reads (user_id : Z) (query_text : str)
    (entities : json) (limit : nat) :
  respects (reads_only is_embed)
    (semantic_search_with_filters user_id query_text entities limit).
Proof. unfold semantic_search_with_filters. reads. Qed.
#[local] Hint Resolve semantic_search_reads : reads.

Lemma entity_filters_user (user_id : Z) (entities : json)
    (f : search_filters) :
  entity_filters user_id entities = Ok f -> f_user_id f = user_id.
Proof.
  unfold entity_filters, mbind, result_mbind, result_bind.
  repeat match goal with
    | |- match ?r with Ok _ => _ | Raise _ => _ end = Ok _ -> _ =>
        destruct r; [|discriminate]
    | |- context [if ?b then _ else _] => destruct b
    end.
  all: now intros [= <-].
Qed.

(** A successful search is the head of the rows that match the filters of
    the entities, in the order of the distance to the query. *)
Lemma semantic_search_inv (user_id : Z) (query_text : str) (entities : json)
    (limit : nat) (w w' : World Ext) (chunks : list NoteChunk.t) :
  semantic_search_with_filters user_id query_text entities limit w
    = (Ok chunks, w') ->
  exists qe w1,
    generate_query_embedding query_text w = (Ok qe, w1)
    /\ match qe with
       | Some ((_ :: _) as q) =>
           exists f,
             entity_filters user_id entities = Ok f
             /\ chunks
                = take limit
                    (sort_by
                       (fun a b =>
                          distance_leb (distance_of q a) (distance_of q b))
                       (matching_chunks (pending (db w)) f))
       | _ => chunks = []
       end.
Proof.
  unfold semantic_search_with_filters. mnorm. intros E.
  binv E.
  pose proof (generate_query_embedding_reads query_text w) as [Hdb _].
  rewrite E0 in Hdb. cbn [snd] in Hdb.
  exists a, w0. split; [exact E0|].
  destruct a as [[|x q]|]; try (now apply ret_inv_ok in E as [-> _]).
  binv E. linv E1. binv E.
  apply ret_inv_ok in E as [-> ->].
  match goal with
  | H : query _ = (Ok ?s, _) |- _ =>
      assert (s = pending (db w));
      [ revert H; unfold query, db_roundtrip, ask, get_db; mnorm;
        rewrite !bind_run;
        destruct (db_fault (ext _)) as [[?|] ?]; cbn;
        [discriminate|intros [= <- _]; now rewrite Hdb]
      | subst s ]
  end.
  eexists. split; [eassumption|reflexivity].
Qed.

Lemma matching_chunks_spec (s : Store) (f : search_filters)
    (c : NoteChunk.t) :
  c ∈ matching_chunks s f ->
  c ∈ note_chunks s
  /\ exists note,
       note_of s c = Some note
       /\ Note.user_id note = f_user_id f
       /\ Note.is_archived note = false.
Proof.
  unfold matching_chunks. rewrite !list_elem_of_In, filter_In.
  intros [Hin Hm]. split; [exact Hin|].
  destruct (note_of s c) as [note|]; [|discriminate].
  exists note. split; [reflexivity|].
  unfold row_matches in Hm.
  repeat (apply andb_prop in Hm as [Hm ?]).
  split; [now apply Z.eqb_eq|now apply negb_true_iff].
Qed.


(** ** Intent classification *)

Lemma call_generate_cases (ev : str -> list str -> event) (model : str)
    (parts : list str) (w : World Ext) :
  exists r x,
    generate_content model parts (ext w) = (r, x)
    /\ call_generate ev model parts w
       = (r, MkWorld x (db w) (log w ++ [ev model parts])).
Proof.
  unfold call_generate.
  destruct (generate_content model parts (ext w)) as [r x].
  now exists r, x.
Qed.

Lemma normalize_intent_known (intent_result : json) (intent : str) :
  normalize_intent intent_result = Ok intent ->
  str_in intent known_intents = true.
Proof.
  unfold normalize_intent.
  destruct (dict_get intent_result "intent") as [found|e]; [|discriminate].
  destruct (default (JStr (u "chat")) found) as [| | | |s| |];
    try discriminate; try (intros [= <-]; reflexivity).
  destruct (str_in s known_intents) eqn:Hs; intros [= <-];
    [exact Hs|reflexivity].
Qed.

Lemma classify_intent_run (message : str)
    (history : list (str * option str)) (w : World Ext) :
  exists r x,
    generate_content CHATBOT_INTENT_MODEL
      [INTENT_SYSTEM_PROMPT; intent_user_prompt message history] (ext w)
    = (r, x)
    /\ classify_intent message history w
       = (Ok (classified r),
          MkWorld x (db w)
            (log w ++ [EvClassify CHATBOT_INTENT_MODEL
                         [INTENT_SYSTEM_PROMPT;
                          intent_user_prompt message history]])).
Proof.
  destruct (call_generate_cases EvClassify CHATBOT_INTENT_MODEL
              [INTENT_SYSTEM_PROMPT; intent_user_prompt message history] w)
    as (r & x & Hg & Hc).
  exists r, x. split; [exact Hg|].
  unfold classify_intent. mnorm. unfold try_except.
  rewrite (bind_cong_l _ (fun _ => (r, _)) _ _ Hc), bind_run.
  destruct r as [[text|]|e]; [|reflexivity|reflexivity].
  unfold _extract_json, classified, parse_chain.
  destruct (json_loads text) as [p|].
  - cbn [lift]. rewrite ret_bind. now destruct (json_truthy p).
  - destruct (search_braces text) as [g|]; [|reflexivity].
    destruct (json_loads g) as [p|]; [|reflexivity].
    cbn [lift]. rewrite ret_bind. now destruct (json_truthy p).
Qed.

(** C5, as the code has it. [classify_intent] never raises. When the
    model answers with a text, the result is the first of these that
    exists and is truthy: the value [json.loads] reads from the whole
    text; the value it reads from the span that runs from the first
    opening brace to the last closing brace after it; and otherwise the
    default [{intent: "chat", confidence: 0.4, entities: {}}]. When the
    call fails the default is returned with the error text. The
    orchestrator then reads from a JSON object whose intent is a string
    only an intent of the six-value set, any other string becoming
    ["chat"]. *)
Theorem classify_intent_fallback_chain (message : str)
    (history : list (str * option str)) (w : World Ext) :
  exists v w',
    classify_intent message history w = (Ok v, w')
    /\ json_truthy v = true
    /\ (forall text x,
          generate_content CHATBOT_INTENT_MODEL
            [INTENT_SYSTEM_PROMPT; intent_user_prompt message history]
            (ext w) = (Ok (Some text), x) ->
          (forall p, json_loads text = Some p ->
             v = if json_truthy p then p else JObj default_intent)
          /\ (forall g p, json_loads text = None ->
                search_braces text = Some g -> json_loads g = Some p ->
                v = if json_truthy p then p else JObj default_intent)
          /\ (json_loads text = None ->
              (search_braces text = None
               \/ exists g, search_braces text = Some g
                            /\ json_loads g = None) ->
              v = JObj default_intent))
    /\ (forall e x,
          generate_content CHATBOT_INTENT_MODEL
            [INTENT_SYSTEM_PROMPT; intent_user_prompt message history]
            (ext w) = (Raise e, x) ->
          v = JObj (default_intent ++ [(u "error", JStr (exn_str e))]))
    /\ normalize_intent (JObj default_intent) = Ok (u "chat")
    /\ (forall members s,
          assoc_last (u "intent") members = Some (JStr s) ->
          normalize_intent (JObj members)
          = Ok (if str_in s known_intents then s else u "chat"))
    /\ (forall r intent,
          normalize_intent r = Ok intent ->
          str_in intent known_intents = true).
Proof.
  destruct (classify_intent_run message history w) as (r & x & Hg & Hrun).
  eexists _, _. split; [exact Hrun|]. split.
  { destruct r as [[text|]|e]; [|reflexivity|reflexivity].
    cbn [classified]. now destruct (json_truthy (parse_chain text)) eqn:E. }
  split; [|split; [|split; [reflexivity|split]]].
  - intros text x' Ht. rewrite Hg in Ht. injection Ht as -> _.
    cbn [classified]. unfold parse_chain. repeat split.
    + now intros p ->.
    + now intros g p -> -> ->.
    + intros -> [-> | (g & -> & ->)]; reflexivity.
  - intros e x' He. rewrite Hg in He. injection He as -> _. reflexivity.
  - intros members s Hs. unfold normalize_intent, dict_get.
    rewrite Hs. unfold default, id.
    now destruct (str_in s known_intents).
  - apply normalize_intent_known.
Qed.

(** ** Retrieval and dispatch *)

Lemma retrieve_reads (user_id : Z) (message intent : str) (entities : json) :
  respects (reads_only is_embed) (retrieve user_id message intent entities).
Proof. unfold retrieve. reads. Qed.
#[local] Hint Resolve retrieve_reads : reads.

Lemma retrieval_intent_cases (intent : str) :
  str_in intent retrieval_intents = true ->
  intent = u "search" \/ intent = u "summarize" \/ intent = u "question"
  \/ intent = u "analytics".
Proof.
  unfold str_in, retrieval_intents. cbn [existsb].
  rewrite !orb_true_iff, !str_eqb_eq. intuition discriminate.
Qed.

(** C6. When the retrieval of a retrieval-backed intent returns no chunk,
    the turn makes no call to the generative API from there on: the
    retrieval itself only calls the embedding API, no audio file, note or
    context comes with the empty chunk list, and the handler returns
    without touching the world. For ["search"] it returns the "not found"
    text with empty audio and note reference lists; for ["summarize"],
    ["question"] and ["analytics"] it returns the clarifying prompt of
    the intent. *)
Theorem no_generation_without_chunks (user_id : Z) (message intent : str)
    (entities : json) (w w1 : World Ext) (r : retrieved) :
  str_in intent retrieval_intents = true ->
  retrieve user_id message intent entities w = (Ok r, w1) ->
  chunks_of r = [] ->
  reads_only is_embed w w1
  /\ audio_files_of r = [] /\ notes_of r = [] /\ context_of r = []
  /\ exists res,
       handle intent message entities r w1 = (Ok res, w1)
       /\ (intent = u "search" ->
           res = HandlerResult (Some search_none_text) (Some []) (Some [])
                   search_suggestions)
       /\ (intent = u "summarize" ->
           res = HandlerResult (Some summarize_no_context_text) None None
                   summarize_no_context_suggestions)
       /\ (intent = u "question" ->
           res = HandlerResult (Some question_no_context_text) None None
                   question_no_context_suggestions)
       /\ (intent = u "analytics" ->
           res = HandlerResult (Some analytics_no_context_text) None None
                   analytics_no_context_suggestions).
Proof.
  intros Hin Hr Hc.
  pose proof (retrieve_reads user_id message intent entities w) as Hreads.
  rewrite Hr in Hreads. cbn [snd] in Hreads. split; [exact Hreads|].
  unfold retrieve in Hr. rewrite Hin in Hr. mnorm.
  minv. cbn [chunks_of] in Hc. subst.
  repeat match goal with
    | H : _ = Ok _ |- _ => cbn in H; (injection H as <-)
    end.
  cbn [audio_files_of notes_of context_of]. repeat split.
  apply retrieval_intent_cases in Hin as [-> | [-> | [-> | ->]]];
    eexists; (split; [reflexivity|]); repeat split;
    intros Hi; try reflexivity; vm_compute in Hi; discriminate.
Qed.

(** ** The write paths of the notes *)

Lemma is_embed_not_tx (e : event) : is_embed e = true -> not_tx e = true.
Proof. now destruct e. Qed.

Lemma reads_embed_not_tx {A} (m : M Ext A) :
  respects (reads_only is_embed) m -> respects (reads_only not_tx) m.
Proof. apply respects_weaken, is_embed_not_tx. Qed.
#[local] Hint Resolve reads_embed_not_tx : reads.

Lemma generate_embeddings_batch_reads (texts : list str) (task_type : str) :
  respects (reads_only is_embed) (generate_embeddings_batch texts task_type).
Proof.
  unfold generate_embeddings_batch, embed_batch, embed_fallback,
    _embed_content_with_retry.
  reads.
Qed.
#[local] Hint Resolve generate_embeddings_batch_reads : reads.

Lemma generate_chunk_embeddings_reads (chunks : list ChunkDict.t) :
  respects (reads_only is_embed) (generate_chunk_embeddings chunks).
Proof. unfold generate_chunk_embeddings. reads. Qed.
#[local] Hint Resolve generate_chunk_embeddings_reads : reads.

Lemma chunks_grow_refl (w : World Ext) : chunks_grow_embedded w w.
Proof. intros c [Hc|Hc]; auto. Qed.

Lemma chunks_grow_trans (a b c : World Ext) :
  chunks_grow_embedded a b -> chunks_grow_embedded b c ->
  chunks_grow_embedded a c.
Proof.
  intros Hab Hbc x Hx. destruct (Hbc x Hx) as [H'|[H'|H']]; auto.
Qed.

Lemma reads_grow {A} (p : event -> bool) (m : M Ext A) :
  respects (reads_only p) m -> respects chunks_grow_embedded m.
Proof.
  intros Hm w c. destruct (Hm w) as [-> _]. intros [Hc|Hc]; auto.
Qed.

Lemma update_pending_grow (f : Store -> Store) :
  (forall s, note_chunks (f s) ⊆ note_chunks s) ->
  respects chunks_grow_embedded (update_pending f : M Ext unit).
Proof.
  intros Hf w c. unfold update_pending, get_db, put_db. mnorm. cbn.
  intros [Hc|Hc]; auto. left. now apply Hf.
Qed.

Lemma add_note_chunk_grow (mk : Z -> NoteChunk.t) :
  (forall id, chunk_embedded (mk id)) ->
  respects chunks_grow_embedded (add_note_chunk mk : M Ext unit).
Proof.
  intros Hmk w c. unfold add_note_chunk, get_db, put_db. mnorm. cbn.
  rewrite elem_of_app, list_elem_of_singleton.
  intros [[Hc| ->]|Hc]; auto.
Qed.

Lemma db_fault_cases (w : World Ext) :
  (exists e x, db_roundtrip w = (Raise e, MkWorld x (db w) (log w)))
  \/ (exists x, db_roundtrip w = (Ok tt, MkWorld x (db w) (log w))).
Proof.
  unfold db_roundtrip, ask. mnorm. rewrite bind_run.
  destruct (db_fault (ext w)) as [[e|] x]; [left|right]; eauto.
Qed.

Lemma add_note_grow (mk : Z -> Note.t) :
  respects chunks_grow_embedded (add_note mk).
Proof.
  intros w c. unfold add_note. mnorm.
  destruct (db_fault_cases w) as [(e & x & E)|(x & E)].
  - rewrite (bind_raise _ _ _ _ _ E). cbn. intros [?|?]; auto.
  - rewrite (bind_ok _ _ _ _ _ E). cbn. intros [?|?]; auto.
Qed.

Lemma db_commit_grow :
  respects chunks_grow_embedded (db_commit : M Ext unit).
Proof.
  intros w c. unfold db_commit. mnorm.
  destruct (db_fault_cases w) as [(e & x & E)|(x & E)].
  - rewrite (bind_raise _ _ _ _ _ E). cbn. intros [?|?]; auto.
  - rewrite (bind_ok _ _ _ _ _ E). cbn.
    destruct (constraints_ok (pending (db w))); cbn; intros [?|?]; auto.
Qed.

Lemma db_rollback_grow :
  respects chunks_grow_embedded (db_rollback : M Ext unit).
Proof. intros w c. cbn. intros [?|?]; auto. Qed.

Create HintDb grows.
#[local] Hint Resolve add_note_grow db_commit_grow db_rollback_grow : grows.

(** A frame proof for [chunks_grow_embedded]. *)
Ltac grows :=
  mnorm;
  repeat
    first
      [ assumption
      | solve [auto 2 with grows nocore]
      | solve [apply (reads_grow not_tx); reads]
      | apply update_pending_grow; intros ? ? ?
      | frame_step chunks_grow_refl chunks_grow_trans ].

Lemma save_chunks_grow (note_id : Z) (cs : list embedded_chunk) :
  respects chunks_grow_embedded (save_chunks note_id cs : M Ext unit).
Proof.
  unfold save_chunks.
  apply (respects_for_each _ chunks_grow_refl chunks_grow_trans).
  intros _ chunk_data.
  destruct (embedding_truthy (embedding chunk_data)) eqn:He;
    [|apply (respects_ret _ chunks_grow_refl)].
  apply add_note_chunk_grow. intros id.
  destruct (embedding chunk_data) as [v|]; [|discriminate].
  exists v. split; [reflexivity|]. now apply truthy_cons.
Qed.
#[local] Hint Resolve save_chunks_grow : grows.

Lemma index_opt_grow (note_id : Z) (text : option str) (chunk_type : str) :
  respects chunks_grow_embedded (index_opt note_id text chunk_type).
Proof. unfold index_opt, index_text. grows. Qed.
#[local] Hint Resolve index_opt_grow : grows.

Lemma delete_chunks_grow (note_id : Z) (chunk_type : str) :
  respects chunks_grow_embedded (delete_chunks note_id chunk_type).
Proof.
  unfold delete_chunks. grows.
  match goal with
  | Hc : _ ∈ _ |- _ =>
      cbn in Hc; rewrite list_elem_of_In, filter_In in Hc;
      now apply list_elem_of_In
  end.
Qed.
#[local] Hint Resolve delete_chunks_grow : grows.

Lemma reindex_opt_grow (note_id : Z) (text : option str) (chunk_type : str) :
  respects chunks_grow_embedded (reindex_opt note_id text chunk_type).
Proof. unfold reindex_opt, index_text. grows. Qed.
#[local] Hint Resolve reindex_opt_grow : grows.

(** C10. After [create_note], [update_note] or
    [summarize_audio_transcript], whatever the provider and the database
    did, every chunk row, pending or committed, either was a row before
    the call or has an embedding that is neither [None] nor empty: a
    draft whose embedding failed is not inserted. *)
Theorem write_paths_store_embedded_chunks :
  (forall user_id note_data,
     respects chunks_grow_embedded (create_note user_id note_data))
  /\ (forall note_id user_id update_data,
        respects chunks_grow_embedded
          (update_note note_id user_id update_data))
  /\ (forall audio_file_id user_id,
        respects chunks_grow_embedded
          (summarize_audio_transcript audio_file_id user_id)).
Proof.
  split; [|split].
  - intros user_id note_data.
    unfold create_note, find_audio_file. grows.
  - intros note_id user_id update_data.
    unfold update_note, find_note. grows.
  - intros audio_file_id user_id.
    unfold summarize_audio_transcript, find_audio_file, generate_summary,
      request_summary.
    grows.
Qed.

(** ** The turn *)

Lemma classify_intent_reads (message : str)
    (history : list (str * option str)) :
  respects (reads_only not_tx) (classify_intent message history).
Proof. unfold classify_intent. reads. Qed.
#[local] Hint Resolve classify_intent_reads : reads.

Lemma generate_response_reads (system_prompt user_prompt fallback : str) :
  respects (reads_only not_tx)
    (_generate_response system_prompt user_prompt fallback).
Proof. unfold _generate_response. reads. Qed.
#[local] Hint Resolve generate_response_reads : reads.

Lemma handle_reads (intent message : str) (entities : json) (r : retrieved) :
  respects (reads_only not_tx) (handle intent message entities r).
Proof.
  unfold handle, _handle_summarization, _handle_question,
    _handle_analytics, _handle_chat.
  reads.
Qed.
#[local] Hint Resolve handle_reads : reads.

Lemma compute_turn_reads (user_id : Z) (session_id message : str)
    (start_time : Q) :
  respects (reads_only not_tx)
    (compute_turn user_id session_id message start_time).
Proof.
  unfold compute_turn, _get_session, _get_conversation_history. reads.
Qed.

(** What a successful [compute_turn] has computed. *)
Lemma compute_turn_inv (user_id : Z) (session_id message : str)
    (start_time : Q) (w w1 : World Ext) (session : ChatbotSession.t)
    (t : turn) :
  compute_turn user_id session_id message start_time w
    = (Ok (session, t), w1) ->
  exists history intent_result wa wb wc wd end_time,
    classify_intent message history wa = (Ok intent_result, wb)
    /\ normalize_intent intent_result = Ok (t_intent t)
    /\ normalize_entities intent_result = Ok (t_entities t)
    /\ normalize_confidence intent_result = Ok (t_confidence t)
    /\ retrieve user_id message (t_intent t) (t_entities t) wb
       = (Ok (t_retrieved t), wc)
    /\ time_time (ext wd) = (end_time, ext w1)
    /\ t_response_time t = int_of_float ((end_time - start_time) * 1000)
    /\ is_Some (audio_references (t_result t))
    /\ is_Some (note_references (t_result t)).
Proof.
  unfold compute_turn. mnorm. intros E. minv.
  match goal with
  | H : ask time_time ?wd = (Ok ?e, _) |- _ =>
      unfold ask in H; destruct (time_time (ext wd)) as [e' x'] eqn:Et;
      injection H as <- <-
  end.
  unfold ret in E. injection E as ? ? ?. subst.
  cbn [t_intent t_entities t_confidence t_retrieved t_response_time
       t_result audio_references note_references ext].
  eexists _, _, _, _, _, _, _.
  repeat split; eauto.
Qed.

Lemma persist_turn_cases (session_id message : str) (t : turn)
    (w : World Ext) :
  match persist_turn session_id message t w with
  | (Ok assistant_msg, w') =>
      exists user_id assistant_id created1 created2,
        assistant_msg
          = assistant_message assistant_id session_id t created2
        /\ committed (db w') = pending (db w')
        /\ committed (db w')
           = store_after_turn session_id message
               (user_message user_id session_id message t created1)
               assistant_msg (pending (db w))
        /\ log w' = log w ++ [EvCommit]
  | (Raise e, w') =>
      committed (db w') = committed (db w) /\ log w' = log w
  end.
Proof.
  unfold persist_turn, add_message, update_session, update_pending,
    db_commit, db_roundtrip, ask, get_db, put_db, emit.
  mnorm. unfold bind, ret, raise.
  destruct (uuid4 (ext w)) as [uid x1]. cbn.
  destruct (datetime_now x1) as [c1 x2]. cbn.
  destruct (uuid4 x2) as [aid x3]. cbn.
  destruct (datetime_now x3) as [c2 x4]. cbn.
  destruct (db_fault x4) as [[e|] x5]; cbn; [auto|].
  match goal with
  | |- context [constraints_ok ?s] => destruct (constraints_ok s)
  end; cbn; [|auto].
  exists uid, aid, c1, c2. repeat split.
  unfold store_after_turn. now rewrite <- app_assoc.
Qed.

Lemma rollback_raise_run {A} (e : exn) (w : World Ext) :
  bind db_rollback (fun _ => raise e : M Ext A) w
  = (Raise e,
     MkWorld (ext w)
       (MkDb (committed (db w)) (committed (db w)) (note_seq (db w))
          (chunk_seq (db w)))
       (log w ++ [EvRollback])).
Proof. reflexivity. Qed.

(** The outcomes of [process_message]. When it returns, the committed
    rows are the pending rows of before with one user message and one
    assistant message appended, in that order, and the session row updated
    (its title set from the stripped message cut to 200 characters when it
    had none, its message count increased by 2); the assistant message
    records the ids of the retrieved chunks, audio files and notes, the
    elapsed milliseconds between the two readings of the clock, and the
    confidence of the classification; the log holds one commit, as its
    last event, and no rollback. When it raises, either the committed rows
    are those of before, nothing is pending, and the log holds no commit
    and ends with the rollback; or the turn is committed in full, as when
    it returns, and no rollback has happened: the reload of the assistant
    message after the commit has failed. Nothing partial is ever
    committed. *)
Theorem process_message_all_or_nothing (user_id : Z)
    (session_id message : str) (w : World Ext) :
  match process_message user_id session_id message w with
  | (Ok response, w') =>
      exists start_time w0 w1 session t assistant_msg,
        time_time (ext w) = (start_time, ext w0)
        /\ compute_turn user_id session_id message start_time w0
           = (Ok (session, t), w1)
        /\ turn_committed session_id message t assistant_msg w w'
        /\ (forall row,
              ChatbotSession.total_messages (session_after_turn message row)
              = Some (default 0 (ChatbotSession.total_messages row) + 2)
              /\ ChatbotSession.title (session_after_turn message row)
                 = if truthy (default [] (ChatbotSession.title row))
                   then ChatbotSession.title row
                   else Some (prefix (strip message) 200))
        /\ r_message_id response = ChatbotMessage.message_id assistant_msg
        /\ r_response response = ChatbotMessage.content assistant_msg
        /\ r_intent response = t_intent t
  | (Raise e, w') =>
      (committed (db w') = committed (db w)
       /\ pending (db w') = committed (db w)
       /\ exists evs,
            log w' = log w ++ evs ++ [EvRollback]
            /\ forallb not_tx evs = true)
      \/ (exists t assistant_msg,
            turn_committed session_id message t assistant_msg w w')
  end.
Proof.
  unfold process_message. mnorm. rewrite bind_run. unfold ask at 1.
  destruct (time_time (ext w)) as [start_time x0] eqn:Et.
  set (w0 := MkWorld x0 (db w) (log w)).
  rewrite bind_run. unfold try_except. rewrite bind_run.
  pose proof (compute_turn_reads user_id session_id message start_time w0)
    as [Hdb (evs & Hlog & Hevs)].
  destruct (compute_turn user_id session_id message start_time w0)
    as [[[session t]|e] w1] eqn:Ec; cbn [snd] in Hdb, Hlog.
  - rewrite bind_run.
    pose proof (persist_turn_cases session_id message t w1) as Hp.
    destruct (persist_turn session_id message t w1) as [[am|e] w2].
    + destruct Hp as (uid & aid & c1 & c2 & -> & Hc & Hs & Hl).
      assert (Hturn :
        forall x : Ext,
          turn_committed session_id message t
            (assistant_message aid session_id t c2) w
            (MkWorld x (db w2) (log w2))).
      { intros x. exists (user_message uid session_id message t c1), evs.
        cbn [db log].
        split; [repeat split|]. split; [repeat split|].
        split; [rewrite Hs, Hdb; reflexivity|].
        split; [now rewrite Hc|].
        split; [now rewrite Hl, Hlog, app_assoc|exact Hevs]. }
      unfold ret at 1. cbn beta iota.
      unfold db_roundtrip. mnorm. rewrite !bind_run. unfold ask.
      destruct (db_fault (ext w2)) as [[e|] x3]; cbn.
      * right. exists t, (assistant_message aid session_id t c2).
        apply Hturn.
      * exists start_time, w0, w1, session, t,
          (assistant_message aid session_id t c2).
        split; [reflexivity|]. split; [exact Ec|].
        split; [apply Hturn|].
        split; [intros row; split; reflexivity|].
        repeat split.
    + destruct Hp as [Hc Hl]. rewrite rollback_raise_run. cbn.
      left. rewrite Hc, Hdb. repeat split.
      exists evs. split; [|exact Hevs]. now rewrite Hl, Hlog, app_assoc.
  - rewrite rollback_raise_run. cbn. left. rewrite Hdb. repeat split.
    exists evs. split; [|exact Hevs]. now rewrite Hlog, app_assoc.
Qed.

(* ===================================================================== *)
(** * Further properties                                                  *)
(* ===================================================================== *)

(** ** Stripping and slicing *)

Lemma lstrip_all_space (s : str) :
  lstrip s = [] -> Forall (fun c => isspace c = true) s.
Proof.
  induction s as [|c s IH]; cbn [lstrip]; [constructor|].
  destruct (isspace c) eqn:Hc; [|discriminate].
  intros Hs. constructor; auto.
Qed.

Lemma lstrip_head (s : str) (c : N) (r : str) :
  lstrip s = c :: r -> isspace c = false.
Proof.
  induction s as [|x s IH]; cbn [lstrip]; [discriminate|].
  destruct (isspace x) eqn:Hx; [exact IH|].
  now intros [= <- _].
Qed.

Lemma lstrip_nonspace (c : N) (r : str) :
  isspace c = false -> lstrip (c :: r) = c :: r.
Proof. intros Hc. cbn [lstrip]. now rewrite Hc. Qed.

Lemma lstrip_idem (s : str) : lstrip (lstrip s) = lstrip s.
Proof.
  destruct (lstrip s) as [|c r] eqn:E; [reflexivity|].
  apply lstrip_nonspace. eapply lstrip_head, E.
Qed.

Lemma lstrip_snoc_nonspace (l : str) (c : N) :
  isspace c = false -> lstrip (l ++ [c]) = lstrip l ++ [c].
Proof.
  intros Hc. induction l as [|x l IH]; cbn [lstrip app].
  - now rewrite Hc.
  - destruct (isspace x); [exact IH|reflexivity].
Qed.

Lemma rstrip_cons_nonspace (c : N) (r : str) :
  isspace c = false -> rstrip (c :: r) = c :: rstrip r.
Proof.
  intros Hc. unfold rstrip. cbn [rev].
  rewrite lstrip_snoc_nonspace by exact Hc.
  rewrite rev_app_distr. reflexivity.
Qed.

Lemma rstrip_idem (s : str) : rstrip (rstrip s) = rstrip s.
Proof. unfold rstrip. now rewrite rev_involutive, lstrip_idem. Qed.

(** [strip] is idempotent: a stripped text has no white space left at
    either end. *)
Lemma strip_idem (s : str) : strip (strip s) = strip s.
Proof.
  unfold strip. destruct (lstrip s) as [|c r] eqn:E; [reflexivity|].
  pose proof (lstrip_head _ _ _ E) as Hc.
  rewrite (rstrip_cons_nonspace c r Hc), (lstrip_nonspace c _ Hc).
  now rewrite (rstrip_cons_nonspace c _ Hc), rstrip_idem.
Qed.

Lemma strip_nil_all_space (s : str) :
  strip s = [] -> Forall (fun c => isspace c = true) s.
Proof.
  unfold strip. destruct (lstrip s) as [|c r] eqn:E.
  - intros _. now apply lstrip_all_space.
  - rewrite (rstrip_cons_nonspace c r (lstrip_head _ _ _ E)). discriminate.
Qed.

Lemma strip_head_nonspace (s : str) (c : N) (r : str) :
  strip s = c :: r -> isspace c = false.
Proof.
  unfold strip. destruct (lstrip s) as [|x l] eqn:E; [discriminate|].
  pose proof (lstrip_head _ _ _ E) as Hx.
  rewrite (rstrip_cons_nonspace x l Hx). now intros [= <- _].
Qed.

Lemma length_slice {A} (s : list A) (a b : Z) :
  0 <= a -> a <= b -> b <= len s -> len (slice s a b) = b - a.
Proof.
  unfold slice, clip, len. intros Ha Hab Hb.
  destruct (a <? 0) eqn:Ha'; [lia|]. destruct (b <? 0) eqn:Hb'; [lia|].
  rewrite length_take, length_drop. lia.
Qed.

Lemma length_slice_le {A} (s : list A) (a b : Z) :
  0 <= a -> a <= b -> len (slice s a b) <= b - a.
Proof.
  unfold slice, clip, len. intros Ha Hab.
  destruct (a <? 0) eqn:Ha'; [lia|]. destruct (b <? 0) eqn:Hb'; [lia|].
  rewrite length_take, length_drop. lia.
Qed.

Lemma slice_all {A} (s : list A) : slice s 0 (len s) = s.
Proof.
  unfold slice, clip, len.
  replace (0 <? 0) with false by reflexivity.
  replace (Z.of_nat (length s) <? 0) with false
    by (symmetry; apply Z.ltb_ge; lia).
  rewrite Z.min_id, Z.min_l by lia. cbn [Z.to_nat drop].
  rewrite Z.sub_0_r, Nat2Z.id. apply firstn_all.
Qed.

Lemma slice_lookup {A} (s : list A) (a b : Z) (p : nat) (x : A) :
  0 <= a -> a <= Z.of_nat p -> Z.of_nat p < b -> b <= len s ->
  s !! p = Some x -> x ∈ slice s a b.
Proof.
  unfold slice, clip, len. intros Ha Hap Hpb Hb Hx.
  destruct (a <? 0) eqn:Ha'; [lia|]. destruct (b <? 0) eqn:Hb'; [lia|].
  rewrite !Z.min_l by lia.
  apply list_elem_of_lookup. exists (p - Z.to_nat a)%nat.
  rewrite lookup_take_lt by lia. rewrite lookup_drop.
  replace (Z.to_nat a + (p - Z.to_nat a))%nat with p by lia. exact Hx.
Qed.

(** ** The text chunker: what every run keeps *)

Lemma sentence_endings_short :
  Forall (fun e => 1 <= len e <= 2) sentence_endings.
Proof. repeat constructor; vm_compute; discriminate. Qed.

Lemma first_ending_upper (text : str) (i : Z) (endings : list str) (b : Z) :
  Forall (fun e => 1 <= len e <= 2) endings -> 0 <= i ->
  first_ending text i endings = Some b -> b <= i + 2 /\ b <= len text.
Proof.
  intros Hlen Hi. induction Hlen as [|e es He _ IH]; cbn [first_ending];
    [discriminate|].
  destruct (str_eqb _ e) eqn:Heq; [|exact IH].
  intros [= <-]. apply str_eqb_eq in Heq.
  assert (Hl : len (slice text i (i + len e)) = len e) by now rewrite Heq.
  split; [lia|].
  revert Hl. unfold slice, clip, len in *.
  destruct (i <? 0) eqn:E1; [lia|].
  destruct (i + Z.of_nat (length e) <? 0) eqn:E2; [lia|].
  rewrite length_take, length_drop. lia.
Qed.

Lemma scan_break_upper (text : str) (end_ hi : Z) (positions : list Z)
    (best : Z) :
  Forall (fun i => 0 <= i <= hi) positions ->
  best <= hi + 2 -> best <= len text ->
  scan_break text end_ positions best <= hi + 2
  /\ scan_break text end_ positions best <= len text.
Proof.
  intros Hpos. revert best.
  induction Hpos as [|i ps Hi _ IH]; intros best Hb1 Hb2; cbn [scan_break];
    [auto|].
  destruct (first_ending text i sentence_endings) as [b|] eqn:Hf.
  - apply first_ending_upper in Hf as [? ?];
      [|exact sentence_endings_short|lia].
    destruct (b =? end_); [apply IH|]; lia.
  - destruct (best =? end_); [apply IH|]; lia.
Qed.

Lemma range_down_upper (a b : Z) : Forall (fun i => i <= a) (range_down a b).
Proof.
  unfold range_down. apply Forall_forall. intros i Hi.
  apply list_elem_of_fmap in Hi as (k & -> & Hk). lia.
Qed.

(** What one round of the loop does, with the end position [end_] it
    settles on. *)
Lemma chunk_iter_spec (text : str) (size overlap : Z) (ty : str)
    (st st' : chunk_loop_state) (goes_on : bool) :
  chunk_iter text size overlap ty st = (st', goes_on) ->
  exists end_,
    start st' = end_ - overlap
    /\ goes_on = negb ((end_ - overlap >=? len text) || (end_ =? len text))
    /\ (chunks st' = chunks st /\ next_index st' = next_index st
        /\ strip (slice text (start st) end_) = []
        \/ chunks st'
           = chunks st ++
               [ChunkDict.Make (strip (slice text (start st) end_))
                  (next_index st) ty (start st) end_
                  (len (strip (slice text (start st) end_)) / 4)]
           /\ next_index st' = next_index st + 1
           /\ strip (slice text (start st) end_) <> [])
    /\ (0 <= start st < len text -> 49 <= size ->
        start st < end_ <= len text /\ end_ <= start st + size + 51
        /\ (end_ = len text \/ start st + size - 48 <= end_)).
Proof.
  unfold chunk_iter.
  set (end_ :=
    if start st + size <? len text then
      scan_break text (start st + size)
        (range_down (Z.min (start st + size + 50) (len text) - 1)
           (start st + size - 50)) (start st + size)
    else len text).
  intros [= <- <-]. exists end_. cbn [start].
  split; [reflexivity|]. split; [reflexivity|]. split.
  - destruct (truthy (strip (slice text (start st) end_))) eqn:Hp;
      cbn [chunks next_index].
    + right. split; [reflexivity|]. split; [reflexivity|].
      now apply truthy_cons.
    + left. split; [reflexivity|]. split; [reflexivity|].
      now apply truthy_nil.
  - intros Hst Hsize. subst end_.
    destruct (start st + size <? len text) eqn:Hlt; [|lia].
    assert (Hlo : start st + size - 49 + 1
                  <= scan_break text (start st + size)
                       (range_down
                          (Z.min (start st + size + 50) (len text) - 1)
                          (start st + size - 50)) (start st + size)).
    { apply scan_break_lower; [|lia].
      eapply Forall_impl; [apply range_down_lower|]. intros; cbn in *; lia. }
    destruct (scan_break_upper text (start st + size)
                (Z.min (start st + size + 50) (len text) - 1)
                (range_down (Z.min (start st + size + 50) (len text) - 1)
                   (start st + size - 50)) (start st + size)) as [Hu1 Hu2];
      [|lia|lia|lia].
    pose proof (range_down_lower
                  (Z.min (start st + size + 50) (len text) - 1)
                  (start st + size - 50)) as Hl.
    pose proof (range_down_upper
                  (Z.min (start st + size + 50) (len text) - 1)
                  (start st + size - 50)) as Hu.
    rewrite Forall_forall in *. intros i Hi.
    specialize (Hl i Hi). specialize (Hu i Hi). cbn in *. lia.
Qed.

(** An invariant of the loop holds of the state it ends in: [P] is kept
    by the rounds that go on, [Q] holds after a round that leaves the
    loop. *)
Lemma chunk_loop_inv (text : str) (size overlap : Z) (ty : str)
    (P Q : chunk_loop_state -> Prop) :
  (forall st, P st -> Q st) ->
  (forall st st' goes_on,
     P st -> start st < len text ->
     chunk_iter text size overlap ty st = (st', goes_on) ->
     if goes_on then P st' else Q st') ->
  forall fuel st,
    P st -> Q (fst (chunk_loop fuel text size overlap ty st)).
Proof.
  intros HPQ Hstep. induction fuel as [|fuel IH]; intros st HP;
    cbn [chunk_loop].
  - destruct (start st <? len text); cbn [fst]; auto.
  - destruct (start st <? len text) eqn:Hlt; cbn [fst]; auto.
    destruct (chunk_iter text size overlap ty st) as [st' goes_on] eqn:Hit.
    specialize (Hstep st st' goes_on HP ltac:(lia) Hit).
    destruct goes_on; cbn [fst]; auto.
Qed.

(** The same for a loop that has finished: [Q] holds where the [while]
    test fails, and after the round that takes the [break]. *)
Lemma chunk_loop_exit (text : str) (size overlap : Z) (ty : str)
    (P Q : chunk_loop_state -> Prop) :
  (forall st, P st -> len text <= start st -> Q st) ->
  (forall st st' goes_on,
     P st -> start st < len text ->
     chunk_iter text size overlap ty st = (st', goes_on) ->
     if goes_on then P st' else Q st') ->
  forall fuel st,
    P st -> snd (chunk_loop fuel text size overlap ty st) = true ->
    Q (fst (chunk_loop fuel text size overlap ty st)).
Proof.
  intros Hout Hstep. induction fuel as [|fuel IH]; intros st HP;
    cbn [chunk_loop].
  - destruct (start st <? len text) eqn:Hlt; cbn [fst snd];
      [discriminate|]. intros _. apply Hout; [exact HP|lia].
  - destruct (start st <? len text) eqn:Hlt; cbn [fst snd].
    2:{ intros _. apply Hout; [exact HP|lia]. }
    destruct (chunk_iter text size overlap ty st) as [st' goes_on] eqn:Hit.
    specialize (Hstep st st' goes_on HP ltac:(lia) Hit).
    destruct goes_on; cbn [fst snd]; auto.
Qed.

(** The parameters [chunk_text] works with after its two adjustments,
    when [chunk_size], cut to the recommended maximum, exceeds the overlap
    by at least 49. *)
Lemma chunk_text_run_unfold (fuel : nat) (text : str)
    (chunk_size chunk_overlap : Z) (ty : str) :
  49 <= Z.min chunk_size _RECOMMENDED_MAX_CHUNK_SIZE - chunk_overlap ->
  strip text <> [] ->
  chunk_text_run fuel text chunk_size chunk_overlap ty
  = (chunks (fst (chunk_loop fuel (strip text)
                    (Z.min chunk_size _RECOMMENDED_MAX_CHUNK_SIZE)
                    chunk_overlap ty (ChunkLoop [] 0 0))),
     snd (chunk_loop fuel (strip text)
            (Z.min chunk_size _RECOMMENDED_MAX_CHUNK_SIZE)
            chunk_overlap ty (ChunkLoop [] 0 0))).
Proof.
  intros Hgap Hne. unfold chunk_text_run.
  assert (Ht : truthy text = true).
  { destruct text; [now destruct Hne|reflexivity]. }
  assert (Hs : truthy (strip text) = true).
  { destruct (strip text); [now destruct Hne|reflexivity]. }
  rewrite Ht, Hs. cbn [negb orb].
  assert (Hsz : (if chunk_size >? _RECOMMENDED_MAX_CHUNK_SIZE
                 then _RECOMMENDED_MAX_CHUNK_SIZE else chunk_size)
                = Z.min chunk_size _RECOMMENDED_MAX_CHUNK_SIZE).
  { destruct (chunk_size >? _RECOMMENDED_MAX_CHUNK_SIZE) eqn:E; lia. }
  rewrite Hsz.
  assert (Hov : (chunk_overlap
                 >=? Z.min chunk_size _RECOMMENDED_MAX_CHUNK_SIZE) = false)
    by lia.
  rewrite Hov.
  now destruct (chunk_loop _ _ _ _ _ _).
Qed.

Lemma chunk_loop_indexes (fuel : nat) (text : str) (size overlap : Z)
    (ty : str) :
  let cs := chunks (fst (chunk_loop fuel text size overlap ty
                           (ChunkLoop [] 0 0))) in
  map ChunkDict.chunk_index cs = map Z.of_nat (seq 0 (length cs))
  /\ Forall (fun c => ChunkDict.chunk_type c = ty) cs.
Proof.
  cbv zeta.
  apply (chunk_loop_inv text size overlap ty
           (fun st =>
              next_index st = len (chunks st)
              /\ map ChunkDict.chunk_index (chunks st)
                 = map Z.of_nat (seq 0 (length (chunks st)))
              /\ Forall (fun c => ChunkDict.chunk_type c = ty) (chunks st))
           (fun st =>
              map ChunkDict.chunk_index (chunks st)
              = map Z.of_nat (seq 0 (length (chunks st)))
              /\ Forall (fun c => ChunkDict.chunk_type c = ty) (chunks st))).
  - intros st (_ & Hi & Ht). now split.
  - intros st1 st2 goes_on (Hn & Hi & Ht) _ Hit.
    apply chunk_iter_spec in Hit as (e & _ & _ & Hch & _).
    assert (next_index st2 = len (chunks st2)
            /\ map ChunkDict.chunk_index (chunks st2)
               = map Z.of_nat (seq 0 (length (chunks st2)))
            /\ Forall (fun c => ChunkDict.chunk_type c = ty) (chunks st2))
      as Hall.
    { destruct Hch as [(-> & -> & _)|(-> & -> & _)]; [now repeat split|].
      unfold len in *. rewrite length_app, map_app, seq_app, map_app, Hi.
      cbn [length map seq ChunkDict.chunk_index plus].
      split; [lia|]. split; [now rewrite Hn|].
      apply Forall_app. split; [exact Ht|]. now repeat constructor. }
    destruct goes_on; [exact Hall|]. now destruct Hall as (_ & ? & ?).
  - cbn. split; [reflexivity|]. split; [reflexivity|constructor].
Qed.

(** The chunk indexes count the emitted chunks from 0, whatever the text
    and the sizes, and every chunk has the chunk type that was asked
    for. *)
Theorem chunk_text_indexes_consecutive (fuel : nat) (text : str)
    (chunk_size chunk_overlap : Z) (chunk_type : str) :
  let cs :=
    fst (chunk_text_run fuel text chunk_size chunk_overlap chunk_type) in
  map ChunkDict.chunk_index cs = map Z.of_nat (seq 0 (length cs))
  /\ Forall (fun c => ChunkDict.chunk_type c = chunk_type) cs.
Proof.
  cbv zeta. unfold chunk_text_run.
  destruct (negb (truthy text) || negb (truthy (strip text)));
    [split; [reflexivity|constructor]|].
  match goal with
  | |- context [chunk_loop ?f ?t ?s ?o ?y ?st0] =>
      pose proof (chunk_loop_indexes f t s o y) as Hinv;
      destruct (chunk_loop f t s o y st0) as [st fin]
  end.
  exact Hinv.
Qed.

Lemma chunk_loop_pieces (fuel : nat) (text : str) (size overlap : Z)
    (ty : str) :
  Forall
    (fun c =>
       ChunkDict.chunk_text c
       = strip (slice text (ChunkDict.start_char c) (ChunkDict.end_char c))
       /\ ChunkDict.chunk_text c <> []
       /\ strip (ChunkDict.chunk_text c) = ChunkDict.chunk_text c)
    (chunks (fst (chunk_loop fuel text size overlap ty (ChunkLoop [] 0 0)))).
Proof.
  set (ok := fun c =>
       ChunkDict.chunk_text c
       = strip (slice text (ChunkDict.start_char c) (ChunkDict.end_char c))
       /\ ChunkDict.chunk_text c <> []
       /\ strip (ChunkDict.chunk_text c) = ChunkDict.chunk_text c).
  apply (chunk_loop_inv text size overlap ty
           (fun st => Forall ok (chunks st))
           (fun st => Forall ok (chunks st))).
  - auto.
  - intros st1 st2 goes_on Hall _ Hit.
    apply chunk_iter_spec in Hit as (e & _ & _ & Hch & _).
    assert (Forall ok (chunks st2)) as Hall2.
    { destruct Hch as [(-> & _ & _)|(-> & _ & Hne)]; [exact Hall|].
      apply Forall_app. split; [exact Hall|].
      constructor; [|constructor]. unfold ok.
      cbn [ChunkDict.chunk_text ChunkDict.start_char ChunkDict.end_char].
      split; [reflexivity|]. split; [exact Hne|apply strip_idem]. }
    destruct goes_on; exact Hall2.
  - constructor.
Qed.

(** Every emitted chunk is the stripped slice of the stripped text
    between its two offsets; it is not empty and has no white space at
    either end. *)
Theorem chunk_text_pieces (fuel : nat) (text : str)
    (chunk_size chunk_overlap : Z) (chunk_type : str) :
  Forall
    (fun c =>
       ChunkDict.chunk_text c
       = strip (slice (strip text) (ChunkDict.start_char c)
                  (ChunkDict.end_char c))
       /\ ChunkDict.chunk_text c <> []
       /\ strip (ChunkDict.chunk_text c) = ChunkDict.chunk_text c)
    (fst (chunk_text_run fuel text chunk_size chunk_overlap chunk_type)).
Proof.
  unfold chunk_text_run.
  destruct (negb (truthy text) || negb (truthy (strip text)));
    [constructor|].
  match goal with
  | |- context [chunk_loop ?f ?t ?s ?o ?y ?st0] =>
      pose proof (chunk_loop_pieces f t s o y) as Hinv;
      destruct (chunk_loop f t s o y st0) as [st fin]
  end.
  exact Hinv.
Qed.

(** ** The text chunker: offsets, coverage and termination *)

Lemma chunk_text_run_blank (fuel : nat) (text : str)
    (chunk_size chunk_overlap : Z) (ty : str) :
  strip text = [] ->
  chunk_text_run fuel text chunk_size chunk_overlap ty = ([], true).
Proof.
  intros Hb. unfold chunk_text_run. rewrite Hb. cbn [truthy negb].
  now rewrite orb_true_r.
Qed.

Lemma len_strip_le (s : str) : len (strip s) <= len s.
Proof. pose proof (length_strip_le s). unfold len. lia. Qed.

Lemma chunk_loop_bounds (fuel : nat) (text : str) (size overlap : Z)
    (ty : str) :
  0 <= overlap -> 49 <= size - overlap ->
  Forall
    (fun c =>
       0 <= ChunkDict.start_char c < ChunkDict.end_char c
       /\ ChunkDict.end_char c <= len text
       /\ len (ChunkDict.chunk_text c)
          <= ChunkDict.end_char c - ChunkDict.start_char c
       /\ ChunkDict.end_char c - ChunkDict.start_char c <= size + 51)
    (chunks (fst (chunk_loop fuel text size overlap ty (ChunkLoop [] 0 0)))).
Proof.
  intros Hov Hgap.
  set (ok := fun c =>
       0 <= ChunkDict.start_char c < ChunkDict.end_char c
       /\ ChunkDict.end_char c <= len text
       /\ len (ChunkDict.chunk_text c)
          <= ChunkDict.end_char c - ChunkDict.start_char c
       /\ ChunkDict.end_char c - ChunkDict.start_char c <= size + 51).
  apply (chunk_loop_inv text size overlap ty
           (fun st => 0 <= start st /\ Forall ok (chunks st))
           (fun st => Forall ok (chunks st))).
  - now intros st [_ ?].
  - intros st1 st2 goes_on [Hs Hall] Hlt Hit.
    apply chunk_iter_spec in Hit as (e & Hs2 & Hgo & Hch & Hend).
    destruct (Hend ltac:(lia) ltac:(lia)) as (He1 & He2 & He3).
    assert (Forall ok (chunks st2)) as Hall2.
    { destruct Hch as [(-> & _ & _)|(-> & _ & Hne)]; [exact Hall|].
      apply Forall_app. split; [exact Hall|].
      constructor; [|constructor]. unfold ok.
      cbn [ChunkDict.chunk_text ChunkDict.start_char ChunkDict.end_char].
      pose proof (len_strip_le (slice text (start st1) e)).
      pose proof (length_slice_le text (start st1) e ltac:(lia) ltac:(lia)).
      lia. }
    destruct goes_on; [|exact Hall2]. split; [|exact Hall2].
    symmetry in Hgo. apply negb_true_iff, orb_false_iff in Hgo as [_ Hne].
    lia.
  - split; [reflexivity|constructor].
Qed.

(** The offsets of a chunk. When [chunk_size], cut to the recommended
    maximum, exceeds a non-negative overlap by at least 49, every chunk
    lies inside the stripped text, is not longer than the span between
    its offsets, and that span is at most the chunk size plus 51: the
    search for a sentence end may move the cut up to 51 characters to the
    right. *)
Theorem chunk_text_offsets (fuel : nat) (text : str)
    (chunk_size chunk_overlap : Z) (chunk_type : str) :
  0 <= chunk_overlap ->
  49 <= Z.min chunk_size _RECOMMENDED_MAX_CHUNK_SIZE - chunk_overlap ->
  Forall
    (fun c =>
       0 <= ChunkDict.start_char c < ChunkDict.end_char c
       /\ ChunkDict.end_char c <= len (strip text)
       /\ len (ChunkDict.chunk_text c)
          <= ChunkDict.end_char c - ChunkDict.start_char c
       /\ ChunkDict.end_char c - ChunkDict.start_char c
          <= Z.min chunk_size _RECOMMENDED_MAX_CHUNK_SIZE + 51)
    (fst (chunk_text_run fuel text chunk_size chunk_overlap chunk_type)).
Proof.
  intros Hov Hgap.
  destruct (strip text) as [|c r] eqn:Hs.
  - rewrite chunk_text_run_blank by exact Hs. constructor.
  - rewrite chunk_text_run_unfold by (rewrite ?Hs; easy). cbn [fst].
    rewrite Hs. now apply chunk_loop_bounds.
Qed.

Lemma chunk_loop_covers (fuel : nat) (text : str) (size overlap : Z)
    (ty : str) :
  0 <= overlap -> 49 <= size - overlap ->
  snd (chunk_loop fuel text size overlap ty (ChunkLoop [] 0 0)) = true ->
  forall (p : nat) (x : N),
    text !! p = Some x -> isspace x = false ->
    Exists
      (fun c => ChunkDict.start_char c <= Z.of_nat p < ChunkDict.end_char c)
      (chunks (fst (chunk_loop fuel text size overlap ty
                      (ChunkLoop [] 0 0)))).
Proof.
  intros Hov Hgap.
  set (covered := fun (e : Z) (cs : list ChunkDict.t) =>
         forall (p : nat) (x : N),
           Z.of_nat p < e -> text !! p = Some x -> isspace x = false ->
           Exists
             (fun c =>
                ChunkDict.start_char c <= Z.of_nat p < ChunkDict.end_char c)
             cs).
  intros Hfin p x Hp Hx.
  enough (covered (len text)
            (chunks (fst (chunk_loop fuel text size overlap ty
                            (ChunkLoop [] 0 0))))) as Hc.
  { apply (Hc p x); [|exact Hp|exact Hx].
    apply lookup_lt_Some in Hp. unfold len. lia. }
  revert Hfin.
  apply (chunk_loop_exit text size overlap ty
           (fun st =>
              0 <= start st
              /\ exists e, start st <= e <= len text
                           /\ covered e (chunks st))
           (fun st => covered (len text) (chunks st))).
  - intros st (Hs & e & He & Hc) Hout.
    replace (len text) with e by lia. exact Hc.
  - intros st1 st2 goes_on (Hs & e & He & Hc) Hlt Hit.
    apply chunk_iter_spec in Hit as (e2 & Hs2 & Hgo & Hch & Hend).
    destruct (Hend ltac:(lia) ltac:(lia)) as (He1 & He2 & He3).
    assert (Hc2 : covered (Z.max e e2) (chunks st2)).
    { intros q y Hq Hy Hsp.
      destruct (Z.lt_ge_cases (Z.of_nat q) e) as [Hlo|Hhi].
      - specialize (Hc q y Hlo Hy Hsp).
        destruct Hch as [(-> & _)|(-> & _)]; [exact Hc|].
        apply Exists_app. now left.
      - assert (Hin : y ∈ slice text (start st1) e2).
        { apply (slice_lookup text (start st1) e2 q y); try lia.
          exact Hy. }
        destruct Hch as [(_ & _ & Hnil)|(-> & _ & _)].
        + apply strip_nil_all_space in Hnil.
          rewrite Forall_forall in Hnil. specialize (Hnil y Hin).
          congruence.
        + apply Exists_app. right. constructor.
          cbn [ChunkDict.start_char ChunkDict.end_char]. lia. }
    destruct goes_on.
    + symmetry in Hgo.
      apply negb_true_iff, orb_false_iff in Hgo as [_ Hne].
      split; [lia|]. exists (Z.max e e2). split; [lia|exact Hc2].
    + symmetry in Hgo.
      apply negb_false_iff, orb_true_iff in Hgo as [Hge|Heq].
      * replace (len text) with (Z.max e e2) by lia. exact Hc2.
      * replace (len text) with (Z.max e e2) by lia. exact Hc2.
  - split; [reflexivity|]. exists 0. split.
    + cbn [start]. pose proof (len_nonneg text). lia.
    + intros q y Hq. lia.
Qed.

(** Nothing but white space is lost. When [chunk_size], cut to the
    recommended maximum, exceeds a non-negative overlap by at least 49,
    every character of the stripped text that is not white space lies
    between the offsets of some chunk of the returned list. *)
Theorem chunk_text_covers (fuel : nat) (text : str)
    (chunk_size chunk_overlap : Z) (chunk_type : str)
    (cs : list ChunkDict.t) :
  0 <= chunk_overlap ->
  49 <= Z.min chunk_size _RECOMMENDED_MAX_CHUNK_SIZE - chunk_overlap ->
  chunk_text fuel text chunk_size chunk_overlap chunk_type = Some cs ->
  forall (p : nat) (x : N),
    strip text !! p = Some x -> isspace x = false ->
    Exists
      (fun c => ChunkDict.start_char c <= Z.of_nat p < ChunkDict.end_char c)
      cs.
Proof.
  intros Hov Hgap Hrun p x Hp Hx.
  assert (Hne : strip text <> []) by (intros E; now rewrite E in Hp).
  unfold chunk_text in Hrun.
  rewrite chunk_text_run_unfold in Hrun by assumption.
  destruct (snd (chunk_loop _ _ _ _ _ _)) eqn:Hfin; [|discriminate].
  injection Hrun as <-.
  now apply (chunk_loop_covers fuel _ _ _ _ Hov Hgap Hfin p x).
Qed.

(** [chunk_text] returns. When [chunk_size], cut to the recommended
    maximum, exceeds the overlap by at least 49, every round of the loop
    moves [start] forward, and the function returns within
    [len(text) + 1] rounds. *)
Theorem chunk_text_terminates (text : str) (chunk_size chunk_overlap : Z)
    (chunk_type : str) :
  49 <= Z.min chunk_size _RECOMMENDED_MAX_CHUNK_SIZE - chunk_overlap ->
  exists cs,
    chunk_text (S (length text)) text chunk_size chunk_overlap chunk_type
    = Some cs.
Proof.
  intros Hgap. unfold chunk_text.
  destruct (strip text) as [|c r] eqn:Hs.
  - rewrite chunk_text_run_blank by exact Hs. now exists [].
  - rewrite chunk_text_run_unfold by (rewrite ?Hs; easy).
    rewrite chunk_loop_finishes; [eauto|exact Hgap|].
    cbn [start]. pose proof (len_strip_le text). unfold len in *. lia.
Qed.

(** A text that fits one chunk. When the stripped text is not empty and
    not longer than [chunk_size] (cut to the recommended maximum),
    [chunk_text] returns after one round with a single chunk: the whole
    stripped text, from offset 0 to its length, whatever the overlap. *)
Theorem chunk_text_single_chunk (fuel : nat) (text : str)
    (chunk_size chunk_overlap : Z) (chunk_type : str) :
  strip text <> [] ->
  len (strip text) <= Z.min chunk_size _RECOMMENDED_MAX_CHUNK_SIZE ->
  chunk_text (S fuel) text chunk_size chunk_overlap chunk_type
  = Some [ChunkDict.Make (strip text) 0 chunk_type 0 (len (strip text))
            (len (strip text) / 4)].
Proof.
  intros Hne Hfit. unfold chunk_text, chunk_text_run.
  assert (Ht : truthy text = true).
  { destruct text; [now destruct Hne|reflexivity]. }
  assert (Hs : truthy (strip text) = true).
  { destruct (strip text); [now destruct Hne|reflexivity]. }
  rewrite Ht, Hs. cbn [negb orb].
  assert (Hsz : (if chunk_size >? _RECOMMENDED_MAX_CHUNK_SIZE
                 then _RECOMMENDED_MAX_CHUNK_SIZE else chunk_size)
                = Z.min chunk_size _RECOMMENDED_MAX_CHUNK_SIZE).
  { destruct (chunk_size >? _RECOMMENDED_MAX_CHUNK_SIZE) eqn:E; lia. }
  rewrite Hsz.
  set (size := Z.min chunk_size _RECOMMENDED_MAX_CHUNK_SIZE) in *.
  set (overlap := if chunk_overlap >=? size then size / 5 else chunk_overlap).
  assert (Hpos : 0 < len (strip text)).
  { destruct (strip text); [now destruct Hne|]. unfold len. cbn. lia. }
  cbn [chunk_loop start].
  replace (0 <? len (strip text)) with true by (symmetry; lia).
  unfold chunk_iter. cbn [start chunks next_index].
  replace (0 + size <? len (strip text)) with false by (symmetry; lia).
  rewrite slice_all, strip_idem, Hs. cbn [chunks next_index app].
  rewrite Z.eqb_refl, orb_true_r. reflexivity.
Qed.

(** ** The text chunker: sizes under which it does not return *)

Lemma rstrip_snoc_nonspace (l : str) (c : N) :
  isspace c = false -> rstrip (l ++ [c]) = l ++ [c].
Proof.
  intros Hc. unfold rstrip. rewrite rev_app_distr. cbn [rev app].
  rewrite lstrip_nonspace by exact Hc. cbn [rev].
  now rewrite rev_involutive.
Qed.

Lemma range_down_cons (a b : Z) :
  b < a -> range_down a b = a :: range_down (a - 1) b.
Proof.
  intros Hab. unfold range_down.
  replace (Z.to_nat (a - b)) with (S (Z.to_nat (a - 1 - b))) by lia.
  cbn [seq map]. rewrite <- seq_shift, map_map. f_equal; [lia|].
  apply map_ext. intros k. lia.
Qed.

Lemma str_eqb_head_differs (s e : str) (c : N) :
  head e = Some c ->
  match head s with Some x => x <> c | None => True end ->
  str_eqb s e = false.
Proof.
  destruct e as [|y e]; [discriminate|]. intros [= ->].
  destruct s as [|x s]; [reflexivity|]. cbn [head str_eqb]. intros Hx.
  apply andb_false_iff. left. now apply N.eqb_neq.
Qed.

(** In [a. xxx...], no sentence ending starts at position 2 or later. *)
Lemma no_ending_in_run (k : nat) (i : Z) :
  2 <= i ->
  first_ending (u "a. " ++ replicate k 120%N) i sentence_endings = None.
Proof.
  intros Hi.
  assert (Hhead : forall j,
            match head (slice (u "a. " ++ replicate k 120%N) i j) with
            | Some x => x = 32%N \/ x = 120%N
            | None => True
            end).
  { intros j. unfold slice, clip.
    replace (i <? 0) with false by (symmetry; lia).
    set (n := Z.to_nat (_ - _)). set (d := Z.to_nat (Z.min i _)).
    assert (Hd : (2 <= d)%nat).
    { subst d. unfold len. rewrite length_app.
      change (u "a. ") with [97; 46; 32]%N. cbn [length]. lia. }
    clearbody n d.
    destruct (head _) as [x|] eqn:Hh; [|exact I].
    apply head_Some_elem_of, subseteq_take in Hh.
    destruct d as [|[|d]]; [lia|lia|].
    change (u "a. ") with [97; 46; 32]%N in Hh. cbn [app drop] in Hh.
    apply subseteq_drop in Hh.
    apply elem_of_cons in Hh as [->|Hh]; [now left|].
    right. now apply elem_of_replicate_inv in Hh. }
  assert (Hno : forall e c, head e = Some c -> c <> 32%N -> c <> 120%N ->
            str_eqb (slice (u "a. " ++ replicate k 120%N) i (i + len e)) e
            = false).
  { intros e c He Hc1 Hc2. apply (str_eqb_head_differs _ e c He).
    specialize (Hhead (i + len e)).
    destruct (head _); [|exact I]. destruct Hhead; congruence. }
  unfold sentence_endings. cbn [first_ending].
  rewrite (Hno (u ". ") 46%N), (Hno (u "! ") 33%N), (Hno (u "? ") 63%N),
    (Hno [10; 10]%N 10%N), (Hno [10]%N 10%N); easy.
Qed.

(** The search for a sentence end in [a. xxx...] settles on position 3,
    the end of [a. ], from wherever it starts. *)
Lemma scan_break_in_run (k : nat) (end_ lo : Z) (n : nat) :
  (1 <= k)%nat -> lo < 1 -> end_ <> 3 ->
  scan_break (u "a. " ++ replicate k 120%N) end_
    (range_down (1 + Z.of_nat n) lo) end_ = 3.
Proof.
  intros Hk Hlo Hend. induction n as [|n IH].
  - change (1 + Z.of_nat 0) with 1.
    rewrite range_down_cons by lia. cbn [scan_break].
    assert (Hf : first_ending (u "a. " ++ replicate k 120%N) 1
                   sentence_endings = Some 3).
    { unfold sentence_endings. cbn [first_ending].
      assert (Hs : slice (u "a. " ++ replicate k 120%N) 1 (1 + len (u ". "))
                   = u ". ").
      { unfold slice, clip, len. rewrite length_app, length_replicate.
        change (u "a. ") with [97; 46; 32]%N.
        change (u ". ") with [46; 32]%N. cbn [length].
        replace (1 <? 0) with false by reflexivity.
        replace (1 + Z.of_nat 2 <? 0) with false by reflexivity.
        rewrite !Z.min_l by lia. reflexivity. }
      rewrite Hs. reflexivity. }
    rewrite Hf. replace (3 =? end_) with false by (symmetry; lia).
    reflexivity.
  - rewrite range_down_cons by lia. cbn [scan_break].
    rewrite no_ending_in_run by lia. rewrite Z.eqb_refl.
    replace (1 + Z.of_nat (S n) - 1) with (1 + Z.of_nat n) by lia.
    exact IH.
Qed.

Lemma chunk_loop_stuck (fuel k : nat) (ty : str) (cs : list ChunkDict.t)
    (n : Z) :
  (13 <= k)%nat ->
  snd (chunk_loop fuel (u "a. " ++ replicate k 120%N) 15 5 ty
         (ChunkLoop cs (-2) n)) = false.
Proof.
  intros Hk. set (text := u "a. " ++ replicate k 120%N).
  assert (Hlen : len text = 3 + Z.of_nat k).
  { unfold len, text. rewrite length_app, length_replicate.
    change (u "a. ") with [97; 46; 32]%N. cbn [length]. lia. }
  induction fuel as [|fuel IH]; cbn [chunk_loop start].
  - replace (-2 <? len text) with true by (symmetry; lia). reflexivity.
  - replace (-2 <? len text) with true by (symmetry; lia).
    assert (Hit : chunk_iter text 15 5 ty (ChunkLoop cs (-2) n)
                  = (ChunkLoop cs (-2) n, true)).
    { unfold chunk_iter. cbn [start chunks next_index].
      replace (-2 + 15 <? len text) with true by (symmetry; lia).
      assert (Hscan : scan_break text (-2 + 15)
                (range_down (Z.min (-2 + 15 + 50) (len text) - 1)
                   (-2 + 15 - 50)) (-2 + 15) = 3).
      { replace (Z.min (-2 + 15 + 50) (len text) - 1)
          with (1 + Z.of_nat (Z.to_nat (Z.min 63 (len text) - 2))) by lia.
        apply scan_break_in_run; lia. }
      rewrite Hscan.
      assert (Hs : slice text (-2) 3 = []).
      { unfold slice, clip. cbn [Z.ltb Z.compare].
        replace (Z.to_nat (Z.min 3 (len text) - Z.max (-2 + len text) 0))
          with 0%nat by lia.
        reflexivity. }
      rewrite Hs. cbn [strip lstrip rstrip rev truthy chunks next_index].
      replace (3 - 5 >=? len text) with false by (symmetry; lia).
      replace (3 =? len text) with false by (symmetry; lia).
      reflexivity. }
    rewrite Hit. exact IH.
Qed.

(** A text on which [chunk_text] does not return. With a chunk size of 15
    and an overlap of 5, on [a. ] followed by at least 13 letters [x],
    the first round cuts after [a. ] and moves [start] to -2; every later
    round finds the same cut, emits nothing and leaves [start] at -2. The
    loop is still running after any number of rounds. *)
Theorem chunk_text_small_size_loops (fuel k : nat) (chunk_type : str) :
  (13 <= k)%nat ->
  chunk_text fuel (u "a. " ++ replicate k 120%N) 15 5 chunk_type = None.
Proof.
  intros Hk. set (text := u "a. " ++ replicate k 120%N).
  assert (Hlen : len text = 3 + Z.of_nat k).
  { unfold len, text. rewrite length_app, length_replicate.
    change (u "a. ") with [97; 46; 32]%N. cbn [length]. lia. }
  assert (Hstrip : strip text = text).
  { unfold strip, text. change (u "a. ") with [97; 46; 32]%N.
    cbn [app]. rewrite lstrip_nonspace by reflexivity.
    destruct k as [|k]; [lia|]. rewrite replicate_S_end.
    change (97 :: 46 :: 32 :: replicate k 120 ++ [120])%N
      with ((97 :: 46 :: 32 :: replicate k 120) ++ [120])%N.
    now apply rstrip_snoc_nonspace. }
  unfold chunk_text, chunk_text_run. rewrite Hstrip.
  replace (truthy text) with true by reflexivity. cbn [negb orb].
  replace (15 >? _RECOMMENDED_MAX_CHUNK_SIZE) with false by reflexivity.
  replace (5 >=? 15) with false by reflexivity. cbv iota.
  enough (Hsnd : snd (chunk_loop fuel text 15 5 chunk_type (ChunkLoop [] 0 0))
                 = false).
  { destruct (chunk_loop _ _ _ _ _ _) as [st fin]. cbn [snd] in Hsnd.
    now rewrite Hsnd. }
  destruct fuel as [|fuel]; cbn [chunk_loop start].
  - replace (0 <? len text) with true by (symmetry; lia). reflexivity.
  - replace (0 <? len text) with true by (symmetry; lia).
    unfold chunk_iter. cbn [start chunks next_index].
    replace (0 + 15 <? len text) with true by (symmetry; lia).
    assert (Hscan : scan_break text (0 + 15)
              (range_down (Z.min (0 + 15 + 50) (len text) - 1)
                 (0 + 15 - 50)) (0 + 15) = 3).
    { replace (Z.min (0 + 15 + 50) (len text) - 1)
        with (1 + Z.of_nat (Z.to_nat (Z.min 65 (len text) - 2))) by lia.
      apply scan_break_in_run; lia. }
    rewrite Hscan.
    replace (3 - 5 >=? len text) with false by (symmetry; lia).
    replace (3 =? len text) with false by (symmetry; lia).
    cbn [negb orb].
    match goal with
    | |- snd (chunk_loop _ _ _ _ _ (ChunkLoop ?cs _ ?n)) = false =>
        exact (chunk_loop_stuck fuel k chunk_type cs n Hk)
    end.
Qed.

(** ** The embedding gateway: how often the provider is asked *)

(** One round of the retry loop. *)
Lemma retry_loop_cons (c : contents) (t : str) (a : nat) (rest : list nat)
    (w : World Ext) :
  retry_loop c t (a :: rest) w
  = let after x := MkWorld x (db w) (log w ++ [EvEmbed c t]) in
    match embed_content c t (ext w) with
    | (Ok v, x) => (Ok v, after x)
    | (Raise e, x) =>
        if negb (_is_retryable_error e)
           || (Z.of_nat a >=? _EMBEDDING_MAX_RETRIES)
        then (Raise e, after x)
        else if (1024 <=? a)%nat
        then (Raise (mk_exn OverflowError "int too large to convert to float"),
              after x)
        else
          match time_sleep x with
          | (Some e', x') => (Raise e', after x')
          | (None, x') => retry_loop c t rest (after x')
          end
    end.
Proof.
  cbn [retry_loop]. unfold try_except, call_embed.
  destruct (embed_content c t (ext w)) as [[v|e] x]; [reflexivity|].
  destruct (negb (_is_retryable_error e)
            || (Z.of_nat a >=? _EMBEDDING_MAX_RETRIES)); [reflexivity|].
  mnorm. rewrite bind_run. unfold _get_backoff_seconds.
  destruct (1024 <=? a)%nat; [reflexivity|].
  cbn [lift ret]. rewrite bind_run. unfold backoff_sleep. cbn [ext db log].
  destruct (time_sleep x) as [[e'|] x']; reflexivity.
Qed.

Lemma retry_loop_calls (c : contents) (t : str) :
  forall (n a : nat) (w : World Ext),
    (1 <= n)%nat ->
    Z.of_nat (a + n) = _EMBEDDING_MAX_RETRIES + 1 ->
    exists m : nat,
      (1 <= m <= n)%nat
      /\ db (snd (retry_loop c t (seq a n) w)) = db w
      /\ log (snd (retry_loop c t (seq a n) w))
         = log w ++ replicate m (EvEmbed c t).
Proof.
  induction n as [|n IH]; intros a w Hn Han; [lia|].
  cbn [seq]. rewrite retry_loop_cons. cbv zeta.
  destruct (embed_content c t (ext w)) as [[v|e] x].
  - exists 1%nat. cbn. split; [lia|]. now split.
  - destruct (negb (_is_retryable_error e)
              || (Z.of_nat a >=? _EMBEDDING_MAX_RETRIES)) eqn:Hc.
    { exists 1%nat. cbn. split; [lia|]. now split. }
    apply orb_false_iff in Hc as [_ Hc].
    destruct (1024 <=? a)%nat.
    { exists 1%nat. cbn. split; [lia|]. now split. }
    destruct (time_sleep x) as [[e'|] x'].
    { exists 1%nat. cbn. split; [lia|]. now split. }
    destruct (IH (S a) (MkWorld x' (db w) (log w ++ [EvEmbed c t]))
                ltac:(lia) ltac:(lia)) as (m & Hm & Hdb & Hlog).
    exists (S m). split; [lia|]. split; [exact Hdb|].
    rewrite Hlog. cbn [log replicate]. now rewrite <- app_assoc.
Qed.

Lemma max_retries_nonneg : 0 <= _EMBEDDING_MAX_RETRIES.
Proof. unfold _EMBEDDING_MAX_RETRIES. lia. Qed.

(** The retry loop is bounded. One call of [_embed_content_with_retry]
    sends at least one and at most [_EMBEDDING_MAX_RETRIES + 1] requests
    to the provider, all with the contents and the task type it was
    given, and does nothing else. *)
Theorem embed_retry_bounded (c : contents) (task_type : str)
    (w : World Ext) :
  exists m : nat,
    1 <= Z.of_nat m <= _EMBEDDING_MAX_RETRIES + 1
    /\ db (snd (_embed_content_with_retry c task_type w)) = db w
    /\ log (snd (_embed_content_with_retry c task_type w))
       = log w ++ replicate m (EvEmbed c task_type).
Proof.
  pose proof max_retries_nonneg as Hmax.
  unfold _embed_content_with_retry.
  destruct (retry_loop_calls c task_type
              (Z.to_nat (_EMBEDDING_MAX_RETRIES + 1)) 0 w
              ltac:(lia) ltac:(lia)) as (m & Hm & Hdb & Hlog).
  exists m. split; [lia|]. now split.
Qed.

(** An error that is not a rate-limit error is not retried: the first
    request is the only one, and its error is raised as it is. *)
Theorem embed_retry_stops_on_other_errors (c : contents) (task_type : str)
    (w : World Ext) (e : exn) (x : Ext) :
  embed_content c task_type (ext w) = (Raise e, x) ->
  _is_retryable_error e = false ->
  _embed_content_with_retry c task_type w
  = (Raise e, MkWorld x (db w) (log w ++ [EvEmbed c task_type])).
Proof.
  intros Hcall Hre. pose proof max_retries_nonneg as Hmax.
  unfold _embed_content_with_retry.
  replace (Z.to_nat (_EMBEDDING_MAX_RETRIES + 1))
    with (S (Z.to_nat _EMBEDDING_MAX_RETRIES)) by lia.
  cbn [seq]. rewrite retry_loop_cons, Hcall, Hre. reflexivity.
Qed.

Lemma retry_loop_exhausts (c : contents) (t : str) (e : exn) :
  (forall x, exists x', embed_content c t x = (Raise e, x')) ->
  _is_retryable_error e = true ->
  (forall x, fst (time_sleep x) = None) ->
  forall (n a : nat) (w : World Ext),
    (1 <= n)%nat ->
    Z.of_nat (a + n) = _EMBEDDING_MAX_RETRIES + 1 ->
    Z.of_nat a <= 1024 ->
    fst (retry_loop c t (seq a n) w)
    = Raise (if _EMBEDDING_MAX_RETRIES <=? 1024 then e
             else mk_exn OverflowError "int too large to convert to float")
    /\ log (snd (retry_loop c t (seq a n) w))
       = log w
         ++ replicate
              (Z.to_nat (Z.min _EMBEDDING_MAX_RETRIES 1024 - Z.of_nat a + 1))
              (EvEmbed c t).
Proof.
  intros Hdown Hre Hsleep.
  induction n as [|n IH]; intros a w Hn Han Ha; [lia|].
  cbn [seq]. rewrite retry_loop_cons. cbv zeta.
  destruct (Hdown (ext w)) as [x ->]. rewrite Hre. cbn [negb orb].
  destruct (Z.of_nat a >=? _EMBEDDING_MAX_RETRIES) eqn:Hc.
  { replace (_EMBEDDING_MAX_RETRIES <=? 1024) with true by (symmetry; lia).
    replace (Z.min _EMBEDDING_MAX_RETRIES 1024 - Z.of_nat a + 1) with 1
      by lia.
    now split. }
  destruct (1024 <=? a)%nat eqn:Hover.
  { apply Nat.leb_le in Hover.
    replace (_EMBEDDING_MAX_RETRIES <=? 1024) with false by (symmetry; lia).
    replace (Z.min _EMBEDDING_MAX_RETRIES 1024 - Z.of_nat a + 1) with 1
      by lia.
    now split. }
  apply Nat.leb_gt in Hover.
  pose proof (Hsleep x) as Hx. destruct (time_sleep x) as [fault x'].
  cbn [fst] in Hx. subst fault.
  destruct (IH (S a) (MkWorld x' (db w) (log w ++ [EvEmbed c t]))
              ltac:(lia) ltac:(lia) ltac:(lia)) as (Hr & Hlog).
  split; [exact Hr|]. rewrite Hlog. cbn [log].
  replace (Z.to_nat (Z.min _EMBEDDING_MAX_RETRIES 1024 - Z.of_nat a + 1))
    with (S (Z.to_nat
               (Z.min _EMBEDDING_MAX_RETRIES 1024 - Z.of_nat (S a) + 1)))
    by lia.
  cbn [replicate]. now rewrite <- app_assoc.
Qed.

(** A provider that keeps answering with one rate-limit error, with
    sleeps that go through. Up to 1024 retries, the provider is asked
    [_EMBEDDING_MAX_RETRIES + 1] times, after which that error is raised.
    With more retries configured, the back-off of attempt 1024 raises
    [OverflowError] on its power of two: the provider has been asked 1025
    times, and the loop ends on that exception instead. *)
Theorem embed_retry_exhausts (c : contents) (task_type : str)
    (w : World Ext) (e : exn) :
  (forall x, exists x', embed_content c task_type x = (Raise e, x')) ->
  _is_retryable_error e = true ->
  (forall x, fst (time_sleep x) = None) ->
  fst (_embed_content_with_retry c task_type w)
  = Raise (if _EMBEDDING_MAX_RETRIES <=? 1024 then e
           else mk_exn OverflowError "int too large to convert to float")
  /\ log (snd (_embed_content_with_retry c task_type w))
     = log w
       ++ replicate (Z.to_nat (Z.min _EMBEDDING_MAX_RETRIES 1024 + 1))
            (EvEmbed c task_type).
Proof.
  intros Hdown Hre Hsleep. pose proof max_retries_nonneg as Hmax.
  unfold _embed_content_with_retry.
  destruct (retry_loop_exhausts c task_type e Hdown Hre Hsleep
              (Z.to_nat (_EMBEDDING_MAX_RETRIES + 1)) 0 w
              ltac:(lia) ltac:(lia) ltac:(lia)) as [Hr Hlog].
  split; [exact Hr|]. rewrite Hlog. do 2 f_equal. lia.
Qed.

Lemma prefix_short {A} (s : list A) (n : Z) : len s <= n -> prefix s n = s.
Proof.
  intros Hn. unfold prefix, slice, clip, len in *.
  replace (0 <? 0) with false by reflexivity.
  replace (n <? 0) with false by (symmetry; lia).
  rewrite (Z.min_l 0), (Z.min_r n) by lia. cbn [Z.to_nat drop].
  rewrite Z.sub_0_r, Nat2Z.id. apply firstn_all.
Qed.

Lemma len_prefix_le {A} (s : list A) (n : Z) : 0 <= n -> len (prefix s n) <= n.
Proof.
  intros Hn. unfold prefix.
  pose proof (length_slice_le s 0 n ltac:(lia) Hn). lia.
Qed.

(** What [generate_embedding] sends. It never raises; every request it
    makes carries the first [_MAX_CHARS_PER_EMBEDDING] characters of the
    text (the whole text when it is not longer) with the task type it was
    given; there are at most [_EMBEDDING_MAX_RETRIES + 1] of them, and none
    when the text is empty or blank, in which case the result is [None]. *)
Theorem generate_embedding_requests (text task_type : str) (w : World Ext) :
  exists (v : option vector) (m : nat),
    fst (generate_embedding text task_type w) = Ok v
    /\ Z.of_nat m <= _EMBEDDING_MAX_RETRIES + 1
    /\ db (snd (generate_embedding text task_type w)) = db w
    /\ log (snd (generate_embedding text task_type w))
       = log w ++ replicate m
                    (EvEmbed (Single (prefix text _MAX_CHARS_PER_EMBEDDING))
                       task_type)
    /\ len (prefix text _MAX_CHARS_PER_EMBEDDING) <= _MAX_CHARS_PER_EMBEDDING
    /\ (strip text = [] -> v = None /\ m = 0%nat).
Proof.
  pose proof max_retries_nonneg as Hmax.
  unfold generate_embedding.
  destruct (negb (truthy text) || negb (truthy (strip text))) eqn:Hblank.
  - exists None, 0%nat. cbn. rewrite app_nil_r.
    repeat split; try lia. now apply len_prefix_le.
  - assert (Hne : strip text <> []).
    { apply orb_false_iff in Hblank as [_ Hs].
      apply negb_false_iff in Hs. now apply truthy_cons. }
    assert (Htext : (if len text >? _MAX_CHARS_PER_EMBEDDING
                     then prefix text _MAX_CHARS_PER_EMBEDDING else text)
                    = prefix text _MAX_CHARS_PER_EMBEDDING).
    { destruct (len text >? _MAX_CHARS_PER_EMBEDDING) eqn:E; [reflexivity|].
      symmetry. apply prefix_short. lia. }
    rewrite Htext.
    destruct (embed_retry_bounded
                (Single (prefix text _MAX_CHARS_PER_EMBEDDING)) task_type w)
      as (m & Hm & Hdb & Hlog).
    unfold try_except. mnorm. unfold bind.
    destruct (_embed_content_with_retry _ task_type w) as [[resp|e] w1].
    + cbn [snd] in *.
      destruct (_extract_embeddings resp) as [|[v|] rest];
        [exists None, m|exists (Some v), m|exists None, m]; cbn;
        (split; [reflexivity|]); (split; [lia|]); (split; [exact Hdb|]);
        (split; [exact Hlog|]);
        (split; [now apply len_prefix_le|]); intros Hs; now destruct Hne.
    + cbn [snd] in *. exists None, m. cbn.
      split; [reflexivity|]. split; [lia|]. split; [exact Hdb|].
      split; [exact Hlog|]. split; [now apply len_prefix_le|].
      intros Hs; now destruct Hne.
Qed.

(** ** The embedding gateway: chunks and their vectors *)

Lemma generate_embeddings_batch_total (texts : list str) (task_type : str)
    (w : World Ext) :
  exists embeddings w',
    generate_embeddings_batch texts task_type w = (Ok embeddings, w')
    /\ length embeddings = length texts.
Proof.
  destruct (batches_partition texts _ batch_size_positive) as [Hcat Hok].
  assert (Heq : generate_embeddings_batch texts task_type w
    = embed_in_order texts task_type
        (map length (_create_token_aware_batches texts _EMBEDDING_BATCH_SIZE))
        w).
  { unfold generate_embeddings_batch.
    destruct texts as [|t texts]; [reflexivity|].
    cbn [truthy negb].
    set (ts := t :: texts) in *.
    pose proof (for_each_batches ts task_type
      (_create_token_aware_batches ts _EMBEDDING_BATCH_SIZE) []
      (length ts) w eq_refl Hcat) as Hfe.
    cbn [app length drop] in Hfe. rewrite Hfe.
    - rewrite bind_run.
      destruct (embed_in_order _ _ _ w) as [[vs|e] w']; reflexivity.
    - eapply Forall_impl; [exact Hok|]. now intros b [Hb _]. }
  rewrite Heq.
  assert (Hsum : sum_list (map length
            (_create_token_aware_batches texts _EMBEDDING_BATCH_SIZE))
          = length texts).
  { rewrite sum_list_lengths, Hcat. apply length_seq. }
  destruct (embed_in_order_total task_type _ texts w ltac:(rewrite Hsum; lia))
    as (vs & w' & E & Hl).
  exists vs, w'. split; [exact E|]. now rewrite Hl.
Qed.

Lemma attach_embeddings (chunks : list ChunkDict.t) :
  forall (k : nat) (es : list (option vector)),
    length es = (k + length chunks)%nat ->
    map (fun '(i, chunk) => Embedded chunk (mjoin (es !! i)))
      (zip (seq k (length chunks)) chunks)
    = zip_with Embedded chunks (drop k es).
Proof.
  induction chunks as [|c chunks IH]; intros k es Hlen; [reflexivity|].
  cbn [length seq zip_with map].
  destruct (lookup_lt_is_Some_2 es k ltac:(cbn [length] in Hlen; lia))
    as [e He].
  rewrite (drop_S es e k He), He. cbn [mjoin option_join zip_with].
  f_equal. apply IH. cbn [length] in Hlen. lia.
Qed.

(** [generate_chunk_embeddings] never raises and returns the chunks it
    was given, in their order, each with the vector that
    [generate_embeddings_batch] returned at its position for the list of
    the chunk texts. *)
Theorem generate_chunk_embeddings_aligned (chunks : list ChunkDict.t)
    (w : World Ext) :
  exists embeddings w',
    generate_embeddings_batch (map ChunkDict.chunk_text chunks)
      (u "RETRIEVAL_DOCUMENT") w = (Ok embeddings, w')
    /\ length embeddings = length chunks
    /\ generate_chunk_embeddings chunks w
       = (if truthy chunks then (Ok (zip_with Embedded chunks embeddings), w')
          else (Ok [], w)).
Proof.
  destruct (generate_embeddings_batch_total
              (map ChunkDict.chunk_text chunks) (u "RETRIEVAL_DOCUMENT") w)
    as (es & w' & E & Hl).
  rewrite length_map in Hl.
  exists es, w'. split; [exact E|]. split; [exact Hl|].
  unfold generate_chunk_embeddings.
  destruct chunks as [|c chunks]; [reflexivity|]. cbn [truthy negb].
  mnorm. rewrite (bind_ok _ _ _ _ _ E). unfold ret, enumerate.
  now rewrite (attach_embeddings (c :: chunks) 0 es Hl).
Qed.

(** ** Token-aware batching: texts that fit one request *)

Lemma batch_tokens_snoc (texts : list str) (x : str) :
  batch_tokens (texts ++ [x]) (seq 0 (length (texts ++ [x])))
  = batch_tokens texts (seq 0 (length texts)) + _estimate_token_count x.
Proof.
  rewrite length_app. cbn [length]. rewrite Nat.add_1_r, seq_S.
  rewrite batch_tokens_app, batch_tokens_last. cbn [plus].
  rewrite batch_tokens_mono; [reflexivity|].
  apply Forall_forall. intros i Hi. apply elem_of_seq in Hi. lia.
Qed.

Lemma batch_tokens_nonneg (texts : list str) (b : list nat) :
  0 <= batch_tokens texts b.
Proof.
  unfold batch_tokens. induction b as [|i b IH]; cbn [foldr]; [lia|].
  unfold _estimate_token_count at 1.
  assert (0 <= len (default [] (texts !! i)) / 4)
    by (apply Z.div_pos; [apply len_nonneg|lia]).
  lia.
Qed.

Lemma batch_fold_one_batch (max_batch_size : Z) (texts : list str) :
  len texts <= max_batch_size ->
  batch_tokens texts (seq 0 (length texts)) <= _MAX_TOKENS_PER_BATCH ->
  fold_left (batch_step max_batch_size) (enumerate texts)
    (BatchState [] [] 0)
  = BatchState [] (seq 0 (length texts))
      (batch_tokens texts (seq 0 (length texts))).
Proof.
  induction texts as [|x texts IH] using rev_ind; intros Hsize Htok;
    [reflexivity|].
  rewrite batch_tokens_snoc in *. unfold len in Hsize.
  rewrite length_app in *. cbn [length] in *.
  pose proof (batch_tokens_nonneg texts (seq 0 (length texts))) as Hnn.
  assert (Hx : 1 <= _estimate_token_count x).
  { unfold _estimate_token_count.
    assert (0 <= len x / 4) by (apply Z.div_pos; [apply len_nonneg|lia]).
    lia. }
  rewrite enumerate_snoc, fold_left_app, IH by (unfold len; lia).
  cbn [fold_left batch_step current_batch current_tokens batches].
  replace (_estimate_token_count x >? _MAX_TOKENS_PER_BATCH) with false
    by (symmetry; lia).
  replace (batch_tokens texts (seq 0 (length texts))
           + _estimate_token_count x >? _MAX_TOKENS_PER_BATCH) with false
    by (symmetry; lia).
  replace (len (seq 0 (length texts)) >=? max_batch_size) with false
    by (symmetry; unfold len; rewrite length_seq; lia).
  cbn [orb]. rewrite Nat.add_1_r, seq_S. reflexivity.
Qed.

(** Texts that fit one request make one batch. When there are at most
    [max_batch_size] texts and their estimated sizes add up to at most
    [_MAX_TOKENS_PER_BATCH], the batcher returns the single batch of all
    the indexes, in order. *)
Theorem token_aware_batches_single (texts : list str) (max_batch_size : Z) :
  texts <> [] ->
  len texts <= max_batch_size ->
  batch_tokens texts (seq 0 (length texts)) <= _MAX_TOKENS_PER_BATCH ->
  _create_token_aware_batches texts max_batch_size
  = [seq 0 (length texts)].
Proof.
  intros Hne Hsize Htok. unfold _create_token_aware_batches.
  rewrite batch_fold_one_batch by assumption.
  cbn [current_batch batches]. destruct texts; [now destruct Hne|].
  reflexivity.
Qed.

(** ** Retrieval: the notes and audio files of the chunks found *)

Lemma existsb_Zeqb (z : Z) (l : list Z) :
  existsb (Z.eqb z) l = true <-> z ∈ l.
Proof.
  rewrite existsb_exists. split.
  - intros (y & Hy & Hz). apply Z.eqb_eq in Hz as ->.
    now apply list_elem_of_In.
  - intros Hz. exists z. split; [now apply list_elem_of_In|apply Z.eqb_refl].
Qed.

Lemma note_of_id (s : Store) (c : NoteChunk.t) (n : Note.t) :
  note_of s c = Some n -> Note.id n = NoteChunk.note_id c /\ n ∈ notes s.
Proof.
  unfold note_of. intros Hf. apply find_some in Hf as [Hin Heq].
  split; [lia|now apply list_elem_of_In].
Qed.

Lemma related_notes_loop_spec (s : Store) (chunks : list NoteChunk.t) :
  forall (found : list Note.t) (seen : list Z),
    (forall z, z ∈ seen <-> z ∈ map Note.id found) ->
    NoDup (map Note.id found) ->
    Forall (fun c => is_Some (note_of s c)) chunks ->
    exists out,
      related_notes_loop s chunks found seen = Ok out
      /\ NoDup (map Note.id out)
      /\ (forall n, n ∈ out ->
            n ∈ found \/ exists c, c ∈ chunks /\ note_of s c = Some n)
      /\ (forall n, n ∈ found -> n ∈ out)
      /\ (forall c, c ∈ chunks -> NoteChunk.note_id c ∈ map Note.id out).
Proof.
  induction chunks as [|c chunks IH]; intros found seen Hseen Hnd Hall;
    cbn [related_notes_loop].
  - exists found. split; [reflexivity|]. split; [exact Hnd|].
    split; [auto|]. split; [auto|]. intros c Hc. inversion Hc.
  - inversion Hall as [|? ? [n Hn] Hall']; subst. rewrite Hn.
    destruct (note_of_id s c n Hn) as [Hid _].
    destruct (existsb (Z.eqb (Note.id n)) seen) eqn:Hex.
    + apply existsb_Zeqb, Hseen in Hex.
      destruct (IH found seen Hseen Hnd Hall')
        as (out & -> & Hnd' & Hfrom & Hkeep & Hcover).
      exists out. split; [reflexivity|]. split; [exact Hnd'|].
      split; [|split; [exact Hkeep|]].
      * intros m Hm. destruct (Hfrom m Hm) as [?|(c' & Hc' & Hm')];
          [now left|]. right. exists c'. split; [now right|exact Hm'].
      * intros c' Hc'. apply elem_of_cons in Hc' as [->|Hc'];
          [|now apply Hcover].
        rewrite <- Hid. apply list_elem_of_fmap in Hex as (m & Hm1 & Hm2).
        rewrite Hm1. apply list_elem_of_fmap. exists m.
        split; [reflexivity|now apply Hkeep].
    + assert (Hnew : Note.id n ∉ map Note.id found).
      { intros Hin. apply Hseen, existsb_Zeqb in Hin. congruence. }
      destruct (IH (found ++ [n]) (Note.id n :: seen))
        as (out & -> & Hnd' & Hfrom & Hkeep & Hcover).
      { intros z. rewrite map_app, elem_of_cons, elem_of_app, Hseen.
        cbn [map]. rewrite list_elem_of_singleton. tauto. }
      { rewrite map_app. cbn [map]. apply NoDup_app. split; [exact Hnd|].
        split; [|apply NoDup_singleton].
        intros z Hz Hz'. apply list_elem_of_singleton in Hz'. now subst. }
      { exact Hall'. }
      exists out. split; [reflexivity|]. split; [exact Hnd'|].
      split; [|split].
      * intros m Hm. destruct (Hfrom m Hm) as [Hm'|(c' & Hc' & Hm')].
        -- apply elem_of_app in Hm' as [?|Hm']; [now left|].
           apply list_elem_of_singleton in Hm' as ->.
           right. exists c. split; [now left|exact Hn].
        -- right. exists c'. split; [now right|exact Hm'].
      * intros m Hm. apply Hkeep, elem_of_app. now left.
      * intros c' Hc'. apply elem_of_cons in Hc' as [->|Hc'];
          [|now apply Hcover].
        rewrite <- Hid. apply list_elem_of_fmap. exists n.
        split; [reflexivity|]. apply Hkeep, elem_of_app. right.
        now apply list_elem_of_singleton.
Qed.

(** [get_related_notes] on chunks whose notes exist returns every note at
    most once: the ids of the notes returned are pairwise distinct, each
    note returned is the note of one of the chunks, and the note of every
    chunk is among them. *)
Theorem get_related_notes_distinct (s : Store) (chunks : list NoteChunk.t) :
  Forall (fun c => is_Some (note_of s c)) chunks ->
  exists found,
    get_related_notes s chunks = Ok found
    /\ NoDup (map Note.id found)
    /\ (forall n, n ∈ found ->
          exists c, c ∈ chunks /\ note_of s c = Some n)
    /\ (forall c, c ∈ chunks -> NoteChunk.note_id c ∈ map Note.id found).
Proof.
  intros Hall. unfold get_related_notes.
  destruct (related_notes_loop_spec s chunks [] [])
    as (out & E & Hnd & Hfrom & _ & Hcover);
    [easy|constructor|exact Hall|].
  exists out. split; [exact E|]. split; [exact Hnd|]. split; [|exact Hcover].
  intros n Hn. destruct (Hfrom n Hn) as [Hin|?]; [inversion Hin|assumption].
Qed.

Lemma related_audio_loop_spec (s : Store) (chunks : list NoteChunk.t) :
  forall (found : list AudioFile.t) (seen : list Z),
    (forall z, z ∈ seen <-> z ∈ map AudioFile.id found) ->
    NoDup (map AudioFile.id found) ->
    Forall (fun c => is_Some (note_of s c)) chunks ->
    exists out,
      related_audio_loop s chunks found seen = Ok out
      /\ NoDup (map AudioFile.id out)
      /\ (forall f, f ∈ out ->
            f ∈ found
            \/ exists c n, c ∈ chunks /\ note_of s c = Some n
                           /\ audio_file_of s n = Some f)
      /\ (forall f, f ∈ found -> f ∈ out)
      /\ (forall c n f, c ∈ chunks -> note_of s c = Some n ->
            audio_file_of s n = Some f ->
            AudioFile.id f ∈ map AudioFile.id out).
Proof.
  induction chunks as [|c chunks IH]; intros found seen Hseen Hnd Hall;
    cbn [related_audio_loop].
  - exists found. split; [reflexivity|]. split; [exact Hnd|].
    split; [auto|]. split; [auto|]. intros c n f Hc. inversion Hc.
  - inversion Hall as [|? ? [n Hn] Hall']; subst. rewrite Hn.
    destruct (audio_file_of s n) as [f|] eqn:Hf.
    + destruct (existsb (Z.eqb (AudioFile.id f)) seen) eqn:Hex.
      * apply existsb_Zeqb, Hseen in Hex.
        destruct (IH found seen Hseen Hnd Hall')
          as (out & -> & Hnd' & Hfrom & Hkeep & Hcover).
        exists out. split; [reflexivity|]. split; [exact Hnd'|].
        split; [|split; [exact Hkeep|]].
        -- intros g Hg.
           destruct (Hfrom g Hg) as [?|(c' & n' & Hc' & Hn' & Hg')];
             [now left|]. right. exists c', n'.
           split; [now right|]. now split.
        -- intros c' n' g Hc' Hn' Hg'.
           apply elem_of_cons in Hc' as [->|Hc']; [|exact (Hcover c' n' g Hc' Hn' Hg')].
           rewrite Hn in Hn'. injection Hn' as <-.
           rewrite Hf in Hg'. injection Hg' as <-.
           apply list_elem_of_fmap in Hex as (m & Hm1 & Hm2).
           rewrite Hm1. apply list_elem_of_fmap. exists m.
           split; [reflexivity|now apply Hkeep].
      * assert (Hnew : AudioFile.id f ∉ map AudioFile.id found).
        { intros Hin. apply Hseen, existsb_Zeqb in Hin. congruence. }
        destruct (IH (found ++ [f]) (AudioFile.id f :: seen))
          as (out & -> & Hnd' & Hfrom & Hkeep & Hcover).
        { intros z. rewrite map_app, elem_of_cons, elem_of_app, Hseen.
          cbn [map]. rewrite list_elem_of_singleton. tauto. }
        { rewrite map_app. cbn [map]. apply NoDup_app. split; [exact Hnd|].
          split; [|apply NoDup_singleton].
          intros z Hz Hz'. apply list_elem_of_singleton in Hz'. now subst. }
        { exact Hall'. }
        exists out. split; [reflexivity|]. split; [exact Hnd'|].
        split; [|split].
        -- intros g Hg.
           destruct (Hfrom g Hg) as [Hg'|(c' & n' & Hc' & Hn' & Hg')].
           ++ apply elem_of_app in Hg' as [?|Hg']; [now left|].
              apply list_elem_of_singleton in Hg' as ->.
              right. exists c, n. split; [now left|]. now split.
           ++ right. exists c', n'. split; [now right|]. now split.
        -- intros g Hg. apply Hkeep, elem_of_app. now left.
        -- intros c' n' g Hc' Hn' Hg'.
           apply elem_of_cons in Hc' as [->|Hc']; [|exact (Hcover c' n' g Hc' Hn' Hg')].
           rewrite Hn in Hn'. injection Hn' as <-.
           rewrite Hf in Hg'. injection Hg' as <-.
           apply list_elem_of_fmap. exists f.
           split; [reflexivity|]. apply Hkeep, elem_of_app. right.
           now apply list_elem_of_singleton.
    + destruct (IH found seen Hseen Hnd Hall')
        as (out & -> & Hnd' & Hfrom & Hkeep & Hcover).
      exists out. split; [reflexivity|]. split; [exact Hnd'|].
      split; [|split; [exact Hkeep|]].
      * intros g Hg.
        destruct (Hfrom g Hg) as [?|(c' & n' & Hc' & Hn' & Hg')];
          [now left|]. right. exists c', n'.
        split; [now right|]. now split.
      * intros c' n' g Hc' Hn' Hg'.
        apply elem_of_cons in Hc' as [->|Hc']; [|exact (Hcover c' n' g Hc' Hn' Hg')].
        rewrite Hn in Hn'. injection Hn' as <-. congruence.
Qed.

(** [get_related_audio_files] on chunks whose notes exist returns every
    audio file at most once: the ids of the files returned are pairwise
    distinct, each file returned is the audio file of the note of one of
    the chunks, and every such audio file is among them. *)
Theorem get_related_audio_files_distinct (s : Store)
    (chunks : list NoteChunk.t) :
  Forall (fun c => is_Some (note_of s c)) chunks ->
  exists found,
    get_related_audio_files s chunks = Ok found
    /\ NoDup (map AudioFile.id found)
    /\ (forall f, f ∈ found ->
          exists c n, c ∈ chunks /\ note_of s c = Some n
                      /\ audio_file_of s n = Some f)
    /\ (forall c n f, c ∈ chunks -> note_of s c = Some n ->
          audio_file_of s n = Some f ->
          AudioFile.id f ∈ map AudioFile.id found).
Proof.
  intros Hall. unfold get_related_audio_files.
  destruct (related_audio_loop_spec s chunks [] [])
    as (out & E & Hnd & Hfrom & _ & Hcover);
    [easy|constructor|exact Hall|].
  exists out. split; [exact E|]. split; [exact Hnd|]. split; [|exact Hcover].
  intros f Hf. destruct (Hfrom f Hf) as [Hin|?]; [inversion Hin|assumption].
Qed.

(** ** Retrieval: the context *)

Lemma context_loop_prefix (s : Store) (max_chars : Z)
    (chunks : list NoteChunk.t) :
  forall (parts : list str) (total : Z) (out : list str),
    context_loop s chunks max_chars parts total = Ok out ->
    exists (k : nat) (blocks : list str),
      Forall2 (fun c b => context_block s c = Ok b) (take k chunks) blocks
      /\ out = parts ++ blocks
      /\ (blocks = [] \/ total + total_len blocks <= max_chars)
      /\ (forall c, chunks !! k = Some c ->
            exists b, context_block s c = Ok b
                      /\ total + total_len blocks + len b > max_chars).
Proof.
  induction chunks as [|c chunks IH]; intros parts total out;
    cbn [context_loop].
  - intros [= <-]. exists 0%nat, []. rewrite app_nil_r.
    split; [constructor|]. split; [reflexivity|]. split; [now left|].
    intros c Hc. discriminate.
  - destruct (context_block s c) as [b|e] eqn:Hb; [|discriminate].
    destruct (total + len b >? max_chars) eqn:Hover.
    + intros [= <-]. exists 0%nat, []. rewrite app_nil_r.
      split; [constructor|]. split; [reflexivity|]. split; [now left|].
      intros c' [= <-]. exists b. split; [exact Hb|].
      unfold total_len. cbn [foldr]. lia.
    + intros Hrun. apply IH in Hrun as (k & blocks & Hf & -> & Hfit & Hnext).
      exists (S k), (b :: blocks). cbn [take].
      split; [now constructor|]. split; [now rewrite <- app_assoc|].
      change (total_len (b :: blocks)) with (len b + total_len blocks).
      split.
      * right. destruct Hfit as [->|Hfit]; [|lia].
        unfold total_len. cbn [foldr]. lia.
      * intros c' Hc'. cbn [lookup] in Hc'. destruct (Hnext c' Hc')
          as (b' & Hb' & Hover'). exists b'. split; [exact Hb'|]. lia.
Qed.

(** [build_context] joins the blocks of a prefix of the chunks, in their
    order: the blocks of that prefix add up to at most [4 * max_tokens]
    characters, and the block of the first chunk left out, if there is
    one, would have gone over. The chunks after it are not looked at,
    whatever their size. *)
Theorem build_context_takes_fitting_prefix (s : Store)
    (chunks : list NoteChunk.t) (max_tokens : Z) (context : str) :
  build_context s chunks max_tokens = Ok context ->
  exists (k : nat) (blocks : list str),
    Forall2 (fun c b => context_block s c = Ok b) (take k chunks) blocks
    /\ context = join [10%N] blocks
    /\ total_len blocks <= Z.max 0 (max_tokens * 4)
    /\ (forall c, chunks !! k = Some c ->
          exists b, context_block s c = Ok b
                    /\ total_len blocks + len b > max_tokens * 4).
Proof.
  unfold build_context.
  destruct (context_loop s chunks (max_tokens * 4) [] 0) as [parts|e] eqn:E;
    [|discriminate].
  intros [= <-].
  apply context_loop_prefix in E as (k & blocks & Hf & -> & Hfit & Hnext).
  exists k, blocks. split; [exact Hf|]. split; [reflexivity|]. split.
  - destruct Hfit as [->|Hfit]; [unfold total_len; cbn; lia|lia].
  - intros c Hc. destruct (Hnext c Hc) as (b & Hb & Hover).
    exists b. split; [exact Hb|]. lia.
Qed.

(** ** Retrieval: a query that cannot be embedded *)

(** When the query has no embedding (the text is blank, the provider
    fails, or it answers with no vector), [semantic_search_with_filters]
    returns the empty list at once: the entities are not read and the
    database is not queried. *)
Theorem semantic_search_without_embedding (user_id : Z) (query_text : str)
    (entities : json) (limit : nat) (w w1 : World Ext)
    (v : option vector) :
  generate_query_embedding query_text w = (Ok v, w1) ->
  embedding_truthy v = false ->
  semantic_search_with_filters user_id query_text entities limit w
  = (Ok [], w1).
Proof.
  intros Hq Hv. unfold semantic_search_with_filters. mnorm.
  rewrite (bind_ok _ _ _ _ _ Hq).
  destruct v as [[|x v]|]; [reflexivity|discriminate|reflexivity].
Qed.

(** ** The turn: sessions of other users *)

(** A turn on a session that is not an active session of the user makes
    no model call and leaves no trace: [process_message] raises (the
    [ValueError] "Session not found", unless the database itself fails at
    the lookup), the only event is the rollback, and the committed rows
    are those of before. *)
Theorem process_message_unknown_session (user_id : Z)
    (session_id message : str) (w : World Ext) :
  find (fun row =>
          str_eqb (ChatbotSession.session_id row) session_id
          && (ChatbotSession.user_id row =? user_id)
          && ChatbotSession.is_active row)
    (chatbot_sessions (pending (db w))) = None ->
  exists e,
    fst (process_message user_id session_id message w) = Raise e
    /\ (fst (db_fault (snd (time_time (ext w)))) = None ->
        e = mk_exn ValueError "Session not found")
    /\ log (snd (process_message user_id session_id message w))
       = log w ++ [EvRollback]
    /\ committed (db (snd (process_message user_id session_id message w)))
       = committed (db w)
    /\ pending (db (snd (process_message user_id session_id message w)))
       = committed (db w).
Proof.
  intros Hnone.
  unfold process_message, compute_turn, _get_session, query, db_roundtrip,
    ask, get_db.
  mnorm. unfold try_except, bind, ret, raise.
  destruct (time_time (ext w)) as [start_time x0]. cbn [ext db log snd].
  destruct (db_fault x0) as [[e|] x1]; cbn [ext db log fst snd pending].
  - exists e. repeat split. intros Hf. discriminate.
  - rewrite Hnone. cbn. eexists. repeat split.
Qed.

(** ** The turn: what a returned response holds *)

Lemma persist_turn_content (session_id message : str) (t : turn)
    (w w' : World Ext) (assistant_msg : ChatbotMessage.t) :
  persist_turn session_id message t w = (Ok assistant_msg, w') ->
  ChatbotMessage.content assistant_msg = text (t_result t)
  /\ is_Some (text (t_result t)).
Proof.
  unfold persist_turn, add_message, update_session, update_pending,
    db_commit, db_roundtrip, ask, get_db, put_db, emit.
  mnorm. unfold bind, ret, raise.
  destruct (uuid4 (ext w)) as [uid x1]. cbn.
  destruct (datetime_now x1) as [c1 x2]. cbn.
  destruct (uuid4 x2) as [aid x3]. cbn.
  destruct (datetime_now x3) as [c2 x4]. cbn.
  destruct (db_fault x4) as [[e|] x5]; cbn; [discriminate|].
  match goal with
  | |- context [constraints_ok ?s] => destruct (constraints_ok s) eqn:Hok
  end; cbn; [|discriminate].
  intros [= <- _]. split; [reflexivity|].
  unfold constraints_ok in Hok. cbn [chatbot_messages] in Hok.
  apply andb_true_iff in Hok as [_ Hok].
  rewrite forallb_app in Hok. apply andb_true_iff in Hok as [_ Hok].
  cbn [forallb assistant_message ChatbotMessage.content] in Hok.
  apply andb_true_iff in Hok as [Hok _].
  now apply bool_decide_eq_true in Hok.
Qed.

(** A response that [process_message] returns has a text, and its intent
    is one of the six intents: a turn whose handler has no text to give
    (the model answered without one) fails at the commit and is rolled
    back instead. *)
Theorem process_message_response_wellformed (user_id : Z)
    (session_id message : str) (w w' : World Ext) (r : turn_response) :
  process_message user_id session_id message w = (Ok r, w') ->
  is_Some (r_response r) /\ str_in (r_intent r) known_intents = true.
Proof.
  unfold process_message. mnorm. rewrite bind_run. unfold ask at 1.
  destruct (time_time (ext w)) as [start_time x0].
  rewrite bind_run. unfold try_except. rewrite bind_run.
  destruct (compute_turn user_id session_id message start_time _)
    as [[[session t]|e] w1] eqn:Ec.
  - rewrite bind_run.
    destruct (persist_turn session_id message t w1) as [[am|e] w2] eqn:Ep.
    + unfold ret at 1. cbn beta iota.
      unfold db_roundtrip. mnorm. rewrite !bind_run. unfold ask.
      destruct (db_fault (ext w2)) as [[e|] x3]; cbn; [discriminate|].
      intros [= <- _]. cbn [r_response r_intent].
      apply persist_turn_content in Ep as [_ Htext].
      apply compute_turn_inv in Ec
        as (? & ir & ? & ? & ? & ? & ? & _ & Hi & _).
      split; [exact Htext|]. now apply normalize_intent_known in Hi.
    + rewrite rollback_raise_run. discriminate.
  - rewrite rollback_raise_run. discriminate.
Qed.

(** ** The turn: the conversation history *)

Lemma lex_leb_total (a b : list Z) :
  length a = length b -> lex_leb a b = true \/ lex_leb b a = true.
Proof.
  revert b. induction a as [|x a IH]; intros [|y b] Hl; cbn [lex_leb];
    try discriminate; auto.
  injection Hl as Hl. destruct (IH b Hl) as [E|E]; rewrite E.
  - destruct (Z.lt_trichotomy x y) as [?|[?|?]].
    + left. apply orb_true_iff. left. lia.
    + left. apply orb_true_iff. right. apply andb_true_iff. split; [lia|auto].
    + right. apply orb_true_iff. left. lia.
  - destruct (Z.lt_trichotomy x y) as [?|[?|?]].
    + left. apply orb_true_iff. left. lia.
    + right. apply orb_true_iff. right. apply andb_true_iff.
      split; [lia|auto].
    + right. apply orb_true_iff. left. lia.
Qed.

Lemma lex_leb_trans (a b c : list Z) :
  lex_leb a b = true -> lex_leb b c = true -> lex_leb a c = true.
Proof.
  revert b c. induction a as [|x a IH]; intros [|y b] [|z c];
    cbn [lex_leb]; try discriminate; auto.
  rewrite !orb_true_iff, !andb_true_iff.
  intros [Hxy|[Hxy Hab]] [Hyz|[Hyz Hbc]].
  - left. lia.
  - left. lia.
  - left. lia.
  - right. split; [lia|]. eapply IH; eassumption.
Qed.

Lemma datetime_leb_total (a b : datetime) :
  datetime_leb a b = true \/ datetime_leb b a = true.
Proof. apply lex_leb_total. reflexivity. Qed.

Lemma datetime_leb_trans (a b c : datetime) :
  datetime_leb a b = true -> datetime_leb b c = true ->
  datetime_leb a c = true.
Proof. apply lex_leb_trans. Qed.

Lemma StronglySorted_rev {A} (R : A -> A -> Prop) (l : list A) :
  StronglySorted R l -> StronglySorted (fun a b => R b a) (rev l).
Proof.
  induction 1 as [|x l Hl IH Hx]; cbn [rev]; [constructor|].
  apply StronglySorted_app_2; [|exact IH|repeat constructor].
  intros a b Ha Hb. apply list_elem_of_singleton in Hb as ->.
  rewrite Forall_forall in Hx. apply Hx.
  apply list_elem_of_In. apply in_rev. now apply list_elem_of_In.
Qed.

(** [_get_conversation_history] returns the most recent messages of the
    session, oldest first. The messages of the session split into those
    returned and the older ones: at most [limit] are returned, fewer only
    when the session has no more; they are in ascending order of
    [created_at]; and none of the others is more recent than any of
    them. *)
Theorem conversation_history_most_recent (session_id : str) (limit : nat)
    (w w' : World Ext) (history : list (str * option str)) :
  _get_conversation_history session_id limit w = (Ok history, w') ->
  exists recent older,
    history
    = map (fun m => (ChatbotMessage.role m, ChatbotMessage.content m)) recent
    /\ older ++ recent
       ≡ₚ List.filter
            (fun m => str_eqb (ChatbotMessage.session_id m) session_id)
            (chatbot_messages (pending (db w)))
    /\ length recent = Nat.min limit (length (older ++ recent))
    /\ StronglySorted
         (fun a b =>
            datetime_leb (ChatbotMessage.created_at a)
              (ChatbotMessage.created_at b) = true)
         recent
    /\ (forall o r, o ∈ older -> r ∈ recent ->
          datetime_leb (ChatbotMessage.created_at o)
            (ChatbotMessage.created_at r) = true).
Proof.
  unfold _get_conversation_history, query, db_roundtrip, ask, get_db.
  mnorm. unfold bind, ret, raise.
  destruct (db_fault (ext w)) as [[e|] x]; cbn [db pending];
    [discriminate|].
  set (session_rows :=
         List.filter
           (fun m => str_eqb (ChatbotMessage.session_id m) session_id)
           (chatbot_messages (pending (db w)))).
  set (newer_first := fun a b : ChatbotMessage.t =>
         datetime_leb (ChatbotMessage.created_at b)
           (ChatbotMessage.created_at a)).
  intros [= <- _].
  assert (Hsorted : StronglySorted (fun a b => newer_first a b = true)
                      (sort_by newer_first session_rows)).
  { apply sort_by_sorted.
    - intros a b. apply datetime_leb_total.
    - intros a b c Hab Hbc. unfold newer_first in *.
      eapply datetime_leb_trans; eassumption. }
  pose proof (sort_by_perm newer_first session_rows) as Hperm.
  set (sorted := sort_by newer_first session_rows) in *.
  assert (Hsorted' : StronglySorted (fun a b => newer_first a b = true)
                       (take limit sorted ++ drop limit sorted))
    by (rewrite take_drop; exact Hsorted).
  assert (Hperm' : take limit sorted ++ drop limit sorted ≡ₚ session_rows)
    by (rewrite take_drop; exact Hperm).
  exists (rev (take limit sorted)), (drop limit sorted).
  split; [reflexivity|]. split; [|split; [|split]].
  - rewrite <- Hperm'. rewrite Permutation_app_comm.
    apply Permutation_app_tail. symmetry. apply Permutation_rev.
  - rewrite length_app, length_rev, length_take, length_drop. lia.
  - apply StronglySorted_rev.
    now apply StronglySorted_app_1_l in Hsorted'.
  - intros o r Ho Hr.
    apply (StronglySorted_app_1_elem_of _ _ _ r o Hsorted'); [|exact Ho].
    apply list_elem_of_In. apply in_rev. now apply list_elem_of_In.
Qed.

(** ** Pagination *)

Lemma ceiling_quotient (a b : Z) :
  0 < b -> Qceiling (inject_Z a / inject_Z b) = - ((- a) / b).
Proof.
  intros Hb. destruct b as [|p|p]; try lia.
  unfold Qceiling, Qfloor. cbn. now rewrite Z.mul_1_r.
Qed.

Lemma ceiling_quotient_spec (a b : Z) :
  0 < b ->
  (- ((- a) / b) - 1) * b < a /\ a <= - ((- a) / b) * b.
Proof.
  intros Hb. pose proof (Z.div_mod (- a) b ltac:(lia)) as Hdm.
  pose proof (Z.mod_pos_bound (- a) b Hb) as Hmod. nia.
Qed.

Lemma page_count_bounds (page page_size total_items : Z) :
  0 < page_size ->
  let m := create_meta page page_size total_items in
  PageMeta.page_count m = - ((- total_items) / page_size)
  /\ (PageMeta.page_count m - 1) * page_size < total_items
  /\ total_items <= PageMeta.page_count m * page_size.
Proof.
  intros Hsize. cbv zeta. unfold create_meta.
  replace (page_size >? 0) with true by (symmetry; lia).
  rewrite ceiling_quotient by exact Hsize. cbn [PageMeta.page_count].
  split; [reflexivity|]. exact (ceiling_quotient_spec _ _ Hsize).
Qed.

(** The page count of [create_meta]. For a positive page size and a
    count that are both below [2 ^ 53], where the ceiling of the float
    quotient is the ceiling of the quotient, the page count is the least
    number of pages that hold all the items; [has_next_page] tells
    whether items lie beyond the page, and [has_previous_page] whether
    the page is not the first. *)
Theorem create_meta_page_count (page page_size total_items : Z) :
  0 < page_size < 2 ^ 53 ->
  Z.abs total_items < 2 ^ 53 ->
  let m := create_meta page page_size total_items in
  (PageMeta.page_count m - 1) * page_size < total_items
  /\ total_items <= PageMeta.page_count m * page_size
  /\ (PageMeta.has_next_page m = true <-> page * page_size < total_items)
  /\ (PageMeta.has_previous_page m = true <-> 1 < page).
Proof.
  intros [Hsize _] _. cbv zeta.
  destruct (page_count_bounds page page_size total_items Hsize)
    as (Hcount & Hlo & Hhi).
  split; [exact Hlo|]. split; [exact Hhi|].
  revert Hcount Hlo Hhi. unfold create_meta.
  cbn [PageMeta.page_count PageMeta.has_next_page
       PageMeta.has_previous_page].
  intros -> Hlo Hhi. split.
  - rewrite Z.ltb_lt. split; intros Hp; nia.
  - rewrite Z.gtb_lt. reflexivity.
Qed.

Lemma traverse_length {A B} (f : A -> result B) (l : list A) :
  forall ys, traverse f l = Ok ys -> length ys = length l.
Proof.
  induction l as [|x l IH]; intros ys; cbn [traverse].
  - now intros [= <-].
  - destruct (f x) as [y|e]; [|discriminate].
    destruct (traverse f l) as [zs|e]; [|discriminate].
    intros [= <-]. cbn [length]. now rewrite (IH zs).
Qed.

Lemma traverse_take {A B} (f : A -> result B) (l : list A) :
  forall (n : nat) ys,
    traverse f l = Ok ys -> traverse f (take n l) = Ok (take n ys).
Proof.
  induction l as [|x l IH]; intros n ys; cbn [traverse].
  - intros [= <-]. now destruct n.
  - destruct (f x) as [y|e] eqn:Ex; [|discriminate].
    destruct (traverse f l) as [zs|e]; [|discriminate].
    intros [= <-]. destruct n as [|n]; [reflexivity|].
    cbn [take traverse]. now rewrite Ex, (IH n zs).
Qed.

Lemma traverse_drop {A B} (f : A -> result B) (l : list A) :
  forall (k : nat) ys,
    traverse f l = Ok ys -> traverse f (drop k l) = Ok (drop k ys).
Proof.
  induction l as [|x l IH]; intros k ys; cbn [traverse].
  - intros [= <-]. now destruct k.
  - destruct (f x) as [y|e] eqn:Ex; [|discriminate].
    destruct (traverse f l) as [zs|e] eqn:El; [|discriminate].
    intros [= <-]. destruct k as [|k].
    + cbn [drop traverse]. now rewrite Ex, El.
    + cbn [drop]. now apply IH.
Qed.

(** The conversion of a window of the rows is the same window of the
    converted rows. *)
Lemma traverse_window {A B} (f : A -> result B) (l : list A) (ys : list B)
    (n k : nat) :
  traverse f l = Ok ys ->
  traverse f (take n (drop k l)) = Ok (take n (drop k ys)).
Proof. intros E. now apply traverse_take, traverse_drop. Qed.

Lemma concat_windows {B} (size : nat) (ys : list B) :
  forall (count start : nat),
    (1 <= size)%nat ->
    (length ys <= (start + count) * size)%nat ->
    concat (map (fun p => take size (drop (p * size) ys)) (seq start count))
    = drop (start * size) ys.
Proof.
  induction count as [|count IH]; intros start Hsize Hlen.
  - cbn. rewrite drop_ge by lia. reflexivity.
  - cbn [seq map concat]. rewrite IH by lia.
    replace (S start * size)%nat with (start * size + size)%nat by lia.
    rewrite <- drop_drop. apply take_drop.
Qed.

(** The pages of [paginate_query] partition the rows. For a page size of
    at least 1 and rows that all convert, the pages 1 to [page_count] are
    all returned, none of them is empty or longer than the page size, and
    their data, put end to end, are the converted rows in order. *)
Theorem paginate_query_pages_partition {A B} (items : list A)
    (convert_to_model : A -> result B) (page_size : Z) (all : list B) :
  1 <= page_size ->
  traverse convert_to_model items = Ok all ->
  let page_count :=
    PageMeta.page_count (create_meta 1 page_size (len items)) in
  exists pages : list (PageDto B),
    Forall2
      (fun p pg =>
         paginate_query items (MkPageOptions (Z.of_nat p) page_size false)
           convert_to_model = Ok pg)
      (seq 1 (Z.to_nat page_count)) pages
    /\ concat (map data pages) = all
    /\ Forall (fun pg => data pg <> [] /\ len (data pg) <= page_size) pages.
Proof.
  intros Hsize Hall. cbv zeta.
  destruct (page_count_bounds 1 page_size (len items) ltac:(lia))
    as (_ & Hlo & Hhi).
  set (count := PageMeta.page_count (create_meta 1 page_size (len items)))
    in *.
  pose proof (traverse_length _ _ _ Hall) as Hlen.
  pose proof (len_nonneg items) as Hnn.
  assert (Hcount : 0 <= count) by nia.
  set (size := Z.to_nat page_size).
  set (page_of := fun p : nat =>
         MkPageDto (take size (drop ((p - 1) * size) all))
           (create_meta (Z.of_nat p) page_size (len items))).
  exists (map page_of (seq 1 (Z.to_nat count))).
  split; [|split].
  - apply Forall2_fmap_r, Forall_Forall2_diag, Forall_forall.
    intros p Hp. apply elem_of_seq in Hp.
    unfold paginate_query. cbn [opt_is_dropdown opt_page opt_page_size].
    replace ((Z.of_nat p - 1) * page_size <? 0) with false
      by (symmetry; apply Z.ltb_ge; nia).
    replace (page_size <? 0) with false by (symmetry; lia). cbn [orb].
    replace (Z.to_nat ((Z.of_nat p - 1) * page_size))
      with ((p - 1) * size)%nat by (subst size; nia).
    fold size. now rewrite (traverse_window _ _ _ _ _ Hall).
  - rewrite map_map. cbn [data page_of].
    rewrite <- (fmap_add_seq 1 0), map_map.
    erewrite map_ext; [apply (concat_windows size all (Z.to_nat count) 0)|].
    + subst size. lia.
    + unfold len in *. subst size. nia.
    + intros p. cbn. now rewrite Nat.sub_0_r.
  - apply Forall_forall. intros pg Hpg.
    apply list_elem_of_fmap in Hpg as (p & -> & Hp).
    apply elem_of_seq in Hp. cbn [data page_of].
    assert (Hin : ((p - 1) * size < length all)%nat).
    { unfold len in *. subst size. nia. }
    split.
    + intros Hnil. apply (f_equal length) in Hnil.
      rewrite length_take, length_drop in Hnil. cbn in Hnil.
      subst size. lia.
    + unfold len. rewrite length_take. subst size. lia.
Qed.

(** ** Notes: ownership, deletion, categories *)

Context `{Schemas}.

(** A note that is not the user's is not found. When no note of the user
    has the id, [get_note_by_id], [update_note] and [delete_note] all
    answer 404 after the lookup; nothing is written, no provider is
    called and no transaction event is logged. *)
Theorem foreign_note_not_found (note_id user_id : Z)
    (update_data : NoteUpdate.t) (w : World Ext) :
  find (fun n => (Note.id n =? note_id) && (Note.user_id n =? user_id))
    (notes (pending (db w))) = None ->
  fst (db_fault (ext w)) = None ->
  let after := MkWorld (snd (db_fault (ext w))) (db w) (log w) in
  get_note_by_id note_id user_id w = (Ok (NoteViewFailure 404), after)
  /\ update_note note_id user_id update_data w = (Ok (NoteFailure 404), after)
  /\ delete_note note_id user_id w = (Ok 404, after).
Proof.
  intros Hnone Hfault. cbv zeta.
  unfold get_note_by_id, update_note, delete_note, find_note, query,
    db_roundtrip, ask, get_db.
  mnorm. unfold bind, ret.
  destruct (db_fault (ext w)) as [fault x]. cbn [fst snd] in *. subst fault.
  cbn [db pending ext log]. rewrite Hnone. now repeat split.
Qed.

(** [delete_note] deletes all or nothing. It answers 200 after the note of
    the user and all the chunks of that note have gone from the committed
    rows, and nothing else has; 404 when the user has no such note, with
    nothing changed; and 500 after a rollback, with the committed rows as
    they were. It raises only when the lookup itself fails. *)
Theorem delete_note_atomic (note_id user_id : Z) (w : World Ext) :
  let run := delete_note note_id user_id w in
  let s := pending (db w) in
  match fst run with
  | Ok code =>
      (code = 200
       /\ (exists note, note ∈ notes s /\ Note.id note = note_id
                        /\ Note.user_id note = user_id)
       /\ committed (db (snd run))
          = MkStore (audio_files s)
              (List.filter (fun n => negb (Note.id n =? note_id)) (notes s))
              (List.filter (fun c => negb (NoteChunk.note_id c =? note_id))
                 (note_chunks s))
              (chatbot_sessions s) (chatbot_messages s)
       /\ pending (db (snd run)) = committed (db (snd run)))
      \/ (code = 404
          /\ find (fun n => (Note.id n =? note_id)
                            && (Note.user_id n =? user_id)) (notes s)
             = None
          /\ db (snd run) = db w)
      \/ (code = 500
          /\ committed (db (snd run)) = committed (db w)
          /\ pending (db (snd run)) = committed (db w))
  | Raise _ => db (snd run) = db w
  end.
Proof.
  cbv zeta.
  unfold delete_note, find_note, query, db_roundtrip, ask, get_db.
  mnorm. unfold bind, ret, raise.
  destruct (db_fault (ext w)) as [[e|] x]; cbn [fst snd db pending ext log];
    [reflexivity|].
  destruct (find _ (notes (pending (db w)))) as [note|] eqn:Hfind.
  - apply find_some in Hfind as [Hin Hid].
    apply andb_true_iff in Hid as [Hid Huser].
    apply Z.eqb_eq in Hid, Huser.
    unfold try_except, delete_note_row, update_pending, db_commit,
      db_rollback, db_roundtrip, ask, get_db, put_db, emit.
    mnorm. unfold bind, ret, raise. cbn [db ext log pending committed].
    destruct (db_fault x) as [[e|] x1];
      cbn [fst snd db pending committed ext log note_seq chunk_seq].
    + right. right. now repeat split.
    + match goal with
      | |- context [constraints_ok ?s] => destruct (constraints_ok s)
      end; cbn [fst snd db pending committed ext log].
      * left. split; [reflexivity|]. split.
        -- exists note. split; [now apply list_elem_of_In|]. now split.
        -- rewrite Hid. now split.
      * right. right. now repeat split.
  - cbn. right. left. now repeat split.
Qed.

Lemma distinct_by_str_spec (l : list str) :
  forall seen,
    NoDup (distinct_by str_eqb l seen)
    /\ forall x, x ∈ distinct_by str_eqb l seen <-> x ∈ l /\ x ∉ seen.
Proof.
  induction l as [|y l IH]; intros seen; cbn [distinct_by].
  - split; [constructor|]. intros x. split; [inversion 1|].
    intros [Hx _]. inversion Hx.
  - destruct (existsb (str_eqb y) seen) eqn:Hex.
    + destruct (IH seen) as [Hnd Hmem]. split; [exact Hnd|].
      intros x. rewrite Hmem, elem_of_cons. split; [tauto|].
      intros [[->|Hx] Hns]; [|tauto]. exfalso. apply Hns.
      apply existsb_exists in Hex as (z & Hz & Heq).
      apply str_eqb_eq in Heq as ->. now apply list_elem_of_In.
    + assert (Hy : y ∉ seen).
      { intros Hin. apply not_true_iff_false in Hex. apply Hex.
        apply existsb_exists. exists y.
        split; [now apply list_elem_of_In|apply str_eqb_refl]. }
      destruct (IH (y :: seen)) as [Hnd Hmem]. split.
      * constructor; [|exact Hnd]. rewrite Hmem.
        intros [_ Hn]. apply Hn. now left.
      * intros x. rewrite !elem_of_cons, Hmem, elem_of_cons.
        split.
        -- intros [->|[Hx Hn]]; [tauto|]. split; [tauto|].
           intros Hs. apply Hn. now right.
        -- intros [[->|Hx] Hn]; [now left|].
           destruct (decide (x = y)) as [->|Hne]; [now left|].
           right. split; [exact Hx|]. intros [?|?]; [congruence|tauto].
Qed.

(** [get_note_categories] returns each category once: the list has no
    duplicates, and it holds exactly the non-empty categories of the
    notes of the user. *)
Theorem get_note_categories_distinct (user_id : Z) (w w' : World Ext)
    (categories : list str) :
  get_note_categories user_id w = (Ok categories, w') ->
  NoDup categories
  /\ forall c,
       c ∈ categories
       <-> c <> []
           /\ exists n, n ∈ notes (pending (db w))
                        /\ Note.user_id n = user_id
                        /\ Note.category n = Some c.
Proof.
  unfold get_note_categories, query, db_roundtrip, ask, get_db.
  mnorm. unfold bind, ret, raise.
  destruct (db_fault (ext w)) as [[e|] x]; cbn [db pending];
    [discriminate|].
  intros [= <- _].
  match goal with
  | |- context [distinct_by str_eqb ?l []] =>
      destruct (distinct_by_str_spec l []) as [Hnd Hmem]
  end.
  split.
  - apply NoDup_ListNoDup, List.NoDup_filter, NoDup_ListNoDup, Hnd.
  - intros c. rewrite list_elem_of_In, filter_In, <- list_elem_of_In, Hmem.
    rewrite list_elem_of_omap. split.
    + intros [[(n & Hn & Hc) _] Ht]. split; [now apply truthy_cons|].
      exists n. split; [exact Hn|].
      destruct (Note.user_id n =? user_id) eqn:Hu; [|discriminate].
      split; [lia|exact Hc].
    + intros [Hne (n & Hn & Hu & Hc)]. split; [split|].
      * exists n. split; [exact Hn|].
        replace (Note.user_id n =? user_id) with true by (symmetry; lia).
        exact Hc.
      * inversion 1.
      * now destruct c.
Qed.

(** ** Notes: [semantic_search_notes] *)

Lemma distinct_by_spec {A} (eqb : A -> A -> bool) (l : list A) :
  (forall a b, eqb a b = true <-> a = b) ->
  forall seen,
    NoDup (distinct_by eqb l seen)
    /\ forall x, x ∈ distinct_by eqb l seen <-> x ∈ l /\ x ∉ seen.
Proof.
  intros Heqb. induction l as [|y l IH]; intros seen; cbn [distinct_by].
  - split; [constructor|]. intros x. split; [inversion 1|].
    intros [Hx _]. inversion Hx.
  - destruct (existsb (eqb y) seen) eqn:Hex.
    + destruct (IH seen) as [Hnd Hmem]. split; [exact Hnd|].
      intros x. rewrite Hmem, elem_of_cons. split; [tauto|].
      intros [[->|Hx] Hns]; [|tauto]. exfalso. apply Hns.
      apply existsb_exists in Hex as (z & Hz & Heq).
      apply Heqb in Heq as ->. now apply list_elem_of_In.
    + assert (Hy : y ∉ seen).
      { intros Hin. apply not_true_iff_false in Hex. apply Hex.
        apply existsb_exists. exists y.
        split; [now apply list_elem_of_In|now apply Heqb]. }
      destruct (IH (y :: seen)) as [Hnd Hmem]. split.
      * constructor; [|exact Hnd]. rewrite Hmem.
        intros [_ Hn]. apply Hn. now left.
      * intros x. rewrite !elem_of_cons, Hmem, elem_of_cons.
        split.
        -- intros [->|[Hx Hn]]; [tauto|]. split; [tauto|].
           intros Hs. apply Hn. now right.
        -- intros [[->|Hx] Hn]; [now left|].
           destruct (eqb x y) eqn:Exy.
           ++ left. now apply Heqb.
           ++ right. split; [exact Hx|]. intros [->|?]; [|tauto].
              assert (eqb y y = true) by now apply Heqb. congruence.
Qed.

Lemma max_of_none (values : list (option Q)) :
  max_of values = None -> forall x, Some x ∉ values.
Proof.
  induction values as [|v values IH]; cbn [max_of foldr];
    [intros _ x Hx; inversion Hx|].
  fold (max_of values).
  destruct v as [x|]; [destruct (max_of values); discriminate|].
  intros E x Hx. apply elem_of_cons in Hx as [Hx|Hx]; [discriminate|].
  now apply (IH E x).
Qed.

Lemma max_of_spec (values : list (option Q)) (m : Q) :
  max_of values = Some m ->
  Some m ∈ values /\ forall x, Some x ∈ values -> (x <= m)%Q.
Proof.
  revert m. induction values as [|v values IH]; intros m;
    cbn [max_of foldr]; [discriminate|].
  fold (max_of values).
  destruct v as [x|].
  - destruct (max_of values) as [y|] eqn:Ey.
    + destruct (IH y eq_refl) as [Hin Hmax].
      destruct (Qle_bool x y) eqn:Hxy; intros [= <-].
      * apply Qle_bool_iff in Hxy. split; [now right|].
        intros z Hz. apply elem_of_cons in Hz as [[= ->]|Hz]; auto.
      * assert (Hlt : (y < x)%Q).
        { apply Qnot_le_lt. intros Hle. apply Qle_bool_iff in Hle.
          congruence. }
        split; [now left|].
        intros z Hz. apply elem_of_cons in Hz as [[= ->]|Hz];
          [apply Qle_refl|].
        apply Qle_trans with y; [now apply Hmax|now apply Qlt_le_weak].
    + intros [= <-]. split; [now left|].
      intros z Hz. apply elem_of_cons in Hz as [[= ->]|Hz];
        [apply Qle_refl|].
      now apply max_of_none with (x := z) in Ey.
  - intros E. destruct (IH m E) as [Hin Hmax]. split; [now right|].
    intros z Hz. apply elem_of_cons in Hz as [Hz|Hz]; [discriminate|auto].
Qed.

Lemma group_max_spec (q : vector) (rows : list NoteChunk.t) (note_id : Z)
    (m : Q) :
  group_max q rows note_id = Some m ->
  (exists c, c ∈ rows /\ NoteChunk.note_id c = note_id
             /\ chunk_similarity q c = Some m)
  /\ forall c x, c ∈ rows -> NoteChunk.note_id c = note_id ->
       chunk_similarity q c = Some x -> (x <= m)%Q.
Proof.
  unfold group_max. intros E. apply max_of_spec in E as [Hin Hmax]. split.
  - apply list_elem_of_fmap in Hin as (c & Hc & Hin).
    apply list_elem_of_In, filter_In in Hin as [Hin Hid].
    exists c. split; [now apply list_elem_of_In|]. split; [lia|easy].
  - intros c x Hc Hid Hx. apply Hmax. rewrite <- Hx.
    apply list_elem_of_fmap. exists c. split; [reflexivity|].
    apply list_elem_of_In, filter_In. split; [now apply list_elem_of_In|lia].
Qed.

Lemma score_order_total (A : Type) (a b : A * Q) :
  Qle_bool (snd b) (snd a) = true \/ Qle_bool (snd a) (snd b) = true.
Proof.
  destruct (Qlt_le_dec (snd a) (snd b)) as [Hlt|Hle].
  - right. apply Qle_bool_iff. now apply Qlt_le_weak.
  - left. now apply Qle_bool_iff.
Qed.

Lemma score_order_trans (A : Type) (a b c : A * Q) :
  Qle_bool (snd b) (snd a) = true -> Qle_bool (snd c) (snd b) = true ->
  Qle_bool (snd c) (snd a) = true.
Proof.
  rewrite !Qle_bool_iff. intros Hab Hbc. eapply Qle_trans; eassumption.
Qed.

Lemma sort_by_score_sorted {A} (l : list (A * Q)) :
  StronglySorted (fun a b => (snd b <= snd a)%Q)
    (sort_by (fun a b => Qle_bool (snd b) (snd a)) l).
Proof.
  eapply StronglySorted_mono;
    [|apply (sort_by_sorted (fun a b : A * Q => Qle_bool (snd b) (snd a)))].
  - intros a b Hab. now apply Qle_bool_iff.
  - intros a b. apply score_order_total.
  - intros a b c. apply score_order_trans.
Qed.

Lemma omap_fst_sublist {A B} (f : A -> option (A * B)) (l : list A) :
  (forall x p, f x = Some p -> fst p = x) ->
  map fst (omap f l) `sublist_of` l.
Proof.
  intros Hf. induction l as [|x l IH]; [constructor|].
  change (omap f (x :: l))
    with (match f x with Some y => y :: omap f l | None => omap f l end).
  destruct (f x) as [p|] eqn:Ep.
  - cbn [map]. rewrite (Hf x p Ep). now constructor.
  - now constructor.
Qed.

(** The rows of the grouped query. *)
Lemma chunk_query_spec (q : vector) (rows : list NoteChunk.t) (threshold : Q)
    (limit : Z) (rs : list (Z * Q)) :
  chunk_query q rows threshold limit = Ok rs ->
  0 <= limit /\ len rs <= limit
  /\ NoDup (map fst rs)
  /\ StronglySorted (fun a b => (snd b <= snd a)%Q) rs
  /\ Forall
       (fun r => group_max q rows (fst r) = Some (snd r)
                 /\ (threshold <= snd r)%Q)
       rs.
Proof.
  unfold chunk_query.
  set (ids := distinct_by Z.eqb (map NoteChunk.note_id rows) []).
  set (f := fun note_id =>
         match group_max q rows note_id with
         | Some m =>
             if Qle_bool threshold m then Some (note_id, m) else None
         | None => None
         end).
  set (groups := omap f ids).
  set (ordered := sort_by (fun a b => Qle_bool (snd b) (snd a)) groups).
  destruct (limit <? 0) eqn:Hl; [discriminate|]. intros [= <-].
  assert (Hf : forall x p, f x = Some p ->
            fst p = x /\ group_max q rows x = Some (snd p)
            /\ (threshold <= snd p)%Q).
  { intros x p. unfold f. destruct (group_max q rows x) as [m|];
      [|discriminate].
    destruct (Qle_bool threshold m) eqn:Ht; [|discriminate].
    intros [= <-]. cbn. split; [reflexivity|]. split; [reflexivity|].
    now apply Qle_bool_iff. }
  pose proof (sort_by_perm (fun a b : Z * Q => Qle_bool (snd b) (snd a))
                groups) as Hperm.
  fold ordered in Hperm.
  split; [lia|]. split; [unfold len; rewrite length_take; lia|].
  split; [|split].
  - change (NoDup (fst <$> take (Z.to_nat limit) ordered)).
    apply (sublist_NoDup _ (fst <$> ordered));
      [|apply fmap_sublist, sublist_take].
    rewrite Hperm.
    apply (sublist_NoDup _ ids).
    + apply (distinct_by_spec Z.eqb _ Z.eqb_eq []).
    + apply (omap_fst_sublist f ids). intros x p Hp. now apply Hf.
  - pose proof (sort_by_score_sorted groups) as Hs. fold ordered in Hs.
    rewrite <- (take_drop (Z.to_nat limit) ordered) in Hs.
    now apply StronglySorted_app_1_l in Hs.
  - apply Forall_forall. intros r Hr.
    apply subseteq_take in Hr. rewrite Hperm in Hr.
    apply list_elem_of_omap in Hr as (x & _ & Hx).
    destruct (Hf x r Hx) as (<- & Hg & Ht). now split.
Qed.

Lemma traverse_lookup_spec (similarity_map : list (Z * Q))
    (found : list Note.t) :
  forall keyed,
    traverse (similarity_lookup similarity_map) found = Ok keyed ->
    map fst keyed = found
    /\ Forall (fun ns => (Note.id (fst ns), snd ns) ∈ similarity_map) keyed.
Proof.
  induction found as [|n found IH]; intros keyed; cbn [traverse].
  - intros [= <-]. split; [reflexivity|constructor].
  - unfold similarity_lookup at 1.
    destruct (find _ similarity_map) as [kv|] eqn:Hfind; [|discriminate].
    destruct (traverse _ found) as [ks|e]; [|discriminate].
    intros [= <-]. destruct (IH ks eq_refl) as [Hm Hall].
    cbn [map fst]. split; [now rewrite Hm|].
    constructor; [|exact Hall]. cbn [fst snd].
    apply find_some in Hfind as [Hin Hk]. apply Z.eqb_eq in Hk.
    rewrite <- Hk. destruct kv. now apply list_elem_of_In.
Qed.

Lemma traverse_validate_spec (ordered : list (Note.t * Q)) :
  forall results,
    traverse
      (fun '(note, score) =>
         match model_validate note with
         | Ok v => Ok (v, score)
         | Raise e => Raise e
         end)
      ordered = Ok results ->
    Forall2
      (fun ns r => model_validate (fst ns) = Ok (fst r) /\ snd r = snd ns)
      ordered results.
Proof.
  induction ordered as [|[n sc] ordered IH]; intros results; cbn [traverse].
  - intros [= <-]. constructor.
  - destruct (model_validate n) as [v|e] eqn:Ev; [|discriminate].
    destruct (traverse _ ordered) as [rs|e]; [|discriminate].
    intros [= <-]. constructor; [now split|]. now apply IH.
Qed.

Lemma list_filter_sublist {A} (f : A -> bool) (l : list A) :
  List.filter f l `sublist_of` l.
Proof.
  induction l as [|x l IH]; cbn [List.filter]; [constructor|].
  destruct (f x); now constructor.
Qed.

Lemma same_id_same_note (l : list Note.t) (a b : Note.t) :
  NoDup (map Note.id l) -> a ∈ l -> b ∈ l -> Note.id a = Note.id b -> a = b.
Proof.
  induction l as [|x l IH]; cbn [map]; intros Hnd Ha Hb Hid;
    [inversion Ha|].
  apply NoDup_cons in Hnd as [Hx Hnd].
  apply elem_of_cons in Ha as [->|Ha], Hb as [->|Hb]; auto.
  - exfalso. apply Hx. rewrite Hid. apply list_elem_of_fmap. now exists b.
  - exfalso. apply Hx. rewrite <- Hid. apply list_elem_of_fmap. now exists a.
Qed.

(** The results of [semantic_search_notes]. With distinct note ids (the
    primary key), a successful search returns at most [limit] notes, each
    once, all of them notes of the user that are not archived; the score
    of a note is the greatest similarity between the query and a chunk of
    the note among the chunk types searched, it is at least the
    threshold, and the notes come by descending score. *)
Theorem semantic_search_notes_ranked (user_id : Z) (query_text : str)
    (limit : Z) (search_in : str) (similarity_threshold : Q)
    (w w' : World Ext) (results : list (NoteSchema * Q)) (total_count : Z) :
  NoDup (map Note.id (notes (pending (db w)))) ->
  semantic_search_notes user_id query_text limit search_in
    similarity_threshold w
  = (Ok (SearchResults results total_count), w') ->
  let s := pending (db w) in
  exists (q : vector) (scored : list (Note.t * Q)),
    fst (generate_query_embedding query_text w) = Ok (Some q)
    /\ total_count = len results
    /\ Forall2
         (fun ns r => model_validate (fst ns) = Ok (fst r) /\ snd r = snd ns)
         scored results
    /\ len scored <= limit
    /\ NoDup (map (fun ns => Note.id (fst ns)) scored)
    /\ StronglySorted (fun a b => (snd b <= snd a)%Q) scored
    /\ Forall
         (fun ns =>
            fst ns ∈ notes s
            /\ Note.user_id (fst ns) = user_id
            /\ Note.is_archived (fst ns) = false
            /\ (similarity_threshold <= snd ns)%Q
            /\ (exists c,
                  c ∈ search_rows s user_id search_in
                  /\ NoteChunk.note_id c = Note.id (fst ns)
                  /\ chunk_similarity q c = Some (snd ns))
            /\ (forall c x,
                  c ∈ search_rows s user_id search_in ->
                  NoteChunk.note_id c = Note.id (fst ns) ->
                  chunk_similarity q c = Some x -> (x <= snd ns)%Q))
         scored.
Proof.
  intros Hpk. cbv zeta. unfold semantic_search_notes. mnorm.
  rewrite bind_run.
  pose proof (generate_query_embedding_reads query_text w) as [Hdb _].
  destruct (generate_query_embedding query_text w) as [[qe|e] w1] eqn:Eq;
    cbn [snd fst] in *; [|discriminate].
  destruct qe as [[|x0 q0]|]; [discriminate| |discriminate].
  set (q := x0 :: q0) in *.
  unfold try_except, query, db_roundtrip, ask, get_db, lift.
  mnorm. unfold bind, ret, raise.
  destruct (db_fault (ext w1)) as [[e|] x1]; cbn [db pending ext log];
    [discriminate|].
  rewrite Hdb.
  set (rows := search_rows (pending (db w)) user_id search_in).
  destruct (chunk_query q rows similarity_threshold limit) as [rs|e] eqn:Ecq;
    cbn beta iota; [|discriminate].
  apply chunk_query_spec in Ecq as (Hlimit & Hlen & Hnd & Hsorted & Hrs).
  destruct (truthy rs) eqn:Htr; cbn [negb].
  2:{ intros [= <- <- _]. exists q, [].
      split; [reflexivity|]. split; [reflexivity|]. split; [constructor|].
      split; [unfold len; cbn; lia|]. split; [constructor|].
      split; constructor. }
  cbn [db pending ext log].
  destruct (db_fault x1) as [[e|] x2]; cbn [db pending ext log];
    [discriminate|].
  set (found :=
         List.filter
           (fun n => existsb (Z.eqb (Note.id n)) (map fst rs))
           (notes (pending (db w)))).
  destruct (traverse (similarity_lookup rs) found) as [keyed|e] eqn:Ek;
    cbn beta iota; [|discriminate].
  apply traverse_lookup_spec in Ek as [Hkeys Hkeyed].
  set (ordered := sort_by (fun a b => Qle_bool (snd b) (snd a)) keyed).
  destruct (traverse _ ordered) as [rsv|e] eqn:Ev; cbn beta iota;
    [|discriminate].
  apply traverse_validate_spec in Ev.
  intros [= <- <- _].
  pose proof (sort_by_perm (fun a b : Note.t * Q => Qle_bool (snd b) (snd a))
                keyed) as Hperm.
  fold ordered in Hperm.
  assert (Hfound_nd : NoDup (map Note.id found)).
  { apply (sublist_NoDup _ (Note.id <$> notes (pending (db w))));
      [exact Hpk|].
    change (map Note.id found) with (Note.id <$> found).
    apply fmap_sublist. unfold found. apply list_filter_sublist. }
  assert (Hids : map (fun ns : Note.t * Q => Note.id (fst ns)) keyed
                 = map Note.id found).
  { rewrite <- Hkeys. now rewrite map_map. }
  exists q, ordered.
  split; [reflexivity|]. split; [reflexivity|]. split; [exact Ev|].
  split; [|split; [|split]].
  - assert (Hsub : map Note.id found ⊆+ map fst rs).
    { apply NoDup_submseteq; [exact Hfound_nd|].
      intros z Hz. apply list_elem_of_fmap in Hz as (n & -> & Hn).
      apply list_elem_of_In, filter_In in Hn as [_ Hn].
      now apply existsb_Zeqb in Hn. }
    apply submseteq_length in Hsub. rewrite !length_map in Hsub.
    unfold len in *. rewrite Hperm.
    rewrite <- (length_map fst keyed), Hkeys. lia.
  - rewrite Hperm, Hids. exact Hfound_nd.
  - apply sort_by_score_sorted.
  - apply Forall_forall. intros ns Hns. rewrite Hperm in Hns.
    rewrite Forall_forall in Hkeyed. rewrite Forall_forall in Hrs.
    pose proof (Hkeyed ns Hns) as Hin.
    destruct (Hrs _ Hin) as [Hg Ht]. cbn [fst snd] in Hg, Ht.
    apply group_max_spec in Hg as [(c & Hc & Hcid & Hcs) Hmax].
    assert (Hn : fst ns ∈ notes (pending (db w))).
    { assert (Hf : fst ns ∈ found).
      { rewrite <- Hkeys. apply list_elem_of_fmap. now exists ns. }
      apply list_elem_of_In, filter_In in Hf as [Hf _].
      now apply list_elem_of_In. }
    split; [exact Hn|].
    pose proof Hc as Hrow. unfold rows, search_rows in Hrow.
    apply list_elem_of_In, filter_In in Hrow as [_ Hrow].
    destruct (note_of (pending (db w)) c) as [n0|] eqn:Hn0; [|discriminate].
    apply note_of_id in Hn0 as [Hid0 Hin0].
    assert (fst ns = n0) as Hsame.
    { apply (same_id_same_note _ _ _ Hpk Hn Hin0). lia. }
    apply andb_true_iff in Hrow as [Hrow _].
    apply andb_true_iff in Hrow as [Hu Ha].
    rewrite Hsame. split; [lia|]. split; [now apply negb_true_iff|].
    rewrite <- Hsame. split; [exact Ht|]. split.
    + exists c. now repeat split.
    + exact Hmax.
Qed.

(** ** Sessions: creation and deletion *)

Lemma find_app_last {A} (f g : A -> bool) (l : list A) (x : A) :
  existsb g l = false -> (forall y, f y = true -> g y = true) ->
  f x = true -> find f (l ++ [x]) = Some x.
Proof.
  intros Hl Hfg Hx. induction l as [|y l IH]; cbn [existsb find app] in *.
  - now rewrite Hx.
  - apply orb_false_iff in Hl as [Hy Hl].
    destruct (f y) eqn:Hfy; [|now apply IH].
    apply Hfg in Hfy. congruence.
Qed.

(** A created session is found again. The session [create_session]
    returns belongs to the user, is active, has the title given and a
    message count of 0; it is committed as the last row of the table, and
    a following [get_session] of the same user with its id returns it. *)
Theorem create_session_then_found (user_id : Z) (title : option str)
    (w w1 : World Ext) (session : ChatbotSession.t) :
  create_session user_id title w = (Ok session, w1) ->
  fst (db_fault (ext w1)) = None ->
  session
  = ChatbotSession.Make (ChatbotSession.session_id session) user_id title
      (Some 0) true
  /\ chatbot_sessions (committed (db w1))
     = chatbot_sessions (pending (db w)) ++ [session]
  /\ fst (get_session user_id (ChatbotSession.session_id session) w1)
     = Ok session.
Proof.
  unfold create_session, get_session, _get_session, query, update_pending,
    db_commit, db_roundtrip, ask, get_db, put_db, emit.
  mnorm. unfold bind, ret, raise.
  destruct (uuid4 (ext w)) as [sid x1]. cbn [db ext log pending committed].
  destruct (existsb _ (chatbot_sessions (pending (db w)))) eqn:Hdup;
    cbn [db ext log pending committed note_seq chunk_seq].
  { destruct (db_fault x1) as [[e|] x2];
      cbn [db ext log pending committed]; discriminate. }
  destruct (db_fault x1) as [[e|] x2];
    cbn [db ext log pending committed note_seq chunk_seq]; [discriminate|].
  match goal with
  | |- context [constraints_ok ?s] => destruct (constraints_ok s)
  end; cbn [db ext log pending committed]; [|discriminate].
  destruct (db_fault x2) as [[e|] x3];
    cbn [db ext log pending committed]; [discriminate|].
  intros [= <- <-]. cbn [db ext log pending committed chatbot_sessions
                         ChatbotSession.session_id].
  intros Hfault. destruct (db_fault x3) as [fault x4].
  cbn [fst] in Hfault. subst fault.
  cbn [db ext log pending committed chatbot_sessions].
  split; [reflexivity|]. split; [reflexivity|].
  erewrite find_app_last; [reflexivity|exact Hdup| |].
  - intros row Hrow. cbn beta in *.
    apply andb_true_iff in Hrow as [Hrow _].
    now apply andb_true_iff in Hrow as [Hrow _].
  - cbn [ChatbotSession.session_id ChatbotSession.user_id
         ChatbotSession.is_active].
    now rewrite str_eqb_refl, Z.eqb_refl.
Qed.

(** [delete_session] removes the session with its messages. When it
    returns, the session was an active session of the user, and the
    committed rows are the rows of before without the session and without
    its messages, so that no user finds the session any more; nothing
    else has changed. When it raises, nothing is committed. *)
Theorem delete_session_removes (user_id : Z) (session_id : str)
    (w : World Ext) :
  let run := delete_session user_id session_id w in
  let s := pending (db w) in
  match fst run with
  | Ok _ =>
      (exists session,
         session ∈ chatbot_sessions s
         /\ ChatbotSession.session_id session = session_id
         /\ ChatbotSession.user_id session = user_id
         /\ ChatbotSession.is_active session = true)
      /\ committed (db (snd run))
         = MkStore (audio_files s) (notes s) (note_chunks s)
             (List.filter
                (fun row =>
                   negb (str_eqb (ChatbotSession.session_id row) session_id))
                (chatbot_sessions s))
             (List.filter
                (fun m =>
                   negb (str_eqb (ChatbotMessage.session_id m) session_id))
                (chatbot_messages s))
      /\ pending (db (snd run)) = committed (db (snd run))
      /\ Forall
           (fun row => ChatbotSession.session_id row <> session_id)
           (chatbot_sessions (committed (db (snd run))))
  | Raise _ => committed (db (snd run)) = committed (db w)
  end.
Proof.
  cbv zeta.
  unfold delete_session, _get_session, query, update_pending, db_commit,
    db_roundtrip, ask, get_db, put_db, emit.
  mnorm. unfold bind, ret, raise.
  destruct (db_fault (ext w)) as [[e|] x1];
    cbn [fst snd db ext log pending committed]; [reflexivity|].
  destruct (find _ (chatbot_sessions (pending (db w)))) as [session|]
    eqn:Hfind; cbn [fst snd db ext log pending committed]; [|reflexivity].
  apply find_some in Hfind as [Hin Hok].
  apply andb_true_iff in Hok as [Hok Hactive].
  apply andb_true_iff in Hok as [Hsid Huser].
  apply str_eqb_eq in Hsid. apply Z.eqb_eq in Huser.
  destruct (db_fault x1) as [[e|] x2];
    cbn [fst snd db ext log pending committed note_seq chunk_seq];
    [reflexivity|].
  match goal with
  | |- context [constraints_ok ?s] => destruct (constraints_ok s)
  end; cbn [fst snd db ext log pending committed]; [|reflexivity].
  rewrite Hsid. split; [|split; [reflexivity|split; [reflexivity|]]].
  - exists session. split; [now apply list_elem_of_In|]. now repeat split.
  - cbn [chatbot_sessions]. apply Forall_forall. intros row Hrow.
    apply list_elem_of_In, filter_In in Hrow as [_ Hrow].
    apply negb_true_iff in Hrow. intros Heq.
    apply str_eqb_eq in Heq. congruence.
Qed.

(** ** Requests turned down before any work *)

(** Audio files are checked first. With the database reachable,
    [summarize_audio_transcript] answers 404 for an audio file that is not
    the user's and 400 for one without transcription, and [create_note]
    answers 404 for a note on an audio file (of id other than 0) that is
    not the user's; in each case only the lookup has happened: no model or
    embedding request, no write, no transaction event. *)
Theorem audio_file_checked_first (audio_file_id user_id : Z)
    (note_data : NoteData.t) (w : World Ext) :
  fst (db_fault (ext w)) = None ->
  let after := MkWorld (snd (db_fault (ext w))) (db w) (log w) in
  match
    find (fun f => (AudioFile.id f =? audio_file_id)
                   && (AudioFile.user_id f =? user_id))
      (audio_files (pending (db w)))
  with
  | None =>
      summarize_audio_transcript audio_file_id user_id w
      = (Ok (NoteFailure 404), after)
      /\ (NoteData.audio_file_id note_data = Some audio_file_id ->
          audio_file_id <> 0 ->
          create_note user_id note_data w = (Ok (NoteFailure 404), after))
  | Some audio_file =>
      truthy (default [] (AudioFile.transcription audio_file)) = false ->
      summarize_audio_transcript audio_file_id user_id w
      = (Ok (NoteFailure 400), after)
  end.
Proof.
  intros Hfault. cbv zeta.
  unfold summarize_audio_transcript, create_note, find_audio_file, query,
    db_roundtrip, ask, get_db, try_except.
  mnorm. unfold bind, ret.
  destruct (db_fault (ext w)) as [fault x] eqn:Hdb.
  cbn [fst snd] in *. subst fault.
  cbn [db pending ext log].
  destruct (find _ (audio_files (pending (db w)))) as [audio_file|] eqn:Hfind.
  - destruct (AudioFile.transcription audio_file) as [[|c t]|];
      cbn [default truthy]; intros Ht; try discriminate; reflexivity.
  - split; [reflexivity|]. intros -> Hid.
    replace (audio_file_id =? 0) with false by (symmetry; lia).
    rewrite Hdb. cbn [db pending ext log]. rewrite Hfind.
    rewrite bool_decide_eq_true_2 by reflexivity. reflexivity.
Qed.

(** A page past the end is an empty page. For options that pass the
    validation of [PageOptionsDto] and rows that all convert, a page that
    starts at or after the last row is returned with no data, the true
    item count, and [has_next_page] false; it is not an error. *)
Theorem paginate_query_beyond_last {A B} (items : list A)
    (convert_to_model : A -> result B) (page page_size : Z)
    (page_options : PageOptions) (all : list B) :
  page_options_dto page page_size false = Ok page_options ->
  traverse convert_to_model items = Ok all ->
  len items <= (page - 1) * page_size ->
  exists m,
    paginate_query items page_options convert_to_model = Ok (MkPageDto [] m)
    /\ m = create_meta page page_size (len items)
    /\ PageMeta.item_count m = len items
    /\ PageMeta.has_next_page m = false.
Proof.
  unfold page_options_dto. intros Hopts Hall Hlen.
  destruct ((1 <=? page) && (1 <=? page_size) && (page_size <=? 100))
    eqn:Hvalid; [|discriminate].
  injection Hopts as <-.
  apply andb_true_iff in Hvalid as [Hvalid Hmax].
  apply andb_true_iff in Hvalid as [Hpage Hsize].
  apply Z.leb_le in Hpage, Hsize, Hmax.
  pose proof (len_nonneg items) as Hnn.
  exists (create_meta page page_size (len items)).
  split; [|split; [reflexivity|split; [reflexivity|]]].
  - unfold paginate_query.
    cbn [opt_is_dropdown opt_page opt_page_size].
    replace ((page - 1) * page_size <? 0) with false by (symmetry; nia).
    replace (page_size <? 0) with false by (symmetry; lia).
    cbn [orb]. rewrite drop_ge by (unfold len in *; lia).
    rewrite take_nil. reflexivity.
  - destruct (page_count_bounds page page_size (len items) ltac:(lia))
      as (_ & Hlo & Hhi).
    unfold create_meta in *.
    cbn [PageMeta.page_count PageMeta.has_next_page] in *.
    apply Z.ltb_ge. nia.
Qed.

End Properties.

(* ===================================================================== *)
(** * Part III.  The properties at concrete inputs                        *)
(* ===================================================================== *)

#[local] Existing Instance Demo.settings.
#[local] Existing Instance Demo.library.

(** ** Vector search *)



(** ** Intent classification *)

(** C5, as stated, fails on the second step: the span parsed is not the
    first balanced object. On an answer with two objects, the span from
    the first opening brace to the last closing brace is not JSON, so
    [_extract_json] returns [None] and the classifier falls back to
    ["chat"], while the first balanced object parses to the intent
    ["search"]. *)
Lemma extract_json_not_first_balanced :
  _extract_json (Some Demo.two_objects) = Ok JNull
  /\ search_braces Demo.two_objects = Some Demo.two_objects
  /\ exists g,
       first_balanced Demo.two_objects = Some g
       /\ json_loads g = Some (JObj [(u "intent", JStr (u "search"))])
       /\ fst (classify_intent (H := Demo.answering Demo.two_objects)
                 (u "find my notes") [] (Demo.world Demo.store1))
          = Ok (JObj default_intent).
Proof. repeat split. eexists. repeat split. Qed.

(** An answer that is JSON but not an object is passed on by the
    classifier, and the turn raises on it and is rolled back. *)
Example turn_raises_on_array_answer :
  let run :=
    process_message (H := Demo.answering Demo.an_array) 7 (u "s1")
      (u "hello") (Demo.world Demo.store1) in
  fst run = Raise (mk_exn AttributeError "object has no attribute 'get'")
  /\ committed (db (snd run)) = Demo.store1
  /\ pending (db (snd run)) = Demo.store1.
Proof. repeat split. Qed.

(** ** Retrieval and dispatch *)

Lemma no_generation_without_chunks_witness :
  let run :=
    retrieve (H := Demo.down_provider) 7 (u "find my notes") (u "search")
      (JObj []) (Demo.world Demo.store1) in
  str_in (u "search") retrieval_intents = true
  /\ run = (Ok (Retrieved [] [] [] []), snd run)
  /\ handle (H := Demo.down_provider) (u "search") (u "find my notes")
       (JObj []) (Retrieved [] [] [] []) (snd run)
     = (Ok (HandlerResult (Some search_none_text) (Some []) (Some [])
              search_suggestions),
        snd run).
Proof.
  intros run.
  assert (Hrun : run = (Ok (Retrieved [] [] [] []), snd run))
    by reflexivity.
  split; [reflexivity|]. split; [exact Hrun|].
  destruct (no_generation_without_chunks (H := Demo.down_provider) 7
              (u "find my notes") (u "search") (JObj [])
              (Demo.world Demo.store1) (snd run) (Retrieved [] [] [] [])
              eq_refl Hrun eq_refl)
    as (_ & _ & _ & _ & res & Hres & Hsearch & _).
  rewrite Hres. now rewrite (Hsearch eq_refl).
Defined.

(** ** The embedding gateway *)

(** C8 at its input. With the default batch size, the two texts make one
    batch, which is sent to the provider as it is: the empty text is part
    of the request, and when the provider answers with two vectors, the
    entry of the empty text is the first of them, not [None]. *)
Theorem embed_many_sends_empty_text :
  let texts := [[]; u "hello"] in
  let run :=
    generate_embeddings_batch (H := Demo.constant_provider) texts
      (u "RETRIEVAL_DOCUMENT") (Demo.world Demo.empty_store) in
  _create_token_aware_batches texts _EMBEDDING_BATCH_SIZE = [[0; 1]%nat]
  /\ fst run = Ok [Some [1; 0]%Q; Some [1; 0]%Q]
  /\ log (snd run) = [EvEmbed (Batch texts) (u "RETRIEVAL_DOCUMENT")]
  /\ fst (generate_embedding (H := Demo.constant_provider) []
            (u "RETRIEVAL_DOCUMENT") (Demo.world Demo.empty_store))
     = Ok None.
Proof. repeat split. Qed.

(** ** The write paths *)

(** A note whose content is embedded is saved with its chunk, and the
    chunk carries the vector of the provider. *)
Example create_note_saves_embedded_chunk :
  let nd :=
    NoteData.Make None (u "Title") (Some (u "Some content. More content."))
      None None None false in
  let run :=
    create_note (H := Demo.constant_provider) 7 nd
      (Demo.world Demo.empty_store) in
  map (fun c => (NoteChunk.note_id c, NoteChunk.chunk_text c,
                 NoteChunk.embedding c, NoteChunk.token_count c))
      (note_chunks (committed (db (snd run))))
    = [(1, u "Some content. More content.", Some [1; 0]%Q, Some 6)]
  /\ map Note.id (notes (committed (db (snd run)))) = [1].
Proof. repeat split. Qed.

(** When the provider is down, the note is saved all the same, and no
    chunk is: a chunk without a vector is dropped, not stored. *)
Example create_note_drops_unembedded_chunk :
  let nd :=
    NoteData.Make None (u "Title") (Some (u "Some content. More content."))
      None None None false in
  let run :=
    create_note (H := Demo.down_provider) 7 nd
      (Demo.world Demo.empty_store) in
  note_chunks (committed (db (snd run))) = []
  /\ note_chunks (pending (db (snd run))) = []
  /\ map Note.id (notes (committed (db (snd run)))) = [1].
Proof. repeat split. Qed.

(** ** The turn *)

(** A turn that is answered: the two messages and the session as they are
    committed. *)
Example turn_commits_two_messages :
  let run :=
    process_message
      (H := Demo.answering (quoted (u "{§intent§:§search§,§confidence§:1}")))
      7 (u "s1") (u "  find my notes ") (Demo.world Demo.store1) in
  map ChatbotMessage.role (chatbot_messages (committed (db (snd run))))
    = [u "user"; u "assistant"]
  /\ chatbot_sessions (committed (db (snd run)))
     = [ChatbotSession.Make (u "s1") 7 (Some (u "find my notes")) (Some 2)
          true]
  /\ log (snd run)
     = [EvClassify (u "gemini-2.5-flash")
          [INTENT_SYSTEM_PROMPT; intent_user_prompt (u "  find my notes ") []];
        EvEmbed (Single (u "  find my notes ")) (u "RETRIEVAL_QUERY");
        EvCommit].
Proof. repeat split. Qed.

(** The same turn when the database fails at the commit: the call raises,
    nothing of the turn is committed or left pending, and the rollback is
    the last thing done. *)
Example turn_rolled_back_when_commit_fails :
  let run :=
    process_message
      (H := Demo.external_failing_from 11 (Demo.embed_constant [1; 0]%Q)
              (Demo.generate_text
                 (quoted (u "{§intent§:§search§,§confidence§:1}"))))
      7 (u "s1") (u "  find my notes ") (Demo.world Demo.store1) in
  fst run = Raise (Exn OtherError None (u "connection lost"))
  /\ committed (db (snd run)) = Demo.store1
  /\ pending (db (snd run)) = Demo.store1
  /\ log (snd run)
     = [EvClassify (u "gemini-2.5-flash")
          [INTENT_SYSTEM_PROMPT; intent_user_prompt (u "  find my notes ") []];
        EvEmbed (Single (u "  find my notes ")) (u "RETRIEVAL_QUERY");
        EvRollback].
Proof. repeat split. Qed.

(** C1 at a failing run. The same turn when the connection to the
    database is lost right after the commit: the commit has gone through,
    the read of [assistant_msg.message_id] for the response has to reload
    the row and fails, and the call raises. The exception reaches the
    caller with the whole turn committed (the two messages, the title and
    the count of the session) and no rollback. *)
Theorem process_message_raises_after_commit :
  let run :=
    process_message
      (H := Demo.external_failing_from 12 (Demo.embed_constant [1; 0]%Q)
              (Demo.generate_text
                 (quoted (u "{§intent§:§search§,§confidence§:1}"))))
      7 (u "s1") (u "  find my notes ") (Demo.world Demo.store1) in
  fst run = Raise (Exn OtherError None (u "connection lost"))
  /\ map ChatbotMessage.role (chatbot_messages (committed (db (snd run))))
     = [u "user"; u "assistant"]
  /\ chatbot_messages (committed (db (Demo.world Demo.store1))) = []
  /\ chatbot_sessions (committed (db (snd run)))
     = [ChatbotSession.Make (u "s1") 7 (Some (u "find my notes")) (Some 2)
          true]
  /\ pending (db (snd run)) = committed (db (snd run))
  /\ log (snd run)
     = [EvClassify (u "gemini-2.5-flash")
          [INTENT_SYSTEM_PROMPT; intent_user_prompt (u "  find my notes ") []];
        EvEmbed (Single (u "  find my notes ")) (u "RETRIEVAL_QUERY");
        EvCommit].
Proof. repeat split. Qed.

(* ===================================================================== *)
(** * Further properties at concrete inputs                               *)
(* ===================================================================== *)

(** ** The text chunker *)

(** With a chunk size of 60 and an overlap of 10, the 113 characters of
    [Demo.minutes] make two chunks; the first is cut after the last
    sentence end within reach, 103 characters from its start. *)
Lemma chunk_text_offsets_witness :
  map (fun c => (ChunkDict.start_char c, ChunkDict.end_char c))
    (fst (chunk_text_run 10 Demo.minutes 60 10 (u "content")))
  = [(0, 103); (93, 113)]
  /\ Forall
       (fun c =>
          0 <= ChunkDict.start_char c < ChunkDict.end_char c
          /\ ChunkDict.end_char c <= len (strip Demo.minutes)
          /\ len (ChunkDict.chunk_text c)
             <= ChunkDict.end_char c - ChunkDict.start_char c
          /\ ChunkDict.end_char c - ChunkDict.start_char c
             <= Z.min 60 _RECOMMENDED_MAX_CHUNK_SIZE + 51)
       (fst (chunk_text_run 10 Demo.minutes 60 10 (u "content"))).
Proof.
  split; [reflexivity|].
  apply (chunk_text_offsets 10 Demo.minutes 60 10 (u "content"));
    [lia|unfold _RECOMMENDED_MAX_CHUNK_SIZE; lia].
Defined.

Lemma chunk_text_covers_witness :
  exists cs,
    chunk_text 10 Demo.minutes 60 10 (u "content") = Some cs
    /\ length cs = 2%nat
    /\ Exists
         (fun c =>
            ChunkDict.start_char c <= Z.of_nat 95 < ChunkDict.end_char c)
         cs.
Proof.
  eexists. split; [reflexivity|]. split; [reflexivity|].
  apply (chunk_text_covers 10 Demo.minutes 60 10 (u "content") _
           ltac:(lia) ltac:(unfold _RECOMMENDED_MAX_CHUNK_SIZE; lia)
           eq_refl 95%nat 105%N);
    reflexivity.
Defined.

Lemma chunk_text_terminates_witness :
  exists cs,
    chunk_text (S (length Demo.minutes)) Demo.minutes 60 10 (u "content")
    = Some cs.
Proof.
  apply (chunk_text_terminates Demo.minutes 60 10 (u "content")).
  unfold _RECOMMENDED_MAX_CHUNK_SIZE. lia.
Defined.

Lemma chunk_text_single_chunk_witness :
  chunk_text 1 (u " Call Anna. ") 1500 200 (u "content")
  = Some [ChunkDict.Make (u "Call Anna.") 0 (u "content") 0 10 2].
Proof.
  apply (chunk_text_single_chunk 0 (u " Call Anna. ") 1500 200 (u "content")).
  - discriminate.
  - vm_compute. discriminate.
Defined.

Lemma chunk_text_small_size_loops_witness :
  chunk_text 1000 (u "a. " ++ replicate 20 120%N) 15 5 (u "content") = None.
Proof.
  apply (chunk_text_small_size_loops 1000 20 (u "content")). lia.
Defined.

(** ** The embedding gateway *)

Lemma embed_retry_stops_on_other_errors_witness :
  _embed_content_with_retry (H := Demo.down_provider) (Single (u "hi"))
    (u "RETRIEVAL_QUERY") (Demo.world Demo.empty_store)
  = (Raise (Exn OtherError None (u "provider unavailable")),
     MkWorld 1%nat (MkDb Demo.empty_store Demo.empty_store 1 1)
       [EvEmbed (Single (u "hi")) (u "RETRIEVAL_QUERY")]).
Proof.
  apply (embed_retry_stops_on_other_errors (H := Demo.down_provider)
           (Single (u "hi")) (u "RETRIEVAL_QUERY")
           (Demo.world Demo.empty_store)
           (Exn OtherError None (u "provider unavailable")) 1%nat);
    reflexivity.
Defined.

(** With the five retries of the default settings, a provider that is
    out of quota is asked six times. *)
Lemma embed_retry_exhausts_witness :
  fst (_embed_content_with_retry (H := Demo.quota_provider)
         (Single (u "hi")) (u "RETRIEVAL_QUERY")
         (Demo.world Demo.empty_store))
  = Raise (Exn ClientError (Some 429) (u "RESOURCE_EXHAUSTED"))
  /\ log (snd (_embed_content_with_retry (H := Demo.quota_provider)
                 (Single (u "hi")) (u "RETRIEVAL_QUERY")
                 (Demo.world Demo.empty_store)))
     = replicate 6 (EvEmbed (Single (u "hi")) (u "RETRIEVAL_QUERY")).
Proof.
  change (replicate 6 (EvEmbed (Single (u "hi")) (u "RETRIEVAL_QUERY")))
    with (log (Demo.world Demo.empty_store)
          ++ replicate (Z.to_nat (Z.min _EMBEDDING_MAX_RETRIES 1024 + 1))
               (EvEmbed (Single (u "hi")) (u "RETRIEVAL_QUERY"))).
  change (Raise (Exn ClientError (Some 429) (u "RESOURCE_EXHAUSTED")))
    with (@Raise embed_response
            (if _EMBEDDING_MAX_RETRIES <=? 1024
             then Exn ClientError (Some 429) (u "RESOURCE_EXHAUSTED")
             else mk_exn OverflowError "int too large to convert to float")).
  apply (embed_retry_exhausts (H := Demo.quota_provider) (Single (u "hi"))
           (u "RETRIEVAL_QUERY") (Demo.world Demo.empty_store)
           (Exn ClientError (Some 429) (u "RESOURCE_EXHAUSTED"))).
  - intros x. now exists (S x).
  - reflexivity.
  - reflexivity.
Defined.

(** With 2000 retries configured, the same provider is asked 1025 times,
    and what is raised is the [OverflowError] of the back-off, not the
    error of the provider. *)
Example embed_retry_overflows :
  let run :=
    @_embed_content_with_retry _ Demo.quota_provider Demo.many_retries
      (Single (u "hi")) (u "RETRIEVAL_QUERY") (Demo.world Demo.empty_store)
  in
  fst run = Raise (mk_exn OverflowError "int too large to convert to float")
  /\ log (snd run)
     = replicate 1025 (EvEmbed (Single (u "hi")) (u "RETRIEVAL_QUERY")).
Proof. vm_compute. split; reflexivity. Qed.

Lemma token_aware_batches_single_witness :
  _create_token_aware_batches [u "a"; u "bb"; u "ccc"] 5 = [[0; 1; 2]%nat].
Proof.
  apply (token_aware_batches_single [u "a"; u "bb"; u "ccc"] 5).
  - discriminate.
  - vm_compute. discriminate.
  - vm_compute. discriminate.
Defined.

(** ** Retrieval *)

Lemma get_related_notes_distinct_witness :
  get_related_notes Demo.store2
    [Demo.chunk_ab; Demo.chunk_ef; Demo.chunk_cd; Demo.chunk_gh]
  = Ok [Demo.note1; Demo.note2]
  /\ exists found,
       get_related_notes Demo.store2
         [Demo.chunk_ab; Demo.chunk_ef; Demo.chunk_cd; Demo.chunk_gh]
       = Ok found
       /\ NoDup (map Note.id found)
       /\ (forall n, n ∈ found ->
             exists c,
               c ∈ [Demo.chunk_ab; Demo.chunk_ef; Demo.chunk_cd;
                    Demo.chunk_gh]
               /\ note_of Demo.store2 c = Some n)
       /\ (forall c,
             c ∈ [Demo.chunk_ab; Demo.chunk_ef; Demo.chunk_cd; Demo.chunk_gh]
             -> NoteChunk.note_id c ∈ map Note.id found).
Proof.
  split; [reflexivity|].
  apply (get_related_notes_distinct Demo.store2
           [Demo.chunk_ab; Demo.chunk_ef; Demo.chunk_cd; Demo.chunk_gh]).
  repeat constructor; now eexists.
Defined.

Lemma get_related_audio_files_distinct_witness :
  get_related_audio_files Demo.store2
    [Demo.chunk_ab; Demo.chunk_ef; Demo.chunk_gh]
  = Ok [Demo.audio1]
  /\ exists found,
       get_related_audio_files Demo.store2
         [Demo.chunk_ab; Demo.chunk_ef; Demo.chunk_gh] = Ok found
       /\ NoDup (map AudioFile.id found)
       /\ (forall f, f ∈ found ->
             exists c n,
               c ∈ [Demo.chunk_ab; Demo.chunk_ef; Demo.chunk_gh]
               /\ note_of Demo.store2 c = Some n
               /\ audio_file_of Demo.store2 n = Some f)
       /\ (forall c n f,
             c ∈ [Demo.chunk_ab; Demo.chunk_ef; Demo.chunk_gh] ->
             note_of Demo.store2 c = Some n ->
             audio_file_of Demo.store2 n = Some f ->
             AudioFile.id f ∈ map AudioFile.id found).
Proof.
  split; [reflexivity|].
  apply (get_related_audio_files_distinct Demo.store2
           [Demo.chunk_ab; Demo.chunk_ef; Demo.chunk_gh]).
  repeat constructor; now eexists.
Defined.

(** With a budget of 20 tokens, that is 80 characters, the first block of
    58 characters is taken and the second is not. *)
Lemma build_context_takes_fitting_prefix_witness :
  exists context,
    build_context Demo.store1 [Demo.chunk_ab; Demo.chunk_cd] 20 = Ok context
    /\ len context = 58
    /\ exists (k : nat) (blocks : list str),
         Forall2 (fun c b => context_block Demo.store1 c = Ok b)
           (take k [Demo.chunk_ab; Demo.chunk_cd]) blocks
         /\ context = join [10%N] blocks
         /\ total_len blocks <= Z.max 0 (20 * 4)
         /\ (forall c, [Demo.chunk_ab; Demo.chunk_cd] !! k = Some c ->
               exists b, context_block Demo.store1 c = Ok b
                         /\ total_len blocks + len b > 20 * 4).
Proof.
  eexists. split; [reflexivity|]. split; [reflexivity|].
  apply (build_context_takes_fitting_prefix Demo.store1
           [Demo.chunk_ab; Demo.chunk_cd] 20).
  reflexivity.
Defined.

Lemma semantic_search_without_embedding_witness :
  semantic_search_with_filters (H := Demo.down_provider) 7 (u "find")
    (JObj []) 5 (Demo.world Demo.store1)
  = (Ok [],
     MkWorld 1%nat (MkDb Demo.store1 Demo.store1 1 1)
       [EvEmbed (Single (u "find")) (u "RETRIEVAL_QUERY")]).
Proof.
  apply (semantic_search_without_embedding (H := Demo.down_provider) 7
           (u "find") (JObj []) 5 (Demo.world Demo.store1) _ None);
    reflexivity.
Defined.

(** ** The turn *)

(** User 7 writes to the session of user 8. *)
Lemma process_message_unknown_session_witness :
  let run :=
    process_message (H := Demo.constant_provider) 7 (u "s2") (u "hello")
      (Demo.world Demo.store2) in
  fst run = Raise (mk_exn ValueError "Session not found")
  /\ exists e,
       fst run = Raise e
       /\ (fst (@db_fault _ Demo.constant_provider
                  (snd (@time_time _ Demo.constant_provider
                          (ext (Demo.world Demo.store2)))))
           = None -> e = mk_exn ValueError "Session not found")
       /\ log (snd run) = log (Demo.world Demo.store2) ++ [EvRollback]
       /\ committed (db (snd run)) = committed (db (Demo.world Demo.store2))
       /\ pending (db (snd run)) = committed (db (Demo.world Demo.store2)).
Proof.
  split; [reflexivity|].
  apply (process_message_unknown_session (H := Demo.constant_provider) 7
           (u "s2") (u "hello") (Demo.world Demo.store2)).
  reflexivity.
Defined.

Lemma process_message_response_wellformed_witness :
  let run :=
    process_message
      (H := Demo.answering (quoted (u "{§intent§:§search§,§confidence§:1}")))
      7 (u "s1") (u "find my notes") (Demo.world Demo.store1) in
  exists r,
    fst run = Ok r
    /\ is_Some (r_response r)
    /\ str_in (r_intent r) known_intents = true.
Proof.
  intros run. eexists. split; [reflexivity|].
  apply (process_message_response_wellformed
           (H := Demo.answering
                   (quoted (u "{§intent§:§search§,§confidence§:1}")))
           7 (u "s1") (u "find my notes") (Demo.world Demo.store1)
           (snd run)).
  reflexivity.
Defined.

(** The last message of session [s1] in [Demo.store2]. *)
Lemma conversation_history_most_recent_witness :
  fst (_get_conversation_history (H := Demo.constant_provider) (u "s1") 1
         (Demo.world Demo.store2))
  = Ok [(u "assistant", Some (u "hi"))]
  /\ exists recent older,
       [(u "assistant", Some (u "hi"))]
       = map (fun m => (ChatbotMessage.role m, ChatbotMessage.content m))
           recent
       /\ older ++ recent
          ≡ₚ List.filter
               (fun m => str_eqb (ChatbotMessage.session_id m) (u "s1"))
               (chatbot_messages (pending (db (Demo.world Demo.store2))))
       /\ length recent = Nat.min 1 (length (older ++ recent))
       /\ StronglySorted
            (fun a b =>
               datetime_leb (ChatbotMessage.created_at a)
                 (ChatbotMessage.created_at b) = true)
            recent
       /\ (forall o r, o ∈ older -> r ∈ recent ->
             datetime_leb (ChatbotMessage.created_at o)
               (ChatbotMessage.created_at r) = true).
Proof.
  split; [reflexivity|].
  apply (conversation_history_most_recent (H := Demo.constant_provider)
           (u "s1") 1 (Demo.world Demo.store2)
           (snd (_get_conversation_history (H := Demo.constant_provider)
                   (u "s1") 1 (Demo.world Demo.store2)))).
  reflexivity.
Defined.

(** ** Pagination *)

(** Page 2 of 25 items, 10 to a page: 3 pages, one before and one
    after. *)
Lemma create_meta_page_count_witness :
  create_meta 2 10 25 = PageMeta.Make 2 10 25 3 true true
  /\ (let m := create_meta 2 10 25 in
      (PageMeta.page_count m - 1) * 10 < 25
      /\ 25 <= PageMeta.page_count m * 10
      /\ (PageMeta.has_next_page m = true <-> 2 * 10 < 25)
      /\ (PageMeta.has_previous_page m = true <-> 1 < 2)).
Proof.
  split; [reflexivity|].
  apply (create_meta_page_count 2 10 25); [split; [lia|reflexivity]|reflexivity].
Defined.

(** Five rows, two to a page. *)
Lemma paginate_query_pages_partition_witness :
  map data
    (omap (fun p =>
             match paginate_query [10; 20; 30; 40; 50]
                     (MkPageOptions p 2 false) (fun x : Z => Ok x) with
             | Ok pg => Some pg
             | Raise _ => None
             end) [1; 2; 3])
  = [[10; 20]; [30; 40]; [50]]
  /\ (let page_count :=
        PageMeta.page_count (create_meta 1 2 (len [10; 20; 30; 40; 50])) in
      exists pages : list (PageDto Z),
        Forall2
          (fun p pg =>
             paginate_query [10; 20; 30; 40; 50]
               (MkPageOptions (Z.of_nat p) 2 false) (fun x : Z => Ok x)
             = Ok pg)
          (seq 1 (Z.to_nat page_count)) pages
        /\ concat (map data pages) = [10; 20; 30; 40; 50]
        /\ Forall (fun pg => data pg <> [] /\ len (data pg) <= 2) pages).
Proof.
  split; [reflexivity|].
  apply (paginate_query_pages_partition [10; 20; 30; 40; 50]
           (fun x : Z => Ok x) 2 [10; 20; 30; 40; 50]);
    [lia|reflexivity].
Defined.

(** ** Notes and sessions *)

#[local] Existing Instance Demo.schemas.

(** Note 3 belongs to user 8; user 7 asks for it. *)
Lemma foreign_note_not_found_witness :
  fst (delete_note (H := Demo.constant_provider) 3 7 (Demo.world Demo.store2))
  = Ok 404
  /\ (let w := Demo.world Demo.store2 in
      let after :=
        MkWorld (snd (@db_fault _ Demo.constant_provider (ext w))) (db w)
          (log w) in
      get_note_by_id (H := Demo.constant_provider) 3 7 w
      = (Ok (NoteViewFailure 404), after)
      /\ update_note (H := Demo.constant_provider) 3 7
           (NoteUpdate.Make (Some (u "Mine")) None None None None None) w
         = (Ok (NoteFailure 404), after)
      /\ delete_note (H := Demo.constant_provider) 3 7 w = (Ok 404, after)).
Proof.
  split; [reflexivity|].
  apply (foreign_note_not_found (H := Demo.constant_provider) 3 7
           (NoteUpdate.Make (Some (u "Mine")) None None None None None)
           (Demo.world Demo.store2));
    reflexivity.
Defined.

(** User 7 has one note with a category and one without. *)
Lemma get_note_categories_distinct_witness :
  let run :=
    get_note_categories (H := Demo.constant_provider) 7
      (Demo.world Demo.store2) in
  fst run = Ok [u "meeting"]
  /\ NoDup [u "meeting"]
  /\ forall c,
       c ∈ [u "meeting"]
       <-> c <> []
           /\ exists n, n ∈ notes Demo.store2
                        /\ Note.user_id n = 7
                        /\ Note.category n = Some c.
Proof.
  intros run. split; [reflexivity|].
  apply (get_note_categories_distinct (H := Demo.constant_provider) 7
           (Demo.world Demo.store2) (snd run) [u "meeting"]).
  reflexivity.
Defined.

(** A search of user 7 over both chunk types: the two notes of the user,
    each once, and not the note of user 8. *)
Lemma semantic_search_notes_ranked_witness :
  let w := Demo.world Demo.store2 in
  let run :=
    semantic_search_notes (H := Demo.constant_provider) 7 (u "budget") 10
      (u "both") (1 # 2) w in
  fst run = Ok (SearchResults [(Demo.note1, 1%Q); (Demo.note2, 1%Q)] 2)
  /\ exists (q : vector) (scored : list (Note.t * Q)),
       fst (generate_query_embedding (H := Demo.constant_provider)
              (u "budget") w) = Ok (Some q)
       /\ 2 = len [(Demo.note1, 1%Q); (Demo.note2, 1%Q)]
       /\ Forall2
            (fun ns r =>
               model_validate (fst ns) = Ok (fst r) /\ snd r = snd ns)
            scored [(Demo.note1, 1%Q); (Demo.note2, 1%Q)]
       /\ len scored <= 10
       /\ NoDup (map (fun ns => Note.id (fst ns)) scored)
       /\ StronglySorted (fun a b => (snd b <= snd a)%Q) scored
       /\ Forall
            (fun ns =>
               fst ns ∈ notes Demo.store2
               /\ Note.user_id (fst ns) = 7
               /\ Note.is_archived (fst ns) = false
               /\ (1 # 2 <= snd ns)%Q
               /\ (exists c,
                     c ∈ search_rows Demo.store2 7 (u "both")
                     /\ NoteChunk.note_id c = Note.id (fst ns)
                     /\ chunk_similarity q c = Some (snd ns))
               /\ (forall c x,
                     c ∈ search_rows Demo.store2 7 (u "both") ->
                     NoteChunk.note_id c = Note.id (fst ns) ->
                     chunk_similarity q c = Some x -> (x <= snd ns)%Q))
            scored.
Proof.
  intros w run. split; [reflexivity|].
  apply (semantic_search_notes_ranked (H := Demo.constant_provider)
           (H2 := Demo.schemas) 7
           (u "budget") 10 (u "both") (1 # 2) w (snd run)
           [(Demo.note1, 1%Q); (Demo.note2, 1%Q)] 2).
  - change (NoDup [1; 2; 3]).
    repeat (apply NoDup_cons; split;
            [rewrite ?elem_of_cons, elem_of_nil; lia|]).
    apply NoDup_nil_2.
  - reflexivity.
Defined.

(** A session opened by user 7. *)
Lemma create_session_then_found_witness :
  let run :=
    create_session (H := Demo.constant_provider) 7 (Some (u "Plans"))
      (Demo.world Demo.store1) in
  exists session,
    fst run = Ok session
    /\ session
       = ChatbotSession.Make (ChatbotSession.session_id session) 7
           (Some (u "Plans")) (Some 0) true
    /\ chatbot_sessions (committed (db (snd run)))
       = [Demo.session1; session]
    /\ fst (get_session (H := Demo.constant_provider) 7
              (ChatbotSession.session_id session) (snd run))
       = Ok session.
Proof.
  intros run. eexists. split; [reflexivity|].
  apply (create_session_then_found (H := Demo.constant_provider) 7
           (Some (u "Plans")) (Demo.world Demo.store1) (snd run));
    reflexivity.
Defined.

(** ** Requests turned down *)

(** Audio file 1 belongs to user 7; user 8 asks for its summary, and for a
    note on it. *)
Lemma audio_file_checked_first_witness :
  let w := Demo.world Demo.store2 in
  let note_data :=
    NoteData.Make (Some 1) (u "Mine now") None None None None false in
  let after :=
    MkWorld (snd (@db_fault _ Demo.constant_provider (ext w))) (db w)
      (log w) in
  find (fun f => (AudioFile.id f =? 1) && (AudioFile.user_id f =? 8))
    (audio_files (pending (db w))) = None
  /\ summarize_audio_transcript (H := Demo.constant_provider) 1 8 w
     = (Ok (NoteFailure 404), after)
  /\ create_note (H := Demo.constant_provider) 8 note_data w
     = (Ok (NoteFailure 404), after).
Proof.
  intros w note_data after. split; [reflexivity|].
  pose proof (audio_file_checked_first (H := Demo.constant_provider) 1 8
                note_data w eq_refl) as Hchecked.
  cbv zeta in Hchecked.
  change (find _ (audio_files (pending (db w)))) with (@None AudioFile.t)
    in Hchecked.
  destruct Hchecked as [Hsummarize Hcreate].
  split; [exact Hsummarize|].
  apply Hcreate; [reflexivity|lia].
Defined.

(** Five rows, two to a page: page 4 is empty. *)
Lemma paginate_query_beyond_last_witness :
  paginate_query [10; 20; 30; 40; 50] (MkPageOptions 4 2 false)
    (fun x : Z => Ok x)
  = Ok (MkPageDto [] (PageMeta.Make 4 2 5 3 true false))
  /\ exists m,
       paginate_query [10; 20; 30; 40; 50] (MkPageOptions 4 2 false)
         (fun x : Z => Ok x) = Ok (MkPageDto [] m)
       /\ m = create_meta 4 2 (len [10; 20; 30; 40; 50])
       /\ PageMeta.item_count m = len [10; 20; 30; 40; 50]
       /\ PageMeta.has_next_page m = false.
Proof.
  split; [reflexivity|].
  apply (paginate_query_beyond_last [10; 20; 30; 40; 50] (fun x : Z => Ok x)
           4 2 (MkPageOptions 4 2 false) [10; 20; 30; 40; 50]);
    [reflexivity|reflexivity|vm_compute; discriminate].
Defined.
